(** * Field-level personal-data encryption: [core/encryption.py]

    A shallow embedding of [PersonalDataEncryptor] and of the parts of the
    Python standard library it calls (slicing, [str.encode], [base64],
    [json], [datetime]).  The cryptographic primitives of the
    [cryptography] package (PBKDF2-HMAC-SHA256, HMAC-SHA256, AES-GCM) are
    an interface with the laws the proofs rely on.

    Conventions:
    - a Python [str] is the list of its code points ([list N]); lone
      surrogates are legal code points of a [str], as in Python;
    - [bytes] is [list byte];
    - a [dict] is the list of its items in insertion order;
    - code that can raise returns a [result]; code that reads the clock or
      the random source, or calls a cryptographic primitive, threads a
      [world] that also records the primitives called, in order.
    Log messages and the text carried by exceptions are not modelled. *)

From Stdlib.Strings Require Import Ascii String Byte.
From Stdlib Require Import DecimalString Decimal.
From Stdlib Require Import ZArith NArith List Bool Lia.
Import ListNotations.

Set Implicit Arguments.
Set Warnings "-register-all".

(** ** Python values *)

Definition str := list N.
Definition bytes := list byte.

(** A string literal of the source, as code points. *)
Definition lit (s : string) : str := map N_of_ascii (list_ascii_of_string s).

(** A bytes literal [b'...'] of the source. *)
Definition blit (s : string) : bytes := list_byte_of_string s.

Definition str_eqb (a b : str) : bool :=
  if list_eq_dec N.eq_dec a b then true else false.

Definition bytes_eqb (a b : bytes) : bool :=
  if list_eq_dec Byte.byte_eq_dec a b then true else false.

(** The value of a byte, and the byte of a value (modulo 256, as a store
    into an [unsigned char] does). *)
Definition byte_val (b : byte) : N := Byte.to_N b.

Definition byte_of_N (n : N) : byte :=
  match Byte.of_N (n mod 256) with Some b => b | None => x00 end.

(** ** Exceptions and results *)

Inductive exn : Type :=
| ValueError
| ZeroDivisionError
| UnicodeEncodeError
| UnicodeDecodeError
| BinasciiError
| JSONDecodeError
| KeyError
| AttributeError
| TypeError
| InvalidSignature
| InvalidTag
| EncryptionError
| DecryptionError
| SecurityError.

Inductive result (A : Type) : Type :=
| Ok (a : A)
| Raise (e : exn).

Arguments Ok {A} a.
Arguments Raise {A} e.

Definition rbind {A B} (r : result A) (k : A -> result B) : result B :=
  match r with Ok a => k a | Raise e => Raise e end.

Definition rmap {A B} (f : A -> B) (r : result A) : result B :=
  match r with Ok a => Ok (f a) | Raise e => Raise e end.

(** ** Slicing: [l[lo:hi]] with Python's treatment of negative and
    out-of-range bounds *)

Definition norm_index (len i : Z) : Z :=
  if (i <? 0)%Z then Z.max 0 (len + i) else Z.min len i.

Definition slice {A} (lo hi : option Z) (l : list A) : list A :=
  let n := Z.of_nat (length l) in
  let a := match lo with None => 0%Z | Some i => norm_index n i end in
  let b := match hi with None => n | Some i => norm_index n i end in
  firstn (Z.to_nat (b - a)) (skipn (Z.to_nat a) l).

(** ** [base64.urlsafe_b64encode] and [base64.urlsafe_b64decode]

    The encoder is [binascii.b2a_base64] without the newline followed by
    the [+/] to [-_] translation; the decoder translates back and runs
    [binascii.a2b_base64] in its default (non-strict) mode: characters
    outside the alphabet are skipped, a complete pad sequence ends the
    input, and leftover characters of an incomplete quad are an error.
    Shifts and masks of the C code are written as multiplications,
    divisions and remainders. *)

Definition table_b2a_base64 : bytes :=
  blit "ABCDEFGHIJKLMNOPQRSTUVWXYZabcdefghijklmnopqrstuvwxyz0123456789+/".

Definition BASE64_PAD : byte := x3d.

Definition b2a_char (n : N) : byte := nth (N.to_nat n) table_b2a_base64 BASE64_PAD.

Fixpoint index_of (c : byte) (l : bytes) (i : N) : option N :=
  match l with
  | [] => None
  | x :: t => if Byte.eqb c x then Some i else index_of c t (i + 1)%N
  end.

Definition table_a2b_base64 (c : byte) : option N := index_of c table_b2a_base64 0%N.

Fixpoint b2a_base64 (data : bytes) : bytes :=
  match data with
  | [] => []
  | [b0] =>
      let x := byte_val b0 in
      [b2a_char (x / 4); b2a_char ((x mod 4) * 16); BASE64_PAD; BASE64_PAD]
  | [b0; b1] =>
      let x := byte_val b0 in
      let y := byte_val b1 in
      [b2a_char (x / 4); b2a_char ((x mod 4) * 16 + y / 16);
       b2a_char ((y mod 16) * 4); BASE64_PAD]
  | b0 :: b1 :: b2 :: rest =>
      let x := byte_val b0 in
      let y := byte_val b1 in
      let z := byte_val b2 in
      b2a_char (x / 4) :: b2a_char ((x mod 4) * 16 + y / 16)
        :: b2a_char ((y mod 16) * 4 + z / 64) :: b2a_char (z mod 64)
        :: b2a_base64 rest
  end%N.

Fixpoint a2b_base64_loop (ascii : bytes) (quad_pos : nat) (leftchar : N) (pads : nat)
  : result bytes :=
  match ascii with
  | [] => if Nat.eqb quad_pos 0 then Ok [] else Raise BinasciiError
  | this_ch :: rest =>
      if Byte.eqb this_ch BASE64_PAD then
        if Nat.leb 2 quad_pos then
          if Nat.leb 4 (quad_pos + S pads) then Ok []
          else a2b_base64_loop rest quad_pos leftchar (S pads)
        else a2b_base64_loop rest quad_pos leftchar pads
      else
        match table_a2b_base64 this_ch with
        | None => a2b_base64_loop rest quad_pos leftchar pads
        | Some v =>
            match quad_pos with
            | 0 => a2b_base64_loop rest 1 v 0
            | 1 => rmap (cons (byte_of_N (leftchar * 4 + v / 16)%N))
                        (a2b_base64_loop rest 2 (v mod 16)%N 0)
            | 2 => rmap (cons (byte_of_N (leftchar * 16 + v / 4)%N))
                        (a2b_base64_loop rest 3 (v mod 4)%N 0)
            | _ => rmap (cons (byte_of_N (leftchar * 64 + v)%N))
                        (a2b_base64_loop rest 0 0%N 0)
            end
        end
  end.

Definition a2b_base64 (ascii : bytes) : result bytes := a2b_base64_loop ascii 0 0 0.

Definition urlsafe_encode_translation (c : byte) : byte :=
  if Byte.eqb c x2b then x2d else if Byte.eqb c x2f then x5f else c.

Definition urlsafe_decode_translation (c : byte) : byte :=
  if Byte.eqb c x2d then x2b else if Byte.eqb c x5f then x2f else c.

Definition urlsafe_b64encode (s : bytes) : bytes :=
  map urlsafe_encode_translation (b2a_base64 s).

Definition urlsafe_b64decode (s : bytes) : result bytes :=
  a2b_base64 (map urlsafe_decode_translation s).


(** ** [str.encode('utf-8')] and [bytes.decode('utf-8')]

    Both are strict: the encoder refuses surrogates, the decoder refuses
    stray or missing continuation bytes, overlong forms, surrogates and
    values above U+10FFFF. *)

Definition is_surrogate (c : N) : bool := ((0xD800 <=? c) && (c <=? 0xDFFF))%N.

Definition utf8_encode_char (c : N) : result bytes :=
  (if c <? 0x80 then Ok [byte_of_N c]
   else if c <? 0x800 then
     Ok [byte_of_N (0xC0 + c / 64); byte_of_N (0x80 + c mod 64)]
   else if is_surrogate c then Raise UnicodeEncodeError
   else if c <? 0x10000 then
     Ok [byte_of_N (0xE0 + c / 4096); byte_of_N (0x80 + (c / 64) mod 64);
         byte_of_N (0x80 + c mod 64)]
   else if c <? 0x110000 then
     Ok [byte_of_N (0xF0 + c / 262144); byte_of_N (0x80 + (c / 4096) mod 64);
         byte_of_N (0x80 + (c / 64) mod 64); byte_of_N (0x80 + c mod 64)]
   else Raise UnicodeEncodeError)%N.

Fixpoint utf8_encode (s : str) : result bytes :=
  match s with
  | [] => Ok []
  | c :: rest =>
      rbind (utf8_encode_char c) (fun bs => rmap (app bs) (utf8_encode rest))
  end.

Definition is_continuation (b : byte) : bool :=
  ((0x80 <=? byte_val b) && (byte_val b <? 0xC0))%N.

Definition continuation_bits (b : byte) : N := (byte_val b - 0x80)%N.

(** One step of the decoder: the first code point of [b], then [rest] on
    what follows it. *)
Definition utf8_decode_step (rest : bytes -> result str) (b : bytes) : result str :=
  match b with
  | [] => Ok []
  | b0 :: r0 =>
      let x := byte_val b0 in
      if (x <? 0x80)%N then rmap (cons x) (rest r0)
      else if (x <? 0xC0)%N then Raise UnicodeDecodeError
      else if (x <? 0xE0)%N then
        match r0 with
        | b1 :: r1 =>
            let c := ((x - 0xC0) * 64 + continuation_bits b1)%N in
            if is_continuation b1 && (0x80 <=? c)%N
            then rmap (cons c) (rest r1)
            else Raise UnicodeDecodeError
        | _ => Raise UnicodeDecodeError
        end
      else if (x <? 0xF0)%N then
        match r0 with
        | b1 :: b2 :: r2 =>
            let c := ((x - 0xE0) * 4096 + continuation_bits b1 * 64
                      + continuation_bits b2)%N in
            if is_continuation b1 && is_continuation b2
               && (0x800 <=? c)%N && negb (is_surrogate c)
            then rmap (cons c) (rest r2)
            else Raise UnicodeDecodeError
        | _ => Raise UnicodeDecodeError
        end
      else if (x <? 0xF8)%N then
        match r0 with
        | b1 :: b2 :: b3 :: r3 =>
            let c := ((x - 0xF0) * 262144 + continuation_bits b1 * 4096
                      + continuation_bits b2 * 64 + continuation_bits b3)%N in
            if is_continuation b1 && is_continuation b2 && is_continuation b3
               && (0x10000 <=? c)%N && (c <? 0x110000)%N
            then rmap (cons c) (rest r3)
            else Raise UnicodeDecodeError
        | _ => Raise UnicodeDecodeError
        end
      else Raise UnicodeDecodeError
  end.

Fixpoint utf8_decode (b : bytes) {struct b} : result str :=
  utf8_decode_step utf8_decode b.

(** The strings [str.encode('utf-8')] accepts: Unicode scalar values only. *)
Definition is_scalar (c : N) : bool := ((c <? 0x110000) && negb (is_surrogate c))%N.

Definition encodable (s : str) : bool := forallb is_scalar s.

Definition is_ascii (c : N) : bool := (c <? 0x80)%N.

(** ** Values and dictionaries

    The values a record or a JSON document holds: [None], booleans,
    integers, strings, lists and dictionaries with string keys.  Floats are
    outside the model.  A dictionary is the list of its items in insertion
    order; [dict_setitem] is [d[k] = v]: an existing key keeps its place. *)

Inductive value : Type :=
| VNone
| VBool (b : bool)
| VInt (z : Z)
| VStr (s : str)
| VList (l : list value)
| VDict (d : list (str * value)).

Definition dict (V : Type) := list (str * V).

Fixpoint dict_setitem {V} (k : str) (v : V) (d : dict V) : dict V :=
  match d with
  | [] => [(k, v)]
  | (k', v') :: t =>
      if str_eqb k' k then (k', v) :: t else (k', v') :: dict_setitem k v t
  end.

Fixpoint dict_get {V} (k : str) (d : dict V) : option V :=
  match d with
  | [] => None
  | (k', v') :: t => if str_eqb k' k then Some v' else dict_get k t
  end.

(** [dict(pairs)]: later pairs overwrite earlier ones. *)
Definition dict_of_pairs {V} (pairs : list (str * V)) : dict V :=
  fold_left (fun d kv => dict_setitem (fst kv) (snd kv) d) pairs [].

Definition keys {V} (d : dict V) : list str := map fst d.

(** Truthiness of a value, as [if value] tests it. *)
Definition truthy (v : value) : bool :=
  match v with
  | VNone => false
  | VBool b => b
  | VInt z => negb (z =? 0)%Z
  | VStr s => match s with [] => false | _ => true end
  | VList l => match l with [] => false | _ => true end
  | VDict d => match d with [] => false | _ => true end
  end.

(** ** Decimal printing: [str(n)] of an integer, and zero-padded fields *)

Definition str_of_Z (z : Z) : str := lit (NilZero.string_of_int (Z.to_int z)).

Definition zero_pad (width : nat) (z : Z) : str :=
  let digits := str_of_Z z in
  repeat 0x30%N (width - length digits) ++ digits.

(** ** [datetime]

    A naive date and time.  [toordinal] is the proleptic Gregorian day
    number of the date, as [datetime.toordinal] computes it. *)

Record datetime : Type := mkDatetime {
  year : Z; month : Z; day : Z;
  hour : Z; minute : Z; second : Z; microsecond : Z
}.

Definition is_leap (y : Z) : bool :=
  ((y mod 4 =? 0) && (negb (y mod 100 =? 0) || (y mod 400 =? 0)))%Z.

Definition days_before_year (y : Z) : Z :=
  let p := (y - 1)%Z in (p * 365 + p / 4 - p / 100 + p / 400)%Z.

Definition DAYS_BEFORE_MONTH : list Z :=
  [0; 0; 31; 59; 90; 120; 151; 181; 212; 243; 273; 304; 334]%Z.

Definition days_before_month (y m : Z) : Z :=
  (nth (Z.to_nat m) DAYS_BEFORE_MONTH 0 + if (2 <? m) && is_leap y then 1 else 0)%Z.

Definition toordinal (d : datetime) : Z :=
  (days_before_year (year d) + days_before_month (year d) (month d) + day d)%Z.

(** [(a - b).days] when [b] is a midnight: the difference of the day
    numbers, the time of day of [a] being non-negative. *)
Definition days_since (a b : datetime) : Z := (toordinal a - toordinal b)%Z.

(** [datetime.isoformat()]: [YYYY-MM-DDTHH:MM:SS], then [.ffffff] when the
    microseconds are not zero. *)
Definition isoformat (d : datetime) : str :=
  zero_pad 4 (year d) ++ lit "-" ++ zero_pad 2 (month d) ++ lit "-"
  ++ zero_pad 2 (day d) ++ lit "T" ++ zero_pad 2 (hour d) ++ lit ":"
  ++ zero_pad 2 (minute d) ++ lit ":" ++ zero_pad 2 (second d)
  ++ (if (microsecond d =? 0)%Z then [] else lit "." ++ zero_pad 6 (microsecond d)).

Definition datetime_2020_01_01 : datetime := mkDatetime 2020 1 1 0 0 0 0.

(** ** [json.dumps(obj, ensure_ascii=False)]

    Default separators [", "] and [": "].  In a string only the backslash,
    the double quote and the control characters below U+0020 are escaped;
    every other code point is written as it is. *)

Definition hex_digit (n : N) : N := (if n <? 10 then 0x30 + n else 0x61 + (n - 10))%N.

Definition json_escape_char (c : N) : str :=
  (if c =? 0x5C then [0x5C; 0x5C]
   else if c =? 0x22 then [0x5C; 0x22]
   else if c =? 0x08 then [0x5C; 0x62]
   else if c =? 0x0C then [0x5C; 0x66]
   else if c =? 0x0A then [0x5C; 0x6E]
   else if c =? 0x0D then [0x5C; 0x72]
   else if c =? 0x09 then [0x5C; 0x74]
   else if c <? 0x20 then
     [0x5C; 0x75; 0x30; 0x30; hex_digit (c / 16); hex_digit (c mod 16)]
   else [c])%N.

Definition json_quote (s : str) : str :=
  (0x22 :: flat_map json_escape_char s ++ [0x22])%N.

Fixpoint join (sep : str) (parts : list str) : str :=
  match parts with
  | [] => []
  | [p] => p
  | p :: rest => p ++ sep ++ join sep rest
  end.

Fixpoint json_dumps (v : value) : str :=
  match v with
  | VNone => lit "null"
  | VBool true => lit "true"
  | VBool false => lit "false"
  | VInt z => str_of_Z z
  | VStr s => json_quote s
  | VList l => lit "[" ++ join (lit ", ") (map json_dumps l) ++ lit "]"
  | VDict d =>
      lit "{"
      ++ join (lit ", ")
           (map (fun kv : str * value =>
                   let (k, x) := kv in json_quote k ++ lit ": " ++ json_dumps x) d)
      ++ lit "}"
  end.

(** ** [json.loads]

    The decoder of the C accelerator in its default strict mode.  Numbers
    with a fraction or an exponent, [NaN] and the infinities would be
    floats: the model refuses them.  The fuel bounds the nesting depth and
    the number of members; [json_loads] gives the length of the text, which
    is always enough. *)

Definition is_ws (c : N) : bool :=
  ((c =? 0x20) || (c =? 0x09) || (c =? 0x0A) || (c =? 0x0D))%N.

Fixpoint skip_ws (s : str) : str :=
  match s with
  | c :: t => if is_ws c then skip_ws t else s
  | [] => []
  end.

Definition hex_value (c : N) : option N :=
  (if (0x30 <=? c) && (c <=? 0x39) then Some (c - 0x30)
   else if (0x61 <=? c) && (c <=? 0x66) then Some (c - 0x61 + 10)
   else if (0x41 <=? c) && (c <=? 0x46) then Some (c - 0x41 + 10)
   else None)%N.

Definition decode_uXXXX (h1 h2 h3 h4 : N) : option N :=
  match hex_value h1, hex_value h2, hex_value h3, hex_value h4 with
  | Some a, Some b, Some c, Some d => Some (((a * 16 + b) * 16 + c) * 16 + d)%N
  | _, _, _, _ => None
  end.

Definition backslash_escape (esc : N) : option N :=
  (if esc =? 0x22 then Some 0x22
   else if esc =? 0x5C then Some 0x5C
   else if esc =? 0x2F then Some 0x2F
   else if esc =? 0x62 then Some 0x08
   else if esc =? 0x66 then Some 0x0C
   else if esc =? 0x6E then Some 0x0A
   else if esc =? 0x72 then Some 0x0D
   else if esc =? 0x74 then Some 0x09
   else None)%N.

Definition is_high_surrogate (c : N) : bool := ((0xD800 <=? c) && (c <=? 0xDBFF))%N.
Definition is_low_surrogate (c : N) : bool := ((0xDC00 <=? c) && (c <=? 0xDFFF))%N.
Definition join_surrogates (hi lo : N) : N :=
  (0x10000 + ((hi - 0xD800) * 1024 + (lo - 0xDC00)))%N.

Definition push_char {A} (c : N) (r : result (str * A)) : result (str * A) :=
  rmap (fun p => (c :: fst p, snd p)) r.

(** [scanstring] starts after the opening quote and returns the decoded
    string with the text that follows the closing quote. *)
Definition scanstring_step (rest : str -> result (str * str)) (s : str)
  : result (str * str) :=
  match s with
  | [] => Raise JSONDecodeError
  | c :: t =>
      if (c =? 0x22)%N then Ok ([], t)
      else if (c =? 0x5C)%N then
        match t with
        | [] => Raise JSONDecodeError
        | esc :: t1 =>
            if (esc =? 0x75)%N then
              match t1 with
              | h1 :: h2 :: h3 :: h4 :: t2 =>
                  match decode_uXXXX h1 h2 h3 h4 with
                  | None => Raise JSONDecodeError
                  | Some uni =>
                      match t2 with
                      | b :: u :: g1 :: g2 :: g3 :: g4 :: t3 =>
                          if is_high_surrogate uni && (b =? 0x5C)%N && (u =? 0x75)%N then
                            match decode_uXXXX g1 g2 g3 g4 with
                            | None => Raise JSONDecodeError
                            | Some uni2 =>
                                if is_low_surrogate uni2
                                then push_char (join_surrogates uni uni2) (rest t3)
                                else push_char uni (rest t2)
                            end
                          else push_char uni (rest t2)
                      | _ => push_char uni (rest t2)
                      end
                  end
              | _ => Raise JSONDecodeError
              end
            else
              match backslash_escape esc with
              | Some ch => push_char ch (rest t1)
              | None => Raise JSONDecodeError
              end
        end
      else if (c <? 0x20)%N then Raise JSONDecodeError
      else push_char c (rest t)
  end.

Fixpoint scanstring (s : str) {struct s} : result (str * str) :=
  scanstring_step scanstring s.

Definition is_digit (c : N) : bool := ((0x30 <=? c) && (c <=? 0x39))%N.

Fixpoint span_digits (s : str) : str * str :=
  match s with
  | c :: t => if is_digit c then let (ds, r) := span_digits t in (c :: ds, r) else ([], s)
  | [] => ([], [])
  end.

Definition digits_value (ds : str) : Z :=
  fold_left (fun a d => (a * 10 + (Z.of_N d - 0x30))%Z) ds 0%Z.

(** What follows the integer part makes the number a float. *)
Definition float_follows (r : str) : bool :=
  match r with
  | [] => false
  | c :: r1 =>
      if (c =? 0x2E)%N then match r1 with d :: _ => is_digit d | [] => false end
      else if ((c =? 0x65) || (c =? 0x45))%N then
        match r1 with
        | [] => false
        | d :: r2 =>
            if is_digit d then true
            else if ((d =? 0x2B) || (d =? 0x2D))%N then
              match r2 with d2 :: _ => is_digit d2 | [] => false end
            else false
        end
      else false
  end.

(** The integer at the head of [s], if there is one: an optional minus
    sign, then a single zero or a non-zero digit followed by digits. *)
Definition match_integer (s : str) : option (Z * str) :=
  let (neg, s1) :=
    match s with
    | c :: t => if (c =? 0x2D)%N then (true, t) else (false, s)
    | [] => (false, s)
    end in
  match s1 with
  | [] => None
  | c :: t =>
      if (c =? 0x30)%N then Some (0%Z, t)
      else if is_digit c then
        let (ds, r) := span_digits t in
        let n := digits_value (c :: ds) in
        Some (if neg then (- n)%Z else n, r)
      else None
  end.

Fixpoint strip_prefix (p s : str) : option str :=
  match p, s with
  | [], _ => Some s
  | a :: p', b :: s' => if (a =? b)%N then strip_prefix p' s' else None
  | _ :: _, [] => None
  end.

Fixpoint scan_once (fuel : nat) (s : str) {struct fuel} : result (value * str) :=
  match fuel with
  | O => Raise JSONDecodeError
  | S fuel' =>
      match s with
      | [] => Raise JSONDecodeError
      | c :: t =>
          if (c =? 0x22)%N then
            rmap (fun p => (VStr (fst p), snd p)) (scanstring t)
          else if (c =? 0x7B)%N then
            match skip_ws t with
            | c1 :: t1 =>
                if (c1 =? 0x7D)%N then Ok (VDict [], t1)
                else rmap (fun p => (VDict (dict_of_pairs (fst p)), snd p))
                          (scan_members fuel' (c1 :: t1) [])
            | [] => Raise JSONDecodeError
            end
          else if (c =? 0x5B)%N then
            match skip_ws t with
            | c1 :: t1 =>
                if (c1 =? 0x5D)%N then Ok (VList [], t1)
                else rmap (fun p => (VList (fst p), snd p))
                          (scan_elements fuel' (c1 :: t1) [])
            | [] => Raise JSONDecodeError
            end
          else
            match strip_prefix (lit "null") s, strip_prefix (lit "true") s,
                  strip_prefix (lit "false") s with
            | Some r, _, _ => Ok (VNone, r)
            | _, Some r, _ => Ok (VBool true, r)
            | _, _, Some r => Ok (VBool false, r)
            | None, None, None =>
                match match_integer s with
                | Some (z, r) =>
                    if float_follows r then Raise JSONDecodeError else Ok (VInt z, r)
                | None => Raise JSONDecodeError
                end
            end
      end
  end

with scan_members (fuel : nat) (s : str) (acc : list (str * value)) {struct fuel}
  : result (list (str * value) * str) :=
  match fuel with
  | O => Raise JSONDecodeError
  | S fuel' =>
      match s with
      | [] => Raise JSONDecodeError
      | q :: t =>
          if (q =? 0x22)%N then
            match scanstring t with
            | Raise e => Raise e
            | Ok (key, r) =>
                match skip_ws r with
                | colon :: r1 =>
                    if (colon =? 0x3A)%N then
                      match scan_once fuel' (skip_ws r1) with
                      | Raise e => Raise e
                      | Ok (v, r2) =>
                          match skip_ws r2 with
                          | c :: r3 =>
                              if (c =? 0x7D)%N then Ok (rev ((key, v) :: acc), r3)
                              else if (c =? 0x2C)%N
                              then scan_members fuel' (skip_ws r3) ((key, v) :: acc)
                              else Raise JSONDecodeError
                          | [] => Raise JSONDecodeError
                          end
                      end
                    else Raise JSONDecodeError
                | [] => Raise JSONDecodeError
                end
            end
          else Raise JSONDecodeError
      end
  end

with scan_elements (fuel : nat) (s : str) (acc : list value) {struct fuel}
  : result (list value * str) :=
  match fuel with
  | O => Raise JSONDecodeError
  | S fuel' =>
      match scan_once fuel' s with
      | Raise e => Raise e
      | Ok (v, r) =>
          match skip_ws r with
          | c :: r1 =>
              if (c =? 0x5D)%N then Ok (rev (v :: acc), r1)
              else if (c =? 0x2C)%N then scan_elements fuel' (skip_ws r1) (v :: acc)
              else Raise JSONDecodeError
          | [] => Raise JSONDecodeError
          end
      end
  end.

Definition json_loads (s : str) : result value :=
  match scan_once (S (length s)) (skip_ws s) with
  | Raise e => Raise e
  | Ok (v, r) =>
      match skip_ws r with
      | [] => Ok v
      | _ :: _ => Raise JSONDecodeError
      end
  end.

(** [str(value)].  The text of a list or of a dictionary is Python's
    [repr], which the model takes from outside. *)
Definition py_str (repr : value -> str) (v : value) : str :=
  match v with
  | VNone => lit "None"
  | VBool true => lit "True"
  | VBool false => lit "False"
  | VInt z => str_of_Z z
  | VStr s => s
  | VList _ | VDict _ => repr v
  end.

(** [obj.get(key, default)]: only a dictionary has the method. *)
Definition py_get (obj : value) (key : str) (default : value) : result value :=
  match obj with
  | VDict d => Ok (match dict_get key d with Some v => v | None => default end)
  | _ => Raise AttributeError
  end.

(** [obj[key]] for a string key. *)
Definition py_getitem (obj : value) (key : str) : result value :=
  match obj with
  | VDict d => match dict_get key d with Some v => Ok v | None => Raise KeyError end
  | _ => Raise TypeError
  end.

(** ** What the model takes from outside

    The primitives of the [cryptography] package, as functions of their
    inputs, and [repr] of a container.  [aes_gcm_encrypt key iv data]
    returns the ciphertext and the tag; [aes_gcm_decrypt key iv tag data]
    returns [None] when the tag does not verify. *)

Class Externals : Type := {
  pbkdf2_hmac_sha256 : forall (salt : bytes) (iterations : N) (length : nat)
                              (key_material : bytes), bytes;
  hmac_sha256 : forall (key data : bytes), bytes;
  aes_gcm_encrypt : forall (key iv data : bytes), bytes * bytes;
  aes_gcm_decrypt : forall (key iv tag data : bytes), option bytes;
  py_repr : value -> str
}.

(** The facts about them that the proofs use. *)
Class ExternalsLaws (X : Externals) : Prop := {
  pbkdf2_length : forall salt iterations len km,
    length (pbkdf2_hmac_sha256 salt iterations len km) = len;
  hmac_length : forall key data, length (hmac_sha256 key data) = 32;
  gcm_tag_length : forall key iv data, length (snd (aes_gcm_encrypt key iv data)) = 16;
  gcm_decrypt_encrypt : forall key iv data,
    aes_gcm_decrypt key iv (snd (aes_gcm_encrypt key iv data))
                    (fst (aes_gcm_encrypt key iv data)) = Some data;
  gcm_decrypt_length : forall key iv tag data plain,
    aes_gcm_decrypt key iv tag data = Some plain -> length plain = length data
}.

(** ** The world: random source, clock, and the primitives called *)

Inductive event : Type :=
| EvUrandom (n : nat)
| EvUtcnow
| EvPbkdf2 (salt : bytes)
| EvHmac (data : bytes)
| EvAesGcmEncrypt (iv : bytes)
| EvAesGcmDecrypt (iv tag : bytes).

Record world : Type := mkWorld {
  entropy : nat -> byte;     (* the bytes the random source delivers, in order *)
  drawn : nat;               (* how many of them were delivered *)
  clock : nat -> datetime;   (* the successive readings of the UTC clock *)
  ticks : nat;               (* how many readings were made *)
  trace : list event         (* the calls made so far, oldest first *)
}.

Definition M (A : Type) : Type := world -> result A * world.

Definition ret {A} (a : A) : M A := fun w => (Ok a, w).

Definition raise {A} (e : exn) : M A := fun w => (Raise e, w).

Definition bind {A B} (m : M A) (k : A -> M B) : M B :=
  fun w => match m w with
           | (Ok a, w') => k a w'
           | (Raise e, w') => (Raise e, w')
           end.

Definition lift {A} (r : result A) : M A := fun w => (r, w).

(** [try: body except Exception as e: handler e] *)
Definition try_except {A} (body : M A) (handler : exn -> M A) : M A :=
  fun w => match body w with
           | (Ok a, w') => (Ok a, w')
           | (Raise e, w') => handler e w'
           end.

Declare Scope monad_scope.
Delimit Scope monad_scope with monad.
Notation "x <- m ;; k" := (bind m (fun x => k))
  (at level 61, m at next level, right associativity) : monad_scope.
Notation "m ;;; k" := (bind m (fun _ => k))
  (at level 61, right associativity) : monad_scope.
Open Scope monad_scope.

Definition log (e : event) : M unit :=
  fun w => (Ok tt, mkWorld (entropy w) (drawn w) (clock w) (ticks w) (trace w ++ [e])).

(** [os.urandom(n)] *)
Definition os_urandom (n : nat) : M bytes :=
  fun w => (Ok (map (entropy w) (seq (drawn w) n)),
            mkWorld (entropy w) (drawn w + n) (clock w) (ticks w)
                    (trace w ++ [EvUrandom n])).

(** [datetime.utcnow()] *)
Definition utcnow : M datetime :=
  fun w => (Ok (clock w (ticks w)),
            mkWorld (entropy w) (drawn w) (clock w) (S (ticks w))
                    (trace w ++ [EvUtcnow])).

(** [PBKDF2HMAC(SHA256(), length, salt, iterations).derive(key_material)] *)
Definition PBKDF2HMAC_derive `{Externals} (len : nat) (salt : bytes) (iterations : N)
  (key_material : bytes) : M bytes :=
  log (EvPbkdf2 salt) ;;;
  ret (pbkdf2_hmac_sha256 salt iterations len key_material).

(** [h = HMAC(key, SHA256()); h.update(data); h.finalize()] *)
Definition HMAC_finalize `{Externals} (key data : bytes) : M bytes :=
  log (EvHmac data) ;;;
  ret (hmac_sha256 key data).

(** [h = HMAC(key, SHA256()); h.update(data); h.verify(signature)] *)
Definition HMAC_verify `{Externals} (key data signature : bytes) : M unit :=
  log (EvHmac data) ;;;
  if bytes_eqb (hmac_sha256 key data) signature then ret tt else raise InvalidSignature.

(** [Cipher(algorithms.AES(key), modes.GCM(iv, tag))]: the constructors
    check the key size, the IV length and the length of a given tag. *)
Record cipher : Type := mkCipher {
  cipher_key : bytes; cipher_iv : bytes; cipher_tag : option bytes
}.

Definition valid_aes_key (key : bytes) : bool :=
  let n := length key in Nat.eqb n 16 || Nat.eqb n 24 || Nat.eqb n 32.

Definition valid_gcm_iv (iv : bytes) : bool :=
  Nat.leb 8 (length iv) && Nat.leb (length iv) 128.

Definition Cipher_AES_GCM (key iv : bytes) (tag : option bytes) : result cipher :=
  if negb (valid_aes_key key) then Raise ValueError
  else if negb (valid_gcm_iv iv) then Raise ValueError
  else match tag with
       | Some t => if Nat.ltb (length t) 16 then Raise ValueError
                   else Ok (mkCipher key iv tag)
       | None => Ok (mkCipher key iv tag)
       end.

(** [e = cipher.encryptor(); e.update(data) + e.finalize()], with [e.tag] *)
Definition encryptor_run `{Externals} (c : cipher) (data : bytes) : M (bytes * bytes) :=
  log (EvAesGcmEncrypt (cipher_iv c)) ;;;
  ret (aes_gcm_encrypt (cipher_key c) (cipher_iv c) data).

(** [d = cipher.decryptor(); d.update(data) + d.finalize()] *)
Definition decryptor_run `{Externals} (c : cipher) (data : bytes) : M bytes :=
  match cipher_tag c with
  | None => raise ValueError
  | Some tag =>
      log (EvAesGcmDecrypt (cipher_iv c) tag) ;;;
      match aes_gcm_decrypt (cipher_key c) (cipher_iv c) tag data with
      | Some plain => ret plain
      | None => raise InvalidTag
      end
  end.

(** ** [DataCategory] *)

Inductive DataCategory : Type :=
| PASSPORT | FIO | ADDRESS | PHONE | VZH | PATENT | DOCUMENT_PHOTO | OTHER.

(** [category.value] *)
Definition category_value (c : DataCategory) : str :=
  match c with
  | PASSPORT => lit "passport"
  | FIO => lit "fio"
  | ADDRESS => lit "address"
  | PHONE => lit "phone"
  | VZH => lit "vzh"
  | PATENT => lit "patent"
  | DOCUMENT_PHOTO => lit "document_photo"
  | OTHER => lit "other"
  end.

Definition all_categories : list DataCategory :=
  [PASSPORT; FIO; ADDRESS; PHONE; VZH; PATENT; DOCUMENT_PHOTO; OTHER].

(** [DataCategory(x)]: the member whose value is [x], [ValueError] when
    there is none. *)
Definition DataCategory_of_value (x : value) : result DataCategory :=
  match x with
  | VStr s =>
      match find (fun c => str_eqb (category_value c) s) all_categories with
      | Some c => Ok c
      | None => Raise ValueError
      end
  | _ => Raise ValueError
  end.

(** ** [PersonalDataEncryptor] *)

Definition ENCRYPTED_FIELDS : list str :=
  [lit "fio"; lit "passport_series"; lit "passport_number"; lit "passport_issue_date";
   lit "passport_issued_by"; lit "address"; lit "phone"; lit "vzh_number";
   lit "patent_number"; lit "document_scan_path"; lit "email"; lit "snils"; lit "inn"].

(** [field in self.ENCRYPTED_FIELDS] *)
Definition is_encrypted_field (field : str) : bool :=
  existsb (str_eqb field) ENCRYPTED_FIELDS.

Definition field_category_map : dict DataCategory :=
  [(lit "fio", FIO); (lit "passport_series", PASSPORT); (lit "passport_number", PASSPORT);
   (lit "passport_issue_date", PASSPORT); (lit "passport_issued_by", PASSPORT);
   (lit "address", ADDRESS); (lit "phone", PHONE); (lit "vzh_number", VZH);
   (lit "patent_number", PATENT); (lit "document_scan_path", DOCUMENT_PHOTO);
   (lit "email", OTHER); (lit "snils", OTHER); (lit "inn", OTHER)].

Definition _map_field_to_category (field : str) : DataCategory :=
  match dict_get field field_category_map with
  | Some c => c
  | None => OTHER
  end.

Record PersonalDataEncryptor : Type := mkEncryptor {
  master_key : bytes;
  key_rotation_days : Z;
  encryption_key : bytes;
  auth_key : bytes
}.

Definition DECRYPTION_ERROR : str := lit "[DECRYPTION_ERROR]".

Section Encryptor.

Context {X : Externals}.

(** [_derive_keys]: the encryption key, then the authentication key. *)
Definition _derive_keys (master : bytes) : M (bytes * bytes) :=
  enc <- PBKDF2HMAC_derive 32 (blit "encryption_salt") 100000 master ;;
  auth <- PBKDF2HMAC_derive 32 (blit "authentication_salt") 100000 master ;;
  ret (enc, auth).

(** [__init__]: [len(master_key)] is the length of the [str]. *)
Definition __init__ (master_key_text : str) (rotation_days : Z) : M PersonalDataEncryptor :=
  if negb (Nat.eqb (length master_key_text) 32) then raise ValueError
  else
    master <- lift (utf8_encode master_key_text) ;;
    ks <- _derive_keys master ;;
    ret (mkEncryptor master rotation_days (fst ks) (snd ks)).

(** [create_encryptor] *)
Definition create_encryptor (master_key_text : str) (rotation_days : Z)
  : M PersonalDataEncryptor := __init__ master_key_text rotation_days.

Definition _get_current_key_version (self : PersonalDataEncryptor) : M str :=
  now <- utcnow ;;
  let days_since_epoch := days_since now datetime_2020_01_01 in
  if (key_rotation_days self =? 0)%Z then raise ZeroDivisionError
  else
    let rotation_period := (days_since_epoch / key_rotation_days self)%Z in
    ret (lit "v" ++ str_of_Z rotation_period).

Definition _create_metadata (self : PersonalDataEncryptor) (data_category : DataCategory)
  : M value :=
  now <- utcnow ;;
  key_version <- _get_current_key_version self ;;
  ret (VDict [(lit "category", VStr (category_value data_category));
              (lit "encrypted_at", VStr (isoformat now));
              (lit "key_version", VStr key_version);
              (lit "compliance", VStr (lit "152-FZ"))]).

Definition encrypt_field (self : PersonalDataEncryptor) (plain_text : str)
  (data_category : DataCategory) : M str :=
  match plain_text with
  | [] => ret []
  | _ :: _ =>
      try_except
        (iv <- os_urandom 12 ;;
         cipher <- lift (Cipher_AES_GCM (encryption_key self) iv None) ;;
         metadata <- _create_metadata self data_category ;;
         let data_package :=
           VDict [(lit "metadata", metadata); (lit "data", VStr plain_text)] in
         let json_data := json_dumps data_package in
         plain <- lift (utf8_encode json_data) ;;
         ct <- encryptor_run cipher plain ;;
         let encrypted_data := fst ct in
         let auth_tag := snd ct in
         hmac_digest <- HMAC_finalize (auth_key self) (iv ++ encrypted_data ++ auth_tag) ;;
         let combined := iv ++ encrypted_data ++ auth_tag ++ hmac_digest in
         lift (utf8_decode (urlsafe_b64encode combined)))
        (fun _ => raise EncryptionError)
  end.

Definition decrypt_field (self : PersonalDataEncryptor) (encrypted_text : str)
  : M (value * DataCategory) :=
  match encrypted_text with
  | [] => ret (VStr [], OTHER)
  | _ :: _ =>
      try_except
        (raw <- lift (utf8_encode encrypted_text) ;;
         combined <- lift (urlsafe_b64decode raw) ;;
         let iv := slice None (Some 12%Z) combined in
         let auth_tag := slice (Some (-48)%Z) (Some (-32)%Z) combined in
         let hmac_digest := slice (Some (-32)%Z) None combined in
         let encrypted_data := slice (Some 12%Z) (Some (-48)%Z) combined in
         HMAC_verify (auth_key self) (iv ++ encrypted_data ++ auth_tag) hmac_digest ;;;
         cipher <- lift (Cipher_AES_GCM (encryption_key self) iv (Some auth_tag)) ;;
         decrypted_json <- decryptor_run cipher encrypted_data ;;
         text <- lift (utf8_decode decrypted_json) ;;
         data_package <- lift (json_loads text) ;;
         metadata <- lift (py_get data_package (lit "metadata") (VDict [])) ;;
         category <- lift (py_get metadata (lit "category") (VStr (lit "other"))) ;;
         data_category <- lift (DataCategory_of_value category) ;;
         data <- lift (py_getitem data_package (lit "data")) ;;
         ret (data, data_category))
        (fun e =>
           match e with
           | InvalidSignature => raise SecurityError
           | InvalidTag => raise SecurityError
           | _ => raise DecryptionError
           end)
  end.

(** The loop of [auto_encrypt_user_data] over [user_data.items()]; an
    [EncryptionError] of [encrypt_field] is raised again as it is. *)
Fixpoint auto_encrypt_loop (self : PersonalDataEncryptor) (items : list (str * value))
  (encrypted_data : dict value) : M (dict value) :=
  match items with
  | [] => ret encrypted_data
  | (field, v) :: rest =>
      if is_encrypted_field field && truthy v then
        let category := _map_field_to_category field in
        e <- encrypt_field self (py_str py_repr v) category ;;
        auto_encrypt_loop self rest (dict_setitem field (VStr e) encrypted_data)
      else
        auto_encrypt_loop self rest (dict_setitem field v encrypted_data)
  end.

Definition auto_encrypt_user_data (self : PersonalDataEncryptor) (user_data : dict value)
  : M (dict value) :=
  encrypted_data <- auto_encrypt_loop self user_data [] ;;
  let encrypted_data := dict_setitem (lit "_encrypted") (VBool true) encrypted_data in
  version <- _get_current_key_version self ;;
  let encrypted_data := dict_setitem (lit "_encryption_version") (VStr version) encrypted_data in
  now <- utcnow ;;
  let encrypted_data := dict_setitem (lit "_encrypted_at") (VStr (isoformat now)) encrypted_data in
  ret encrypted_data.

(** The loop of [auto_decrypt_user_data]; [isinstance(value, str)] holds
    of [VStr] only. *)
Fixpoint auto_decrypt_loop (self : PersonalDataEncryptor) (items : list (str * value))
  (decrypted_data : dict value) : M (dict value) :=
  match items with
  | [] => ret decrypted_data
  | (field, v) :: rest =>
      match v with
      | VStr s =>
          if is_encrypted_field field && truthy v then
            x <- try_except
                   (r <- decrypt_field self s ;; ret (fst r))
                   (fun e =>
                      match e with
                      | DecryptionError | SecurityError => ret (VStr DECRYPTION_ERROR)
                      | _ => raise e
                      end) ;;
            auto_decrypt_loop self rest (dict_setitem field x decrypted_data)
          else auto_decrypt_loop self rest (dict_setitem field v decrypted_data)
      | _ => auto_decrypt_loop self rest (dict_setitem field v decrypted_data)
      end
  end.

Definition auto_decrypt_user_data (self : PersonalDataEncryptor) (encrypted_data : dict value)
  : M (dict value) :=
  auto_decrypt_loop self encrypted_data [].

End Encryptor.

(** ** Definitions the statements and proofs use *)

(** The character of a sextet, as the decoder sees it after both
    translations. *)
Definition sextet_char (n : N) : byte :=
  urlsafe_decode_translation (urlsafe_encode_translation (b2a_char n)).

Definition sextet_checked (n : N) : bool :=
  negb (Byte.eqb (sextet_char n) BASE64_PAD)
  && match table_a2b_base64 (sextet_char n) with
     | Some m => N.eqb m n
     | None => false
     end.

Definition ascii_byte (b : byte) : Prop := (byte_val b < 128)%N.

Definition hex_escape_checked (c : N) : bool :=
  match decode_uXXXX 0x30 0x30 (hex_digit (c / 16)) (hex_digit (c mod 16)) with
  | Some u => (u =? c)%N
  | None => false
  end.

(** [parses n x]: the text of [x] starts with no white space and, with
    fuel [n] or more, is read back as [x] whatever follows it. *)
Definition parses (n : nat) (x : value) : Prop :=
  (forall rest, skip_ws (json_dumps x ++ rest) = json_dumps x ++ rest)
  /\ (forall fuel rest, n <= fuel ->
        scan_once fuel (json_dumps x ++ rest) = Ok (x, rest)).

(** The members of a dictionary as [json.dumps] writes them. *)
Definition member_text (kv : str * value) : str :=
  let (k, x) := kv in json_quote k ++ lit ": " ++ json_dumps x.

(** The document [encrypt_field] serialises. *)
Definition metadata_of (category encrypted_at key_version : str) : value :=
  VDict [(lit "category", VStr category);
         (lit "encrypted_at", VStr encrypted_at);
         (lit "key_version", VStr key_version);
         (lit "compliance", VStr (lit "152-FZ"))].

Definition package_of (metadata : value) (data : str) : value :=
  VDict [(lit "metadata", metadata); (lit "data", VStr data)].

(** A small instance of the externals, on which the model can be run: a
    polynomial checksum stands for the keyed hashes and for the tag, and
    the cipher complements every byte. *)
Definition sample_hash (l : bytes) : N :=
  fold_left (fun a b => ((a * 31 + byte_val b + 1) mod 2305843009213693951)%N) l 7%N.

Definition sample_digest (n : nat) (key data : bytes) : bytes :=
  let h := sample_hash (key ++ x00 :: data) in
  map (fun j => byte_of_N ((h + N.of_nat j * 40503) / (N.of_nat j + 1))%N) (seq 0 n).

Definition sample_flip (b : byte) : byte := byte_of_N (255 - byte_val b).

Definition sample_externals : Externals := {|
  pbkdf2_hmac_sha256 := fun salt _ len km => sample_digest len salt km;
  hmac_sha256 := fun key data => sample_digest 32 key data;
  aes_gcm_encrypt := fun key iv data =>
    (map sample_flip data, sample_digest 16 (key ++ iv) data);
  aes_gcm_decrypt := fun key iv tag ct =>
    let data := map sample_flip ct in
    if bytes_eqb tag (sample_digest 16 (key ++ iv) data) then Some data else None;
  py_repr := fun _ => lit "<container>"
|}.

(** A world to run it in: some entropy, and a clock that advances by a
    second at every reading. *)
Definition sample_world : world :=
  mkWorld (fun i => byte_of_N (N.of_nat i * 37 + 11)) 0
          (fun i => mkDatetime 2026 11 3 9 5 (Z.of_nat i) 0) 0 [].

Definition sample_master_key : str := lit "0123456789abcdef0123456789abcdef".

(** The world after one more call. *)
Definition add_event (e : event) (w : world) : world :=
  mkWorld (entropy w) (drawn w) (clock w) (ticks w) (trace w ++ [e]).

(** The [except] clauses of [decrypt_field]. *)
Definition decrypt_error (e : exn) : exn :=
  match e with
  | InvalidSignature => SecurityError
  | InvalidTag => SecurityError
  | _ => DecryptionError
  end.

(** What [decrypt_field] does with the decrypted bytes. *)
Definition open_package (decrypted_json : bytes) : result (value * DataCategory) :=
  rbind (utf8_decode decrypted_json) (fun text =>
  rbind (json_loads text) (fun data_package =>
  rbind (py_get data_package (lit "metadata") (VDict [])) (fun metadata =>
  rbind (py_get metadata (lit "category") (VStr (lit "other"))) (fun category =>
  rbind (DataCategory_of_value category) (fun data_category =>
  rbind (py_getitem data_package (lit "data")) (fun data =>
  Ok (data, data_category))))))).

(** The four parts [decrypt_field] cuts the decoded bytes into. *)
Definition iv_of (combined : bytes) : bytes := slice None (Some 12%Z) combined.
Definition tag_of (combined : bytes) : bytes := slice (Some (-48)%Z) (Some (-32)%Z) combined.
Definition digest_of (combined : bytes) : bytes := slice (Some (-32)%Z) None combined.
Definition ciphertext_of (combined : bytes) : bytes :=
  slice (Some 12%Z) (Some (-48)%Z) combined.
Definition authenticated_of (combined : bytes) : bytes :=
  iv_of combined ++ ciphertext_of combined ++ tag_of combined.

(** The encryptor [__init__] builds from [sample_master_key] with the small
    instance. *)
Definition sample_encryptor : PersonalDataEncryptor :=
  mkEncryptor (blit "0123456789abcdef0123456789abcdef") 90
    (sample_digest 32 (blit "encryption_salt") (blit "0123456789abcdef0123456789abcdef"))
    (sample_digest 32 (blit "authentication_salt") (blit "0123456789abcdef0123456789abcdef")).

(** The world after [os.urandom(n)] and after [datetime.utcnow()]. *)
Definition after_urandom (n : nat) (w : world) : world :=
  mkWorld (entropy w) (drawn w + n) (clock w) (ticks w) (trace w ++ [EvUrandom n]).

Definition after_utcnow (w : world) : world :=
  mkWorld (entropy w) (drawn w) (clock w) (S (ticks w)) (trace w ++ [EvUtcnow]).

(** The key version [_get_current_key_version] computes from a clock
    reading. *)
Definition key_version_at (self : PersonalDataEncryptor) (now : datetime) : str :=
  lit "v" ++ str_of_Z (days_since now datetime_2020_01_01 / key_rotation_days self)%Z.

(** The document [encrypt_field] serialises for a plain text, from the two
    clock readings it makes. *)
Definition package_at (self : PersonalDataEncryptor) (plain_text : str)
  (data_category : DataCategory) (now1 now2 : datetime) : value :=
  package_of (metadata_of (category_value data_category) (isoformat now1)
                          (key_version_at self now2))
             plain_text.

(** The bytes of an envelope: IV, ciphertext, tag, HMAC. *)
Definition envelope_bytes `{Externals} (self : PersonalDataEncryptor) (iv plain : bytes)
  : bytes :=
  let ct := aes_gcm_encrypt (encryption_key self) iv plain in
  iv ++ fst ct ++ snd ct
     ++ hmac_sha256 (auth_key self) (iv ++ fst ct ++ snd ct).

(** [set_byte i b l]: [l] with the byte at index [i] replaced by [b]. *)
Definition set_byte (i : nat) (b : byte) (l : bytes) : bytes :=
  firstn i l ++ b :: skipn (S i) l.

(** An envelope made with the small instance, its decoded bytes, and the
    text of these bytes with the byte at index 20 replaced. *)
Definition sample_envelope : str :=
  match fst (encrypt_field (X := sample_externals) sample_encryptor (lit "Ivanov") FIO
               sample_world) with
  | Ok env => env
  | Raise _ => []
  end.

Definition sample_combined : bytes :=
  match rbind (utf8_encode sample_envelope) urlsafe_b64decode with
  | Ok combined => combined
  | Raise _ => []
  end.

Definition sample_tampered : str :=
  match utf8_decode (urlsafe_b64encode (set_byte 20 xff sample_combined)) with
  | Ok text => text
  | Raise _ => []
  end.

(** What [auto_decrypt_user_data] stores for a field: the decrypted data
    of a sensitive non-empty string, the sentinel when [decrypt_field]
    raises, the value itself in every other case.  The result of
    [decrypt_field] does not depend on the world it runs in. *)
Definition decrypted_view `{Externals} (self : PersonalDataEncryptor) (w : world)
  (field : str) (v : value) : value :=
  match v with
  | VStr s =>
      if is_encrypted_field field && truthy v then
        match fst (decrypt_field self s w) with
        | Ok r => fst r
        | Raise _ => VStr DECRYPTION_ERROR
        end
      else v
  | _ => v
  end.

(** Storing a view of every item, in order. *)
Definition store_views (view : str -> value -> value) (items : list (str * value))
  (acc : dict value) : dict value :=
  fold_left (fun d kv => dict_setitem (fst kv) (view (fst kv) (snd kv)) d) items acc.

(** An encrypted record with a corrupted [fio], a sound [inn] and a field
    that is not sensitive. *)
Definition sample_corrupted_record : dict value :=
  [(lit "fio", VStr (lit "QUJD")); (lit "inn", VStr sample_envelope); (lit "age", VInt 42)].

(** A plain record for the small instance, and an encryptor whose rotation
    period is zero. *)
Definition sample_record : dict value :=
  [(lit "fio", VStr (lit "Ivanov")); (lit "age", VInt 42); (lit "phone", VStr [])].

Definition sample_encryptor_zero : PersonalDataEncryptor :=
  mkEncryptor (master_key sample_encryptor) 0 (encryption_key sample_encryptor)
              (auth_key sample_encryptor).

(** ** Further definitions: the rest of [core/encryption.py] and its callers *)

From Stdlib Require Import DecimalZ DecimalPos Permutation.

(** The three keys [auto_encrypt_user_data] adds to a record. *)
Definition STAMP_KEYS : list str :=
  [lit "_encrypted"; lit "_encryption_version"; lit "_encrypted_at"].

(** A record whose sensitive [inn] is a number. *)
Definition sample_record_mixed : dict value :=
  [(lit "fio", VStr (lit "Ivanov")); (lit "inn", VInt 7707083893);
   (lit "age", VInt 42); (lit "phone", VStr [])].

(** Two worlds with the same random source and clock, read equally far. *)
Definition same_sources (w w' : world) : Prop :=
  entropy w' = entropy w /\ drawn w' = drawn w
  /\ clock w' = clock w /\ ticks w' = ticks w.

(** The characters of URL-safe base64 text: letters, digits, [-], [_]
    and the padding [=]. *)
Definition is_urlsafe_char (c : N) : bool :=
  ((0x41 <=? c) && (c <=? 0x5A) || (0x61 <=? c) && (c <=? 0x7A)
   || (0x30 <=? c) && (c <=? 0x39) || (c =? 0x2D) || (c =? 0x5F) || (c =? 0x3D))%N.

(** ** [json.dumps(obj)] with the default [ensure_ascii=True]

    Inside a string every character outside the printable ASCII range is
    written as [\uXXXX], a character above U+FFFF as the two escapes of
    its surrogate pair. *)

Definition hex4 (n : N) : str :=
  [hex_digit (n / 4096 mod 16); hex_digit (n / 256 mod 16);
   hex_digit (n / 16 mod 16); hex_digit (n mod 16)]%N.

Definition json_escape_char_ascii (c : N) : str :=
  (if c =? 0x5C then [0x5C; 0x5C]
   else if c =? 0x22 then [0x5C; 0x22]
   else if c =? 0x08 then [0x5C; 0x62]
   else if c =? 0x0C then [0x5C; 0x66]
   else if c =? 0x0A then [0x5C; 0x6E]
   else if c =? 0x0D then [0x5C; 0x72]
   else if c =? 0x09 then [0x5C; 0x74]
   else if (0x20 <=? c) && (c <=? 0x7E) then [c]
   else if c <? 0x10000 then 0x5C :: 0x75 :: hex4 c
   else
     let v := c - 0x10000 in
     let s1 := N.lor 0xD800 (N.land (N.shiftr v 10) 0x3FF) in
     let s2 := N.lor 0xDC00 (N.land v 0x3FF) in
     (0x5C :: 0x75 :: hex4 s1) ++ (0x5C :: 0x75 :: hex4 s2))%N.

Definition json_quote_ascii (s : str) : str :=
  (0x22 :: flat_map json_escape_char_ascii s ++ [0x22])%N.

Fixpoint json_dumps_ascii (v : value) : str :=
  match v with
  | VNone => lit "null"
  | VBool true => lit "true"
  | VBool false => lit "false"
  | VInt z => str_of_Z z
  | VStr s => json_quote_ascii s
  | VList l => lit "[" ++ join (lit ", ") (map json_dumps_ascii l) ++ lit "]"
  | VDict d =>
      lit "{"
      ++ join (lit ", ")
           (map (fun kv : str * value =>
                   let (k, x) := kv in json_quote_ascii k ++ lit ": " ++ json_dumps_ascii x) d)
      ++ lit "}"
  end.

(** ** [int.to_bytes(length, 'big')] of a non-negative integer: [None]
    stands for the [OverflowError] of a number that does not fit. *)

Fixpoint be_digits (len : nat) (n : N) : bytes :=
  match len with
  | 0 => []
  | S k => be_digits k (n / 256)%N ++ [byte_of_N (n mod 256)%N]
  end.

Definition to_bytes_big (len : nat) (n : N) : option bytes :=
  if (n <? 256 ^ N.of_nat len)%N then Some (be_digits len n) else None.

(** ** [config.py]

    The module reads two variables of the process environment (after
    [load_dotenv()]) and raises [ValueError] when one of them is missing or
    empty.  [environ] is the environment at the time the module is first
    imported. *)

Definition str_truthy (s : option str) : bool :=
  match s with
  | Some (_ :: _) => true
  | _ => false
  end.

Record config_module : Type := mkConfig {
  BOT_TOKEN : option str;
  DB_LITE : option str
}.

Definition config (environ : dict str) : result config_module :=
  let BOT_TOKEN := dict_get (lit "BOT_TOKEN") environ in
  let DB_LITE := dict_get (lit "DB_LITE") environ in
  if negb (str_truthy BOT_TOKEN) then Raise ValueError
  else if negb (str_truthy DB_LITE) then Raise ValueError
  else Ok (mkConfig BOT_TOKEN DB_LITE).

(** [s.ljust(width, fillchar)] *)
Definition ljust (width : nat) (fillchar : N) (s : str) : str :=
  s ++ repeat fillchar (width - length s).

(** ** AES-GCM with additional authenticated data, for [encrypt_file]:
    [aes_gcm_encrypt_aad key iv aad data] is the ciphertext and the tag. *)

Class AeadExternals : Type := {
  aes_gcm_encrypt_aad : forall (key iv aad data : bytes), bytes * bytes
}.


Section Encryptor2.

Context {X : Externals} {A : AeadExternals}.

(** [get_encryption_info] *)
Definition get_encryption_info (self : PersonalDataEncryptor) : M value :=
  version <- _get_current_key_version self ;;
  ret (VDict [(lit "algorithm", VStr (lit "AES-256-GCM"));
              (lit "key_rotation_days", VInt (key_rotation_days self));
              (lit "current_key_version", VStr version);
              (lit "encrypted_fields", VList (map VStr ENCRYPTED_FIELDS));
              (lit "compliance", VStr (lit "152-FZ"));
              (lit "security_level", VStr (lit "high"))]).

(** [get_encryptor]: the module global [_encryptor_instance] is an
    argument, and its value after the call is returned with the
    encryptor; a call that raises leaves it as it was. *)
Definition get_encryptor (environ : dict str)
  (_encryptor_instance : option PersonalDataEncryptor)
  : M (PersonalDataEncryptor * option PersonalDataEncryptor) :=
  match _encryptor_instance with
  | None =>
      cfg <- lift (config environ) ;;
      let encryption_key :=
        match BOT_TOKEN cfg with
        | Some (c :: t) => slice None (Some 32%Z) (ljust 32 0x30%N (c :: t))
        | _ => lit "default-encryption-key-32-bytes-long!"
        end in
      instance <- __init__ encryption_key 90 ;;
      ret (instance, Some instance)
  | Some instance => ret (instance, Some instance)
  end.

(** [encrypt_file].  The files are a dictionary from path to content: a
    path that is not a key cannot be opened for reading, every path can
    be opened for writing, and a path names a file by its text.  Whatever
    is raised inside the [try] becomes an [EncryptionError]; the files as
    the call leaves them are returned in both cases.  When the length of
    the metadata does not fit four bytes, the output file has been opened
    and the IV written before [to_bytes] raises. *)
Definition encrypt_file (self : PersonalDataEncryptor) (file_path output_path : str)
  (data_category : DataCategory) (files : dict bytes) (w : world)
  : result unit * dict bytes * world :=
  match dict_get file_path files with
  | None => (Raise EncryptionError, files, w)
  | Some file_data =>
      let prepared :=
        (iv <- os_urandom 12 ;;
         cipher <- lift (Cipher_AES_GCM (encryption_key self) iv None) ;;
         metadata <- _create_metadata self data_category ;;
         metadata_json <- lift (utf8_encode (json_dumps_ascii metadata)) ;;
         log (EvAesGcmEncrypt (cipher_iv cipher)) ;;;
         let ct := aes_gcm_encrypt_aad (cipher_key cipher) (cipher_iv cipher)
                     metadata_json file_data in
         ret (iv, metadata_json, fst ct, snd ct)) w in
      match prepared with
      | (Raise _, w') => (Raise EncryptionError, files, w')
      | (Ok (iv, metadata_json, encrypted_data, auth_tag), w') =>
          match to_bytes_big 4 (N.of_nat (length metadata_json)) with
          | None => (Raise EncryptionError, dict_setitem output_path iv files, w')
          | Some metadata_len =>
              (Ok tt,
               dict_setitem output_path
                 (iv ++ metadata_len ++ metadata_json ++ encrypted_data ++ auth_tag) files,
               w')
          end
      end
  end.

End Encryptor2.

(** A small instance of the cipher with additional data, and a file to
    encrypt. *)
Definition sample_aead : AeadExternals := {|
  aes_gcm_encrypt_aad := fun key iv aad data =>
    (map sample_flip data, sample_digest 16 (key ++ iv) (aad ++ x00 :: data))
|}.

Definition sample_files : dict bytes :=
  [(lit "scan.jpg", blit "JFIF-bytes"); (lit "notes.txt", blit "keep")].

(** An environment with a token of 41 characters, and one whose token
    has three. *)
Definition sample_environ : dict str :=
  [(lit "BOT_TOKEN", lit "123456:ABC-DEF1234ghIkl-zyx57W2v1u123ew11");
   (lit "DB_LITE", lit "sqlite+aiosqlite:///bot.db")].

Definition sample_environ_short : dict str :=
  [(lit "BOT_TOKEN", lit "abc"); (lit "DB_LITE", lit "sqlite+aiosqlite:///bot.db")].

(** The characters below U+007F: [json.dumps] writes a string of them
    in the same way with either setting of [ensure_ascii]. *)
Definition is_plain_char (c : N) : bool := (c <? 0x7F)%N.

(** The metadata [_create_metadata] returns at two clock readings. *)
Definition metadata_at (self : PersonalDataEncryptor) (data_category : DataCategory)
  (now1 now2 : datetime) : value :=
  metadata_of (category_value data_category) (isoformat now1) (key_version_at self now2).

(** The content [encrypt_file] writes. *)
Definition file_container (iv metadata_json encrypted_data auth_tag : bytes) : bytes :=
  iv ++ be_digits 4 (N.of_nat (length metadata_json)) ++ metadata_json
     ++ encrypted_data ++ auth_tag.

(** ** [json.dumps(obj, sort_keys=True, ensure_ascii=False)]

    The items of every dictionary are written in the order of their
    keys; strings are compared code point by code point. *)

Fixpoint str_ltb (a b : str) : bool :=
  match a, b with
  | _, [] => false
  | [], _ :: _ => true
  | x :: a', y :: b' =>
      if (x <? y)%N then true else if (y <? x)%N then false else str_ltb a' b'
  end.

Fixpoint insert_item {V} (kv : str * V) (l : list (str * V)) : list (str * V) :=
  match l with
  | [] => [kv]
  | kv' :: t =>
      if str_ltb (fst kv') (fst kv) then kv' :: insert_item kv t else kv :: l
  end.

Definition sorted_items {V} (d : dict V) : list (str * V) :=
  fold_right insert_item [] d.

Fixpoint sort_keys (v : value) : value :=
  match v with
  | VList l => VList (map sort_keys l)
  | VDict d =>
      VDict (sorted_items (map (fun kv : str * value =>
                                  let (k, x) := kv in (k, sort_keys x)) d))
  | _ => v
  end.

Definition json_dumps_sorted (v : value) : str := json_dumps (sort_keys v).

(** ** [services/user_service.py]

    The table of the [User] model is a list of rows; [session.get] finds
    the row of an id, and a commit puts the changed or the new row in its
    place.  A session that ends without commit leaves the table as it
    was.  Failures of the database itself are not modelled. *)

Class HashExternals : Type := {
  sha256_hexdigest : bytes -> str
}.

Record User : Type := mkUser {
  user_id : Z;                      (* the column [id] *)
  encrypted_data : option str;
  data_hash : option str;
  created_at : datetime;
  updated_at : datetime;
  deleted_at : option datetime;
  is_active : bool
}.

Definition session_get (table : list User) (id : Z) : option User :=
  find (fun u => (user_id u =? id)%Z) table.

Fixpoint session_commit (u : User) (table : list User) : list User :=
  match table with
  | [] => [u]
  | u' :: t => if (user_id u' =? user_id u)%Z then u :: t else u' :: session_commit u t
  end.

(** [d.update(other)] *)
Definition dict_update {V} (d other : dict V) : dict V :=
  fold_left (fun acc kv => dict_setitem (fst kv) (snd kv) acc) other d.

(** [k.startswith('_')] *)
Definition startswith_underscore (k : str) : bool :=
  match k with
  | c :: _ => (c =? 0x5F)%N
  | [] => false
  end.

(** [obj.items()] of a value that may not be a dictionary. *)
Definition py_items (obj : value) : result (dict value) :=
  match obj with
  | VDict d => Ok d
  | _ => Raise AttributeError
  end.

Module UserService.
Section Service.

Context {X : Externals} {H : HashExternals}.
Variable encryptor : PersonalDataEncryptor.

Definition _create_data_hash (user_data : dict value) : result str :=
  let sorted_data := json_dumps_sorted (VDict user_data) in
  rmap sha256_hexdigest (utf8_encode sorted_data).

Definition _decrypt_user_data (user : User) : M (dict value) :=
  match encrypted_data user with
  | None | Some [] => ret []
  | Some text =>
      try_except
        (encrypted_dict <- lift (json_loads text) ;;
         items <- lift (py_items encrypted_dict) ;;
         auto_decrypt_user_data encryptor items)
        (fun _ => ret [])
  end.

Definition _create_new_user (id : Z) (user_data : dict value) : M User :=
  encrypted <- auto_encrypt_user_data encryptor user_data ;;
  let text := json_dumps_ascii (VDict encrypted) in
  hash <- lift (_create_data_hash user_data) ;;
  created <- utcnow ;;
  updated <- utcnow ;;
  ret (mkUser id (Some text) (Some hash) created updated None true).

Definition _update_user_data (user : User) (user_data : dict value) : M User :=
  current_data <- _decrypt_user_data user ;;
  let current_data := dict_update current_data user_data in
  encrypted <- auto_encrypt_user_data encryptor current_data ;;
  let text := json_dumps_ascii (VDict encrypted) in
  hash <- lift (_create_data_hash current_data) ;;
  now <- utcnow ;;
  ret (mkUser (user_id user) (Some text) (Some hash) (created_at user) now
              (deleted_at user) (is_active user)).

Definition save_user_data (table : list User) (id : Z) (user_data : dict value)
  : M (bool * list User) :=
  try_except
    (match session_get table id with
     | Some user =>
         user' <- _update_user_data user user_data ;;
         ret (true, session_commit user' table)
     | None =>
         user' <- _create_new_user id user_data ;;
         ret (true, session_commit user' table)
     end)
    (fun _ => ret (false, table)).

Definition get_user_data (table : list User) (id : Z) : M (dict value) :=
  try_except
    (match session_get table id with
     | None => ret []
     | Some user =>
         if negb (is_active user) then ret [] else _decrypt_user_data user
     end)
    (fun _ => ret []).

Definition update_user_field (table : list User) (id : Z) (field : str) (v : value)
  : M (bool * list User) :=
  try_except
    (match session_get table id with
     | None => ret (false, table)
     | Some user =>
         current_data <- _decrypt_user_data user ;;
         let current_data := dict_setitem field v current_data in
         encrypted <- auto_encrypt_user_data encryptor current_data ;;
         let text := json_dumps_ascii (VDict encrypted) in
         hash <- lift (_create_data_hash current_data) ;;
         now <- utcnow ;;
         ret (true,
              session_commit
                (mkUser (user_id user) (Some text) (Some hash) (created_at user) now
                        (deleted_at user) (is_active user)) table)
     end)
    (fun _ => ret (false, table)).

Definition delete_user_data (table : list User) (id : Z) : M (bool * list User) :=
  try_except
    (match session_get table id with
     | None => ret (false, table)
     | Some user =>
         now <- utcnow ;;
         ret (true,
              session_commit
                (mkUser (user_id user) (encrypted_data user) (data_hash user)
                        (created_at user) (updated_at user) (Some now) false) table)
     end)
    (fun _ => ret (false, table)).


(** The method [get_encryption_info] of the service. *)
Definition get_encryption_info (table : list User) (id : Z) : M (dict value) :=
  try_except
    (match session_get table id with
     | None => ret []
     | Some user =>
         stored <- lift (match encrypted_data user with
                         | None | Some [] => Ok (VDict [])
                         | Some text => json_loads text
                         end) ;;
         items <- lift (py_items stored) ;;
         ret [(lit "user_id", VInt id);
              (lit "is_encrypted",
               VBool (existsb (str_eqb (lit "_encrypted")) (keys items)));
              (lit "encryption_version",
               match dict_get (lit "_encryption_version") items with
               | Some v => v
               | None => VStr (lit "unknown")
               end);
              (lit "encrypted_at",
               match dict_get (lit "_encrypted_at") items with
               | Some v => v
               | None => VStr (lit "unknown")
               end);
              (lit "fields_encrypted",
               VInt (Z.of_nat (length (filter (fun k => negb (startswith_underscore k))
                                              (keys items)))));
              (lit "data_hash",
               match data_hash user with Some h => VStr h | None => VNone end)]
     end)
    (fun _ => ret []).

End Service.
End UserService.

(** ** Definitions the statements about stored records use *)

(** The values whose JSON text the proofs read back: strings without
    surrogates, booleans and [None]. *)
Definition storable (v : value) : bool :=
  match v with
  | VStr s => encodable s
  | VBool _ | VNone => true
  | _ => false
  end.

Definition storable_record (d : dict value) : bool :=
  forallb (fun kv : str * value => encodable (fst kv) && storable (snd kv)) d.

(** [parses_ascii n x]: as [parses], for the text [json.dumps] writes
    with [ensure_ascii=True]. *)
Definition parses_ascii (n : nat) (x : value) : Prop :=
  (forall rest, skip_ws (json_dumps_ascii x ++ rest) = json_dumps_ascii x ++ rest)
  /\ (forall fuel rest, n <= fuel ->
        scan_once fuel (json_dumps_ascii x ++ rest) = Ok (x, rest)).

Definition member_text_ascii (kv : str * value) : str :=
  let (k, x) := kv in json_quote_ascii k ++ lit ": " ++ json_dumps_ascii x.

Definition hex_digit_checked (d : N) : bool :=
  match hex_value (hex_digit d) with
  | Some x => (x =? d)%N
  | None => false
  end.

Definition surrogate_bits_checked (y : N) : bool :=
  ((N.lor 0xD800 y =? 0xD800 + y) && (N.lor 0xDC00 y =? 0xDC00 + y))%N.

(** A small instance of the hash, and an encrypted row made with the
    small instances. *)
Definition sample_hasher : HashExternals := {|
  sha256_hexdigest := fun data => str_of_Z (Z.of_N (sample_hash data))
|}.

Definition sample_user_data : dict value :=
  [(lit "fio", VStr (lit "Ivanov")); (lit "city", VStr (lit "Kazan"));
   (lit "phone", VStr [])].

(** A row whose stored record has an [fio] that cannot be decrypted. *)
Definition sample_corrupted_user : User :=
  mkUser 7 (Some (json_dumps_ascii (VDict sample_corrupted_record))) None
         (mkDatetime 2026 1 1 0 0 0 0) (mkDatetime 2026 1 1 0 0 0 0) None true.

(** A table whose only row was soft-deleted. *)
Definition sample_deleted_table : list User :=
  [mkUser 7 (Some (lit "{}")) None (mkDatetime 2026 1 1 0 0 0 0)
          (mkDatetime 2026 1 1 0 0 0 0) (Some (mkDatetime 2026 2 1 0 0 0 0)) false].

(** A record without any sensitive field, as [auto_encrypt_user_data]
    stores it with the small instance, and a table holding it. *)
Definition sample_plain_record : dict value := [(lit "city", VStr (lit "Kazan"))].

Definition sample_stored_plain : dict value :=
  match fst (auto_encrypt_user_data (X := sample_externals) sample_encryptor
               sample_plain_record sample_world) with
  | Ok e => e
  | Raise _ => []
  end.

Definition sample_plain_table : list User :=
  [mkUser 7 (Some (json_dumps_ascii (VDict sample_stored_plain))) None
          (mkDatetime 2026 1 1 0 0 0 0) (mkDatetime 2026 1 1 0 0 0 0) None true].

(** A table whose only row holds a text that is not a record. *)
Definition sample_unreadable_user : User :=
  mkUser 7 (Some (lit "[1, 2]")) None (mkDatetime 2026 1 1 0 0 0 0)
         (mkDatetime 2026 1 1 0 0 0 0) None true.

Definition sample_unreadable_table : list User := [sample_unreadable_user].

(** * Properties *)

(** ** Equality tests *)

Lemma str_eqb_eq (a b : str) : str_eqb a b = true <-> a = b.
Proof. unfold str_eqb. destruct (list_eq_dec N.eq_dec a b); split; congruence. Qed.

Lemma str_eqb_refl (a : str) : str_eqb a a = true.
Proof. now apply str_eqb_eq. Qed.

Lemma str_eqb_neq (a b : str) : str_eqb a b = false <-> a <> b.
Proof. unfold str_eqb. destruct (list_eq_dec N.eq_dec a b); split; congruence. Qed.

Lemma bytes_eqb_eq (a b : bytes) : bytes_eqb a b = true <-> a = b.
Proof. unfold bytes_eqb. destruct (list_eq_dec Byte.byte_eq_dec a b); split; congruence. Qed.

Lemma bytes_eqb_refl (a : bytes) : bytes_eqb a a = true.
Proof. now apply bytes_eqb_eq. Qed.

Lemma bytes_eqb_neq (a b : bytes) : bytes_eqb a b = false <-> a <> b.
Proof. unfold bytes_eqb. destruct (list_eq_dec Byte.byte_eq_dec a b); split; congruence. Qed.

(** ** base64 *)

Example b64_t1 : urlsafe_b64encode (blit "AB") = blit "QUI=". Proof. reflexivity. Qed.
Example b64_t2 : urlsafe_b64decode (blit "QUI=QUJD") = Ok (blit "AB"). Proof. reflexivity. Qed.
Example b64_t3 : urlsafe_b64decode (blit "Q=Q=") = Raise BinasciiError. Proof. reflexivity. Qed.
Example b64_t4 : urlsafe_b64decode (blit "=QQ==") = Ok (blit "A"). Proof. reflexivity. Qed.
Example b64_t5 : urlsafe_b64decode (blit "QUJ") = Raise BinasciiError. Proof. reflexivity. Qed.
Example b64_t6 : urlsafe_b64decode (blit "====") = Ok []. Proof. reflexivity. Qed.
Example b64_t7 : urlsafe_b64encode [xfb; xff] = blit "-_8=". Proof. reflexivity. Qed.
Example b64_t8 : urlsafe_b64decode (blit "-_8=") = Ok [xfb; xff]. Proof. reflexivity. Qed.

Lemma byte_val_lt (b : byte) : (byte_val b < 256)%N.
Proof. unfold byte_val. pose proof (Byte.to_N_bounded b). lia. Qed.

Lemma byte_of_N_val (b : byte) : byte_of_N (byte_val b) = b.
Proof.
  unfold byte_of_N, byte_val.
  rewrite N.mod_small by apply (byte_val_lt b).
  now rewrite Byte.of_to_N.
Qed.



Lemma sextets_checked : forallb sextet_checked (map N.of_nat (seq 0 64)) = true.
Proof. vm_compute. reflexivity. Qed.

Lemma sextet_ok (n : N) :
  (n < 64)%N ->
  Byte.eqb (sextet_char n) BASE64_PAD = false
  /\ table_a2b_base64 (sextet_char n) = Some n.
Proof.
  intros Hn.
  pose proof sextets_checked as H.
  rewrite forallb_forall in H.
  specialize (H n).
  assert (Hin : In n (map N.of_nat (seq 0 64))).
  { apply in_map_iff. exists (N.to_nat n). split; [apply N2Nat.id|].
    apply in_seq. lia. }
  specialize (H Hin). unfold sextet_checked in H.
  apply andb_prop in H. destruct H as [H1 H2].
  split.
  - now apply negb_true_iff in H1.
  - destruct (table_a2b_base64 (sextet_char n)); [|discriminate].
    apply N.eqb_eq in H2. now subst.
Qed.

Lemma a2b_step (n : N) (rest : bytes) (quad_pos : nat) (leftchar : N) (pads : nat) :
  (n < 64)%N ->
  a2b_base64_loop (sextet_char n :: rest) quad_pos leftchar pads =
  match quad_pos with
  | 0 => a2b_base64_loop rest 1 n 0
  | 1 => rmap (cons (byte_of_N (leftchar * 4 + n / 16)%N))
              (a2b_base64_loop rest 2 (n mod 16)%N 0)
  | 2 => rmap (cons (byte_of_N (leftchar * 16 + n / 4)%N))
              (a2b_base64_loop rest 3 (n mod 4)%N 0)
  | _ => rmap (cons (byte_of_N (leftchar * 64 + n)%N))
              (a2b_base64_loop rest 0 0%N 0)
  end.
Proof.
  intros Hn. destruct (sextet_ok Hn) as [H1 H2].
  cbn [a2b_base64_loop]. rewrite H1, H2. reflexivity.
Qed.

Lemma a2b_pad2 (rest : bytes) (leftchar : N) :
  a2b_base64_loop (BASE64_PAD :: BASE64_PAD :: rest) 2 leftchar 0 = Ok [].
Proof. reflexivity. Qed.

Lemma a2b_pad1 (rest : bytes) (leftchar : N) :
  a2b_base64_loop (BASE64_PAD :: rest) 3 leftchar 0 = Ok [].
Proof. reflexivity. Qed.

Lemma pad_translated : urlsafe_decode_translation (urlsafe_encode_translation BASE64_PAD) = BASE64_PAD.
Proof. reflexivity. Qed.

Ltac euclid := Z.to_euclidean_division_equations; lia.

Lemma sextets_lt (x y z : N) :
  (x < 256 -> y < 256 -> z < 256 ->
   x / 4 < 64 /\ (x mod 4) * 16 + y / 16 < 64 /\ (y mod 16) * 4 + z / 64 < 64
   /\ z mod 64 < 64 /\ (x mod 4) * 16 < 64 /\ (y mod 16) * 4 < 64)%N.
Proof. intros. repeat split; zify; euclid. Qed.

Lemma sextets_join (x y z : N) :
  (x < 256 -> y < 256 -> z < 256 ->
   x / 4 * 4 + ((x mod 4) * 16 + y / 16) / 16 = x
   /\ ((x mod 4) * 16 + y / 16) mod 16 * 16 + ((y mod 16) * 4 + z / 64) / 4 = y
   /\ ((y mod 16) * 4 + z / 64) mod 4 * 64 + z mod 64 = z
   /\ x / 4 * 4 + ((x mod 4) * 16) / 16 = x
   /\ ((x mod 4) * 16 + y / 16) mod 16 * 16 + ((y mod 16) * 4) / 4 = y)%N.
Proof. intros. repeat split; zify; euclid. Qed.

(** Induction on a byte string three bytes at a time, the way the encoder
    consumes it. *)
Lemma bytes_ind3 (P : bytes -> Prop) :
  P [] ->
  (forall b0, P [b0]) ->
  (forall b0 b1, P [b0; b1]) ->
  (forall b0 b1 b2 rest, P rest -> P (b0 :: b1 :: b2 :: rest)) ->
  forall data, P data.
Proof.
  intros H0 H1 H2 H3.
  fix IH 1.
  intros [|b0 [|b1 [|b2 rest]]];
    [apply H0 | apply H1 | apply H2 | apply H3; apply IH].
Qed.

Lemma a2b_b2a_base64 (data : bytes) :
  a2b_base64_loop
    (map urlsafe_decode_translation (map urlsafe_encode_translation (b2a_base64 data)))
    0 0 0 = Ok data.
Proof.
  induction data as [|b0|b0 b1|b0 b1 b2 rest IH] using bytes_ind3.
  - reflexivity.
  - pose proof (byte_val_lt b0) as Hx.
    destruct (@sextets_lt (byte_val b0) 0 0) as (L1 & _ & _ & _ & L5 & _); try lia.
    destruct (@sextets_join (byte_val b0) 0 0) as (_ & _ & _ & J4 & _); try lia.
    cbn [b2a_base64 map]. fold (sextet_char (byte_val b0 / 4)).
    fold (sextet_char (byte_val b0 mod 4 * 16)).
    rewrite !pad_translated.
    rewrite a2b_step by assumption. rewrite a2b_step by assumption.
    rewrite a2b_pad2. cbn [rmap]. rewrite J4, byte_of_N_val. reflexivity.
  - pose proof (byte_val_lt b0) as Hx. pose proof (byte_val_lt b1) as Hy.
    destruct (@sextets_lt (byte_val b0) (byte_val b1) 0) as (L1 & L2 & _ & _ & _ & L6); try lia.
    destruct (@sextets_join (byte_val b0) (byte_val b1) 0) as (J1 & _ & _ & _ & J5); try lia.
    cbn [b2a_base64 map].
    fold (sextet_char (byte_val b0 / 4)).
    fold (sextet_char (byte_val b0 mod 4 * 16 + byte_val b1 / 16)).
    fold (sextet_char (byte_val b1 mod 16 * 4)).
    rewrite !pad_translated.
    rewrite !a2b_step by assumption.
    rewrite a2b_pad1. cbn [rmap]. rewrite J1, J5, !byte_of_N_val. reflexivity.
  - pose proof (byte_val_lt b0) as Hx. pose proof (byte_val_lt b1) as Hy.
    pose proof (byte_val_lt b2) as Hz.
    destruct (@sextets_lt (byte_val b0) (byte_val b1) (byte_val b2))
      as (L1 & L2 & L3 & L4 & _ & _); try lia.
    destruct (@sextets_join (byte_val b0) (byte_val b1) (byte_val b2))
      as (J1 & J2 & J3 & _ & _); try lia.
    cbn [b2a_base64 map].
    fold (sextet_char (byte_val b0 / 4)).
    fold (sextet_char (byte_val b0 mod 4 * 16 + byte_val b1 / 16)).
    fold (sextet_char (byte_val b1 mod 16 * 4 + byte_val b2 / 64)).
    fold (sextet_char (byte_val b2 mod 64)).
    rewrite !a2b_step by assumption.
    rewrite IH. cbn [rmap]. rewrite J1, J2, J3, !byte_of_N_val. reflexivity.
Qed.

Lemma urlsafe_b64_roundtrip (data : bytes) :
  urlsafe_b64decode (urlsafe_b64encode data) = Ok data.
Proof. apply a2b_b2a_base64. Qed.

(** ** UTF-8 *)

Example utf8_t1 : utf8_encode [0x44F; 0x20AC; 0x1F600; 0x41]%N
  = Ok [xd1; x8f; xe2; x82; xac; xf0; x9f; x98; x80; x41].
Proof. reflexivity. Qed.
Example utf8_t2 : utf8_decode [xd1; x8f; xe2; x82; xac; xf0; x9f; x98; x80; x41]
  = Ok [0x44F; 0x20AC; 0x1F600; 0x41]%N.
Proof. reflexivity. Qed.
Example utf8_t3 : utf8_encode [0xD800]%N = Raise UnicodeEncodeError.
Proof. reflexivity. Qed.
Example utf8_t4 : utf8_decode [xc0; x80] = Raise UnicodeDecodeError.
Proof. reflexivity. Qed.
Example utf8_t5 : utf8_decode [xed; xa0; x80] = Raise UnicodeDecodeError.
Proof. reflexivity. Qed.

Lemma byte_val_of_N (n : N) : byte_val (byte_of_N n) = (n mod 256)%N.
Proof.
  unfold byte_val, byte_of_N.
  assert (Hlt : (n mod 256 < 256)%N) by (apply N.mod_lt; lia).
  destruct (Byte.of_N (n mod 256)) as [b|] eqn:E.
  - now apply Byte.to_of_N.
  - apply Byte.of_N_None_iff in E. lia.
Qed.

Lemma byte_val_of_N_small (n : N) : (n < 256)%N -> byte_val (byte_of_N n) = n.
Proof. intros. rewrite byte_val_of_N. now apply N.mod_small. Qed.

Ltac nbool :=
  repeat match goal with
  | H : (_ <? _)%N = true |- _ => apply N.ltb_lt in H
  | H : (_ <? _)%N = false |- _ => apply N.ltb_ge in H
  | H : (_ <=? _)%N = true |- _ => apply N.leb_le in H
  | H : (_ <=? _)%N = false |- _ => apply N.leb_gt in H
  | H : (_ && _) = true |- _ => apply andb_prop in H; destruct H
  | H : negb _ = true |- _ => apply negb_true_iff in H
  | H : negb _ = false |- _ => apply negb_false_iff in H
  end.

Lemma utf8_decode_eq (b : bytes) : utf8_decode b = utf8_decode_step utf8_decode b.
Proof. destruct b; reflexivity. Qed.

Lemma utf8_decode_encode_char_aux (c : N) (rest : bytes) :
  match utf8_encode_char c with
  | Ok bs => utf8_decode (bs ++ rest) = rmap (cons c) (utf8_decode rest)
  | Raise _ => True
  end.
Proof.
  unfold utf8_encode_char.
  destruct (c <? 128)%N eqn:E1.
  { nbool. cbn [app]. rewrite utf8_decode_eq. cbn [utf8_decode_step].
    rewrite byte_val_of_N_small by lia.
    apply N.ltb_lt in E1. now rewrite E1. }
  destruct (c <? 2048)%N eqn:E2.
  { nbool. cbn [app]. rewrite utf8_decode_eq. cbn [utf8_decode_step].
    unfold is_continuation, continuation_bits.
    rewrite !byte_val_of_N_small by (zify; euclid).
    replace (192 + c / 64 <? 128)%N with false by (symmetry; apply N.ltb_ge; zify; euclid).
    replace (192 + c / 64 <? 192)%N with false by (symmetry; apply N.ltb_ge; zify; euclid).
    replace (192 + c / 64 <? 224)%N with true by (symmetry; apply N.ltb_lt; zify; euclid).
    replace ((192 + c / 64 - 192) * 64 + (128 + c mod 64 - 128))%N with c by (zify; euclid).
    replace (128 <=? 128 + c mod 64)%N with true by (symmetry; apply N.leb_le; zify; euclid).
    replace (128 + c mod 64 <? 192)%N with true by (symmetry; apply N.ltb_lt; zify; euclid).
    replace (128 <=? c)%N with true by (symmetry; apply N.leb_le; zify; euclid).
    reflexivity. }
  destruct (is_surrogate c) eqn:E3; [exact I|].
  destruct (c <? 65536)%N eqn:E4.
  { nbool. cbn [app]. rewrite utf8_decode_eq. cbn [utf8_decode_step].
    unfold is_continuation, continuation_bits.
    rewrite !byte_val_of_N_small by (zify; euclid).
    replace (224 + c / 4096 <? 128)%N with false by (symmetry; apply N.ltb_ge; zify; euclid).
    replace (224 + c / 4096 <? 192)%N with false by (symmetry; apply N.ltb_ge; zify; euclid).
    replace (224 + c / 4096 <? 224)%N with false by (symmetry; apply N.ltb_ge; zify; euclid).
    replace (224 + c / 4096 <? 240)%N with true by (symmetry; apply N.ltb_lt; zify; euclid).
    replace ((224 + c / 4096 - 224) * 4096 + (128 + (c / 64) mod 64 - 128) * 64
             + (128 + c mod 64 - 128))%N with c by (zify; euclid).
    replace (128 <=? 128 + (c / 64) mod 64)%N with true by (symmetry; apply N.leb_le; zify; euclid).
    replace (128 + (c / 64) mod 64 <? 192)%N with true by (symmetry; apply N.ltb_lt; zify; euclid).
    replace (128 <=? 128 + c mod 64)%N with true by (symmetry; apply N.leb_le; zify; euclid).
    replace (128 + c mod 64 <? 192)%N with true by (symmetry; apply N.ltb_lt; zify; euclid).
    replace (2048 <=? c)%N with true by (symmetry; apply N.leb_le; zify; euclid).
    rewrite E3. reflexivity. }
  destruct (c <? 1114112)%N eqn:E5; [|exact I].
  nbool. cbn [app]. rewrite utf8_decode_eq. cbn [utf8_decode_step].
  unfold is_continuation, continuation_bits.
  rewrite !byte_val_of_N_small by (zify; euclid).
  replace (240 + c / 262144 <? 128)%N with false by (symmetry; apply N.ltb_ge; zify; euclid).
  replace (240 + c / 262144 <? 192)%N with false by (symmetry; apply N.ltb_ge; zify; euclid).
  replace (240 + c / 262144 <? 224)%N with false by (symmetry; apply N.ltb_ge; zify; euclid).
  replace (240 + c / 262144 <? 240)%N with false by (symmetry; apply N.ltb_ge; zify; euclid).
  replace (240 + c / 262144 <? 248)%N with true by (symmetry; apply N.ltb_lt; zify; euclid).
  replace ((240 + c / 262144 - 240) * 262144 + (128 + (c / 4096) mod 64 - 128) * 4096
           + (128 + (c / 64) mod 64 - 128) * 64 + (128 + c mod 64 - 128))%N
    with c by (zify; euclid).
  replace (128 <=? 128 + (c / 4096) mod 64)%N with true by (symmetry; apply N.leb_le; zify; euclid).
  replace (128 + (c / 4096) mod 64 <? 192)%N with true by (symmetry; apply N.ltb_lt; zify; euclid).
  replace (128 <=? 128 + (c / 64) mod 64)%N with true by (symmetry; apply N.leb_le; zify; euclid).
  replace (128 + (c / 64) mod 64 <? 192)%N with true by (symmetry; apply N.ltb_lt; zify; euclid).
  replace (128 <=? 128 + c mod 64)%N with true by (symmetry; apply N.leb_le; zify; euclid).
  replace (128 + c mod 64 <? 192)%N with true by (symmetry; apply N.ltb_lt; zify; euclid).
  replace (65536 <=? c)%N with true by (symmetry; apply N.leb_le; zify; euclid).
  replace (c <? 1114112)%N with true by (symmetry; apply N.ltb_lt; lia).
  reflexivity.
Qed.

Lemma utf8_decode_encode_char (c : N) (bs rest : bytes) :
  utf8_encode_char c = Ok bs ->
  utf8_decode (bs ++ rest) = rmap (cons c) (utf8_decode rest).
Proof.
  intros H. pose proof (utf8_decode_encode_char_aux c rest) as A.
  rewrite H in A. exact A.
Qed.

Lemma utf8_roundtrip (s : str) (b : bytes) :
  utf8_encode s = Ok b -> utf8_decode b = Ok s.
Proof.
  revert b. induction s as [|c s IH]; intros b.
  - intros [= <-]. reflexivity.
  - cbn [utf8_encode]. destruct (utf8_encode_char c) as [bs|] eqn:Ec; [|discriminate].
    cbn [rbind]. destruct (utf8_encode s) as [b'|] eqn:Es; [|discriminate].
    intros [= <-]. rewrite (@utf8_decode_encode_char c bs _ Ec).
    now rewrite (IH b' eq_refl).
Qed.

(** ** Dates and decimal printing *)

Example str_of_Z_t1 : str_of_Z 0 = lit "0". Proof. reflexivity. Qed.
Example str_of_Z_t2 : str_of_Z (-42) = lit "-42". Proof. reflexivity. Qed.
Example toordinal_t1 : toordinal datetime_2020_01_01 = 737425%Z. Proof. reflexivity. Qed.
Example isoformat_t1 :
  isoformat (mkDatetime 2026 11 3 9 5 7 1234) = lit "2026-11-03T09:05:07.001234".
Proof. reflexivity. Qed.
Example isoformat_t2 :
  isoformat (mkDatetime 2026 11 3 9 5 7 0) = lit "2026-11-03T09:05:07".
Proof. reflexivity. Qed.
Example days_since_t1 :
  days_since (mkDatetime 2026 11 3 9 5 7 0) datetime_2020_01_01 = 2498%Z.
Proof. reflexivity. Qed.

(** ** Slicing an envelope *)

Lemma firstn_exact {A} (n : nat) (a b : list A) :
  length a = n -> firstn n (a ++ b) = a.
Proof.
  intros <-. rewrite firstn_app, Nat.sub_diag, firstn_all. cbn [firstn].
  apply app_nil_r.
Qed.

Lemma skipn_exact {A} (n : nat) (a b : list A) :
  length a = n -> skipn n (a ++ b) = b.
Proof.
  intros <-. rewrite skipn_app, Nat.sub_diag, skipn_all. reflexivity.
Qed.

Lemma slice_envelope (iv ct tag h : bytes) :
  length iv = 12 -> length tag = 16 -> length h = 32 ->
  let combined := iv ++ ct ++ tag ++ h in
  slice None (Some 12%Z) combined = iv
  /\ slice (Some (-48)%Z) (Some (-32)%Z) combined = tag
  /\ slice (Some (-32)%Z) None combined = h
  /\ slice (Some 12%Z) (Some (-48)%Z) combined = ct.
Proof.
  intros Hiv Htag Hh combined.
  assert (Hlen : length combined = 60 + length ct).
  { unfold combined. rewrite !length_app. lia. }
  unfold slice, norm_index. rewrite Hlen. cbn [Z.ltb Z.compare].
  repeat split.
  - replace (Z.to_nat (Z.min (Z.of_nat (60 + length ct)) 12 - 0)) with 12 by lia.
    replace (Z.to_nat 0) with 0 by reflexivity. rewrite skipn_O.
    now apply firstn_exact.
  - replace (Z.to_nat (Z.max 0 (Z.of_nat (60 + length ct) + -32)
                       - Z.max 0 (Z.of_nat (60 + length ct) + -48))) with 16 by lia.
    replace (Z.to_nat (Z.max 0 (Z.of_nat (60 + length ct) + -48)))
      with (length (iv ++ ct)) by (rewrite length_app; lia).
    unfold combined. rewrite (app_assoc iv ct).
    rewrite skipn_exact by reflexivity. now apply firstn_exact.
  - replace (Z.to_nat (Z.max 0 (Z.of_nat (60 + length ct) + -32)))
      with (length (iv ++ ct ++ tag)) by (rewrite !length_app; lia).
    replace (Z.to_nat (Z.of_nat (60 + length ct)
                       - Z.max 0 (Z.of_nat (60 + length ct) + -32))) with 32 by lia.
    unfold combined.
    replace (iv ++ ct ++ tag ++ h) with ((iv ++ ct ++ tag) ++ h)
      by (now rewrite <- !app_assoc).
    rewrite skipn_exact by reflexivity. rewrite <- Hh. apply firstn_all.
  - replace (Z.to_nat (Z.min (Z.of_nat (60 + length ct)) 12)) with (length iv) by lia.
    replace (Z.to_nat (Z.max 0 (Z.of_nat (60 + length ct) + -48)
                       - Z.min (Z.of_nat (60 + length ct)) 12)) with (length ct) by lia.
    unfold combined. rewrite skipn_exact by reflexivity. now apply firstn_exact.
Qed.

(** Any byte string of at least 60 bytes splits as an envelope does. *)
Lemma envelope_split (combined : bytes) :
  60 <= length combined ->
  exists iv ct tag h,
    combined = iv ++ ct ++ tag ++ h
    /\ length iv = 12 /\ length tag = 16 /\ length h = 32.
Proof.
  intros Hlen.
  set (n := length combined) in *.
  exists (firstn 12 combined),
         (firstn (n - 60) (skipn 12 combined)),
         (firstn 16 (skipn (n - 48) combined)),
         (skipn (n - 32) combined).
  repeat split.
  - rewrite <- (firstn_skipn 12 combined) at 1. f_equal.
    rewrite <- (firstn_skipn (n - 60) (skipn 12 combined)) at 1. f_equal.
    rewrite skipn_skipn. replace (n - 60 + 12) with (n - 48) by lia.
    rewrite <- (firstn_skipn 16 (skipn (n - 48) combined)) at 1. f_equal.
    rewrite skipn_skipn. f_equal. lia.
  - rewrite length_firstn. lia.
  - rewrite length_firstn, length_skipn. lia.
  - rewrite length_skipn. lia.
Qed.

(** Below 60 bytes there is no ciphertext between the IV and the tag. *)
Lemma slice_short_ciphertext (combined : bytes) :
  length combined < 60 -> slice (Some 12%Z) (Some (-48)%Z) combined = [].
Proof.
  intros Hlen. unfold slice, norm_index. cbn [Z.ltb Z.compare].
  replace (Z.to_nat (Z.max 0 (Z.of_nat (length combined) + -48)
                     - Z.min (Z.of_nat (length combined)) 12)) with 0 by lia.
  reflexivity.
Qed.

Lemma slice_length_le {A} (lo hi : option Z) (l : list A) :
  length (slice lo hi l) <= length l.
Proof.
  unfold slice. rewrite length_firstn, length_skipn. lia.
Qed.

(** ** ASCII text through UTF-8 and base64 *)


Lemma utf8_decode_ascii (bs : bytes) :
  Forall ascii_byte bs -> utf8_decode bs = Ok (map byte_val bs).
Proof.
  induction 1 as [|b bs Hb _ IH]; [reflexivity|].
  rewrite utf8_decode_eq. cbn [utf8_decode_step].
  apply N.ltb_lt in Hb. rewrite Hb, IH. reflexivity.
Qed.

Lemma utf8_encode_ascii_bytes (bs : bytes) :
  Forall ascii_byte bs -> utf8_encode (map byte_val bs) = Ok bs.
Proof.
  induction 1 as [|b bs Hb _ IH]; [reflexivity|].
  cbn [map utf8_encode]. unfold utf8_encode_char.
  apply N.ltb_lt in Hb. rewrite Hb. cbn [rbind]. rewrite IH. cbn [rmap app].
  now rewrite byte_of_N_val.
Qed.


Lemma b64_alphabet_ascii :
  forallb (fun b => (byte_val (urlsafe_encode_translation b) <? 128)%N)
          (BASE64_PAD :: table_b2a_base64) = true.
Proof. vm_compute. reflexivity. Qed.

Lemma b2a_char_ascii (n : N) : ascii_byte (urlsafe_encode_translation (b2a_char n)).
Proof.
  pose proof b64_alphabet_ascii as H. rewrite forallb_forall in H.
  unfold ascii_byte. apply N.ltb_lt. apply H.
  unfold b2a_char.
  destruct (nth_in_or_default (N.to_nat n) table_b2a_base64 BASE64_PAD) as [Hin|Hd].
  - now right.
  - left. now rewrite Hd.
Qed.

Lemma pad_ascii : ascii_byte (urlsafe_encode_translation BASE64_PAD).
Proof. unfold ascii_byte. now vm_compute. Qed.

Lemma urlsafe_b64encode_ascii (data : bytes) : Forall ascii_byte (urlsafe_b64encode data).
Proof.
  unfold urlsafe_b64encode.
  induction data as [|b0|b0 b1|b0 b1 b2 rest IH] using bytes_ind3;
    cbn [b2a_base64 map];
    repeat (apply Forall_cons; [first [apply b2a_char_ascii | apply pad_ascii]|]);
    first [apply Forall_nil | exact IH].
Qed.

Lemma urlsafe_b64encode_nonempty (data : bytes) :
  data <> [] -> urlsafe_b64encode data <> [].
Proof.
  unfold urlsafe_b64encode.
  destruct data as [|b0 [|b1 [|b2 rest]]]; [congruence | | |]; intros _; discriminate.
Qed.

(** The text of an envelope, and back: [.decode('utf-8')] of the base64
    bytes, then [.encode('utf-8')] and [urlsafe_b64decode]. *)
Lemma envelope_text_roundtrip (combined : bytes) :
  exists text,
    utf8_decode (urlsafe_b64encode combined) = Ok text
    /\ utf8_encode text = Ok (urlsafe_b64encode combined)
    /\ (combined <> [] -> text <> []).
Proof.
  exists (map byte_val (urlsafe_b64encode combined)).
  pose proof (urlsafe_b64encode_ascii combined) as H.
  split; [now apply utf8_decode_ascii|].
  split; [now apply utf8_encode_ascii_bytes|].
  intros Hne Hmap. apply map_eq_nil in Hmap.
  now apply (urlsafe_b64encode_nonempty Hne).
Qed.

(** ** JSON: what [json.dumps] writes, [json.loads] reads back *)

Lemma scanstring_eq (s : str) : scanstring s = scanstring_step scanstring s.
Proof. destruct s; reflexivity. Qed.


Lemma hex_escapes_checked : forallb hex_escape_checked (map N.of_nat (seq 0 32)) = true.
Proof. vm_compute. reflexivity. Qed.

Lemma hex_escape_ok (c : N) :
  (c < 32)%N ->
  decode_uXXXX 0x30 0x30 (hex_digit (c / 16)) (hex_digit (c mod 16)) = Some c.
Proof.
  intros Hc. pose proof hex_escapes_checked as H. rewrite forallb_forall in H.
  assert (Hin : In c (map N.of_nat (seq 0 32))).
  { apply in_map_iff. exists (N.to_nat c). split; [apply N2Nat.id|].
    apply in_seq. lia. }
  specialize (H c Hin). unfold hex_escape_checked in H.
  destruct (decode_uXXXX _ _ _ _); [|discriminate].
  apply N.eqb_eq in H. now subst.
Qed.

Lemma scanstring_escape (c : N) (rest : str) :
  scanstring (json_escape_char c ++ rest) = push_char c (scanstring rest).
Proof.
  unfold json_escape_char.
  destruct (c =? 92)%N eqn:E1; [apply N.eqb_eq in E1; subst; reflexivity|].
  destruct (c =? 34)%N eqn:E2; [apply N.eqb_eq in E2; subst; reflexivity|].
  destruct (c =? 8)%N eqn:E3; [apply N.eqb_eq in E3; subst; reflexivity|].
  destruct (c =? 12)%N eqn:E4; [apply N.eqb_eq in E4; subst; reflexivity|].
  destruct (c =? 10)%N eqn:E5; [apply N.eqb_eq in E5; subst; reflexivity|].
  destruct (c =? 13)%N eqn:E6; [apply N.eqb_eq in E6; subst; reflexivity|].
  destruct (c =? 9)%N eqn:E7; [apply N.eqb_eq in E7; subst; reflexivity|].
  destruct (c <? 32)%N eqn:E8.
  - apply N.ltb_lt in E8.
    assert (Hs : is_high_surrogate c = false).
    { unfold is_high_surrogate. apply andb_false_iff. left. apply N.leb_gt. lia. }
    cbn [app]. rewrite scanstring_eq. cbn [scanstring_step].
    change (92 =? 34)%N with false. change (92 =? 92)%N with true.
    change (117 =? 117)%N with true. cbv iota.
    rewrite (hex_escape_ok E8), Hs. cbn [andb].
    destruct rest as [|? [|? [|? [|? [|? [|? ?]]]]]]; reflexivity.
  - cbn [app]. rewrite scanstring_eq. cbn [scanstring_step].
    rewrite E2, E1, E8. reflexivity.
Qed.

Lemma scanstring_quoted (s rest : str) :
  scanstring (flat_map json_escape_char s ++ 34%N :: rest) = Ok (s, rest).
Proof.
  induction s as [|c s IH]; [reflexivity|].
  cbn [flat_map]. rewrite <- app_assoc, scanstring_escape, IH. reflexivity.
Qed.


Lemma parses_mono (n m : nat) (x : value) : n <= m -> parses n x -> parses m x.
Proof. intros Hnm [H1 H2]. split; [exact H1|]. intros. apply H2. lia. Qed.

Lemma parses_str (s : str) : parses 1 (VStr s).
Proof.
  split; [reflexivity|].
  intros [|fuel] rest Hf; [lia|].
  cbn [json_dumps]. unfold json_quote. cbn [app scan_once].
  change (34 =? 34)%N with true. cbv iota.
  rewrite <- app_assoc. cbn [app]. rewrite scanstring_quoted. reflexivity.
Qed.


Lemma json_dumps_dict (d : dict value) :
  json_dumps (VDict d) = lit "{" ++ join (lit ", ") (map member_text d) ++ lit "}".
Proof. reflexivity. Qed.

Lemma scan_members_ok (n : nat) (d : dict value) :
  Forall (fun kv => parses n (snd kv)) d ->
  d <> [] ->
  forall fuel acc rest,
    n + length d <= fuel ->
    scan_members fuel (join (lit ", ") (map member_text d) ++ 125%N :: rest) acc
    = Ok (rev acc ++ d, rest).
Proof.
  induction 1 as [|[k x] d [Hws Hx] Hd IH]; [congruence|].
  intros _ [|fuel] acc rest Hf; [cbn [length] in Hf; lia|].
  cbn [length] in Hf. cbn [snd] in Hws, Hx.
  assert (Hhead : forall tail,
    scan_members (S fuel) (member_text (k, x) ++ tail) acc =
    match skip_ws tail with
    | c :: r3 =>
        if (c =? 125)%N then Ok (rev ((k, x) :: acc), r3)
        else if (c =? 44)%N then scan_members fuel (skip_ws r3) ((k, x) :: acc)
        else Raise JSONDecodeError
    | [] => Raise JSONDecodeError
    end).
  { intros tail. cbn [member_text]. unfold json_quote.
    cbn [app scan_members]. change (34 =? 34)%N with true. cbv iota.
    rewrite <- !app_assoc. cbn [app]. rewrite scanstring_quoted.
    change (lit ": ") with [58; 32]%N. cbn [app skip_ws].
    change (is_ws 58) with false. cbv iota.
    change (58 =? 58)%N with true. cbv iota.
    cbn [skip_ws]. change (is_ws 32) with true. cbv iota.
    rewrite Hws. rewrite Hx by lia. reflexivity. }
  destruct d as [|kv' d'].
  - cbn [map join]. rewrite Hhead. cbn [skip_ws].
    change (is_ws 125) with false. cbv iota.
    change (125 =? 125)%N with true. cbv iota.
    reflexivity.
  - change (join (lit ", ") (map member_text ((k, x) :: kv' :: d')))
      with (member_text (k, x) ++ lit ", " ++ join (lit ", ") (map member_text (kv' :: d'))).
    rewrite <- !app_assoc. rewrite Hhead.
    change (lit ", ") with [44; 32]%N. cbn [app skip_ws].
    change (is_ws 44) with false. cbv iota.
    change (44 =? 125)%N with false. change (44 =? 44)%N with true. cbv iota.
    cbn [skip_ws]. change (is_ws 32) with true. cbv iota.
    assert (Hq : forall tail,
      skip_ws (join [44; 32]%N (map member_text (kv' :: d')) ++ tail)
      = join [44; 32]%N (map member_text (kv' :: d')) ++ tail).
    { intros tail. destruct kv' as [k' x']. destruct d'; reflexivity. }
    rewrite Hq. change [44; 32]%N with (lit ", ").
    rewrite IH by (cbn [length] in *; first [congruence | lia]).
    cbn [rev]. now rewrite <- app_assoc.
Qed.

Lemma parses_dict (n : nat) (d : dict value) :
  Forall (fun kv => parses n (snd kv)) d ->
  d <> [] ->
  dict_of_pairs d = d ->
  parses (S (n + length d)) (VDict d).
Proof.
  intros Hall Hne Hpairs. split; [reflexivity|].
  intros [|fuel] rest Hf; [lia|].
  rewrite json_dumps_dict. change (lit "{") with [123%N]. change (lit "}") with [125%N].
  rewrite <- !app_assoc. cbn [app scan_once].
  change (123 =? 34)%N with false. change (123 =? 123)%N with true. cbv iota.
  assert (Hq : exists t, join (lit ", ") (map member_text d) ++ 125%N :: rest = 34%N :: t).
  { destruct d as [|[k x] d']; [congruence|].
    destruct d'; eexists; reflexivity. }
  destruct Hq as [t Ht].
  pose proof (@scan_members_ok n d Hall Hne fuel [] rest) as Hm.
  rewrite Ht in *. cbn [skip_ws]. change (is_ws 34) with false. cbv iota.
  change (34 =? 125)%N with false. cbv iota.
  rewrite Hm by lia. cbn [rmap fst snd rev app]. now rewrite Hpairs.
Qed.



Lemma parses_metadata (category encrypted_at key_version : str) :
  parses 6 (metadata_of category encrypted_at key_version).
Proof.
  apply (@parses_dict 1); [|discriminate|reflexivity].
  repeat (apply Forall_cons; [apply parses_str|]). apply Forall_nil.
Qed.

Lemma package_roundtrip (category encrypted_at key_version data : str) :
  let pkg := package_of (metadata_of category encrypted_at key_version) data in
  json_loads (json_dumps pkg) = Ok pkg.
Proof.
  intros pkg.
  assert (Hp : parses 9 pkg).
  { apply (@parses_dict 6); [|discriminate|reflexivity].
    apply Forall_cons; [apply parses_metadata|].
    apply Forall_cons; [apply (@parses_mono 1); [lia|apply parses_str]|].
    apply Forall_nil. }
  destruct Hp as [Hws Hscan].
  unfold json_loads.
  specialize (Hws []). specialize (Hscan (S (length (json_dumps pkg))) []).
  rewrite app_nil_r in Hws, Hscan. rewrite Hws, Hscan; [reflexivity|].
  assert (H9 : forall tail,
    9 <= S (length (lit "{" ++ json_quote (lit "metadata") ++ tail))).
  { intros tail. rewrite !length_app.
    change (length (lit "{")) with 1.
    change (length (json_quote (lit "metadata"))) with 10. lia. }
  unfold pkg, package_of. rewrite json_dumps_dict.
  cbn [map join member_text]. rewrite <- !app_assoc. apply H9.
Qed.

(** ** The small instance satisfies the laws *)

Lemma sample_digest_length (n : nat) (key data : bytes) : length (sample_digest n key data) = n.
Proof. unfold sample_digest. now rewrite length_map, length_seq. Qed.

Lemma sample_flip_involutive (b : byte) : sample_flip (sample_flip b) = b.
Proof.
  unfold sample_flip. pose proof (byte_val_lt b) as Hb.
  rewrite byte_val_of_N_small by lia.
  replace (255 - (255 - byte_val b))%N with (byte_val b) by lia.
  apply byte_of_N_val.
Qed.

Lemma sample_flip_map_involutive (data : bytes) : map sample_flip (map sample_flip data) = data.
Proof.
  induction data as [|b data IH]; [reflexivity|].
  cbn [map]. now rewrite sample_flip_involutive, IH.
Qed.

Lemma sample_externals_laws : ExternalsLaws sample_externals.
Proof.
  constructor; cbn [pbkdf2_hmac_sha256 hmac_sha256 aes_gcm_encrypt aes_gcm_decrypt
                    sample_externals fst snd]; intros.
  - apply sample_digest_length.
  - apply sample_digest_length.
  - apply sample_digest_length.
  - rewrite sample_flip_map_involutive, bytes_eqb_refl. reflexivity.
  - destruct (bytes_eqb _ _); [|discriminate].
    injection H as <-. apply length_map.
Qed.

(** ** Empty fields *)

(** C9. Empty-field short-circuit: [encrypt_field] of the empty string
    returns the empty string for every category, and [decrypt_field] of the
    empty string returns the empty string with [OTHER]; neither raises,
    draws randomness, reads the clock or calls a primitive (the world is
    left as it was). *)
Theorem empty_field_short_circuit (X : Externals) (self : PersonalDataEncryptor)
  (c : DataCategory) (w : world) :
  encrypt_field self [] c w = (Ok [], w)
  /\ decrypt_field self [] w = (Ok (VStr [], OTHER), w).
Proof. split; reflexivity. Qed.

(** ** Key derivation *)

(** C8. Key derivation is deterministic: whatever the state of the random
    source and of the clock, [_derive_keys] returns the same two keys for
    the same master secret, namely PBKDF2-HMAC-SHA256 of it with 100000
    iterations and the salts [encryption_salt] and [authentication_salt],
    32 bytes each; it draws no randomness and reads no clock. *)
Theorem key_derivation_deterministic (X : Externals) (HX : ExternalsLaws X)
  (master : bytes) (w1 w2 : world) :
  fst (_derive_keys master w1) = fst (_derive_keys master w2)
  /\ exists enc auth,
       fst (_derive_keys master w1) = Ok (enc, auth)
       /\ enc = pbkdf2_hmac_sha256 (blit "encryption_salt") 100000 32 master
       /\ auth = pbkdf2_hmac_sha256 (blit "authentication_salt") 100000 32 master
       /\ length enc = 32 /\ length auth = 32
       /\ drawn (snd (_derive_keys master w1)) = drawn w1
       /\ ticks (snd (_derive_keys master w1)) = ticks w1
       /\ trace (snd (_derive_keys master w1))
          = trace w1 ++ [EvPbkdf2 (blit "encryption_salt");
                         EvPbkdf2 (blit "authentication_salt")].
Proof.
  split; [reflexivity|].
  eexists _, _. split; [reflexivity|].
  repeat split; try apply pbkdf2_length.
  cbv [_derive_keys bind PBKDF2HMAC_derive log ret snd trace].
  now rewrite <- app_assoc.
Qed.

Lemma key_derivation_deterministic_witness :
  fst (_derive_keys (X := sample_externals) (blit "secret") sample_world)
  = fst (_derive_keys (X := sample_externals) (blit "secret")
           (mkWorld (entropy sample_world) 7 (clock sample_world) 3 [EvUtcnow]))
  /\ exists enc auth,
       fst (_derive_keys (X := sample_externals) (blit "secret") sample_world) = Ok (enc, auth)
       /\ length enc = 32 /\ length auth = 32.
Proof.
  destruct (@key_derivation_deterministic sample_externals sample_externals_laws
              (blit "secret") sample_world
              (mkWorld (entropy sample_world) 7 (clock sample_world) 3 [EvUtcnow]))
    as [H1 (enc & auth & H2 & _ & _ & H3 & H4 & _)].
  split; [exact H1|]. exists enc, auth. auto.
Defined.

(** ** Construction *)

(** C7, at the inputs where the code and its documentation part.  The
    constructor compares the number of characters of the master key with
    32: a key of 32 Cyrillic letters, 64 bytes in UTF-8, is accepted, and
    a key of 16 such letters, exactly 32 bytes, is refused with
    [ValueError]. *)
Theorem init_counts_characters_not_bytes (X : Externals) (w : world) :
  let long_key := repeat 0x44F%N 32 in
  let short_key := repeat 0x44F%N 16 in
  (rmap (@length byte) (utf8_encode long_key) = Ok 64
   /\ exists self w', __init__ long_key 90 w = (Ok self, w'))
  /\ (rmap (@length byte) (utf8_encode short_key) = Ok 32
      /\ __init__ short_key 90 w = (Raise ValueError, w)).
Proof.
  cbv zeta. split; split; try reflexivity.
  eexists _, _. reflexivity.
Qed.

(** ** [decrypt_field], step by step *)

Lemma decrypt_field_steps (X : Externals) (self : PersonalDataEncryptor)
  (text : str) (raw combined : bytes) (w : world) :
  text <> [] ->
  utf8_encode text = Ok raw ->
  urlsafe_b64decode raw = Ok combined ->
  let w1 := add_event (EvHmac (authenticated_of combined)) w in
  let w2 := add_event (EvAesGcmDecrypt (iv_of combined) (tag_of combined)) w1 in
  decrypt_field self text w =
  if bytes_eqb (hmac_sha256 (auth_key self) (authenticated_of combined))
               (digest_of combined)
  then
    match Cipher_AES_GCM (encryption_key self) (iv_of combined) (Some (tag_of combined)) with
    | Raise e => (Raise (decrypt_error e), w1)
    | Ok _ =>
        match aes_gcm_decrypt (encryption_key self) (iv_of combined) (tag_of combined)
                (ciphertext_of combined) with
        | None => (Raise SecurityError, w2)
        | Some plain =>
            (match open_package plain with
             | Ok r => Ok r
             | Raise e => Raise (decrypt_error e)
             end, w2)
        end
    end
  else (Raise SecurityError, w1).
Proof.
  intros Hne Hraw Hcomb w1 w2.
  destruct text as [|c0 t0]; [congruence|].
  cbv [decrypt_field try_except bind lift HMAC_verify log ret raise].
  rewrite Hraw, Hcomb.
  fold (iv_of combined) (tag_of combined) (digest_of combined) (ciphertext_of combined).
  fold (authenticated_of combined).
  fold (add_event (EvHmac (authenticated_of combined)) w). fold w1.
  destruct (bytes_eqb _ _); [|reflexivity].
  unfold Cipher_AES_GCM.
  destruct (negb (valid_aes_key (encryption_key self))); [reflexivity|].
  destruct (negb (valid_gcm_iv (iv_of combined))); [reflexivity|].
  destruct (length (tag_of combined) <? 16); [reflexivity|].
  cbv [decryptor_run cipher_tag cipher_iv cipher_key bind log ret raise].
  fold (add_event (EvAesGcmDecrypt (iv_of combined) (tag_of combined)) w1). fold w2.
  destruct (aes_gcm_decrypt _ _ _ _) as [plain|]; [|reflexivity].
  unfold open_package.
  destruct (utf8_decode plain) as [text|e]; [|destruct e; reflexivity]. cbn [rbind].
  destruct (json_loads text) as [pkg|e]; [|destruct e; reflexivity]. cbn [rbind].
  destruct (py_get pkg _ _) as [metadata|e]; [|destruct e; reflexivity]. cbn [rbind].
  destruct (py_get metadata _ _) as [cat|e]; [|destruct e; reflexivity]. cbn [rbind].
  destruct (DataCategory_of_value cat) as [dc|e]; [|destruct e; reflexivity]. cbn [rbind].
  destruct (py_getitem pkg _) as [data|e]; [reflexivity|destruct e; reflexivity].
Qed.

Lemma sample_encryptor_init :
  fst (__init__ (X := sample_externals) sample_master_key 90 sample_world) = Ok sample_encryptor.
Proof. vm_compute. reflexivity. Qed.

Lemma decrypt_error_cases (e : exn) :
  decrypt_error e = SecurityError \/ decrypt_error e = DecryptionError.
Proof. destruct e; cbn; auto. Qed.

(** ** Order of the checks in [decrypt_field] *)

(** C4. The HMAC is verified before any AES-GCM decryption: for every
    input that decodes and whose recomputed HMAC over IV, ciphertext and
    tag differs from the stored one, [decrypt_field] raises
    [SecurityError] having called nothing but the HMAC (no AES-GCM
    decryption is in the trace that was not there before); and on every
    input that decodes, the calls made are the HMAC alone or the HMAC
    followed by one AES-GCM decryption. *)
Theorem hmac_verified_before_decryption (X : Externals) (self : PersonalDataEncryptor)
  (text : str) (raw combined : bytes) (w : world) :
  text <> [] ->
  utf8_encode text = Ok raw ->
  urlsafe_b64decode raw = Ok combined ->
  let hmac_event := EvHmac (authenticated_of combined) in
  let aead_event := EvAesGcmDecrypt (iv_of combined) (tag_of combined) in
  (hmac_sha256 (auth_key self) (authenticated_of combined) <> digest_of combined ->
   decrypt_field self text w = (Raise SecurityError, add_event hmac_event w)
   /\ forall iv tag,
        In (EvAesGcmDecrypt iv tag) (trace (snd (decrypt_field self text w))) ->
        In (EvAesGcmDecrypt iv tag) (trace w))
  /\ (trace (snd (decrypt_field self text w)) = trace w ++ [hmac_event]
      \/ trace (snd (decrypt_field self text w)) = trace w ++ [hmac_event; aead_event]).
Proof.
  intros Hne Hraw Hcomb hmac_event aead_event.
  rewrite (@decrypt_field_steps X self text raw combined w Hne Hraw Hcomb).
  fold hmac_event aead_event.
  split.
  - intros Hmac. apply bytes_eqb_neq in Hmac. rewrite Hmac.
    split; [reflexivity|].
    intros iv tag Hin. cbn [snd add_event trace] in Hin.
    apply in_app_or in Hin. destruct Hin as [Hin|[Hin|[]]]; [exact Hin|].
    unfold hmac_event in Hin. discriminate.
  - destruct (bytes_eqb _ _); [|left; reflexivity].
    destruct (Cipher_AES_GCM _ _ _); [|left; reflexivity].
    destruct (aes_gcm_decrypt _ _ _ _); right; cbn [snd add_event trace];
      now rewrite <- app_assoc.
Qed.

Lemma hmac_verified_before_decryption_witness :
  decrypt_field (X := sample_externals) sample_encryptor (lit "QUJD") sample_world
  = (Raise SecurityError, add_event (EvHmac (blit "ABC")) sample_world).
Proof.
  assert (Hne : lit "QUJD" <> []) by discriminate.
  assert (Hraw : utf8_encode (lit "QUJD") = Ok (blit "QUJD")) by reflexivity.
  assert (Hcomb : urlsafe_b64decode (blit "QUJD") = Ok (blit "ABC")) by reflexivity.
  destruct (@hmac_verified_before_decryption sample_externals sample_encryptor
              (lit "QUJD") (blit "QUJD") (blit "ABC") sample_world Hne Hraw Hcomb)
    as [H _].
  apply H. vm_compute. discriminate.
Defined.

(** ** Inputs shorter than an envelope *)

(** C3 as the specification states it fails: [decrypt_field] has no length
    check, and a three-byte input goes through the HMAC computation. *)
Lemma short_input_not_rejected_unprocessed :
  ~ (forall (X : Externals) (self : PersonalDataEncryptor) (text : str)
            (raw combined : bytes) (w : world),
       text <> [] ->
       utf8_encode text = Ok raw ->
       urlsafe_b64decode raw = Ok combined ->
       length combined < 60 ->
       fst (decrypt_field self text w) = Raise SecurityError
       /\ trace (snd (decrypt_field self text w)) = trace w).
Proof.
  intros H.
  destruct (H sample_externals sample_encryptor (lit "QUJD") (blit "QUJD") (blit "ABC") sample_world)
    as [_ Htrace].
  - discriminate.
  - reflexivity.
  - reflexivity.
  - cbn. lia.
  - vm_compute in Htrace. discriminate.
Qed.

(** C3, amended.  For every non-empty input whose decoded length is below
    60 bytes, [decrypt_field] first computes the HMAC over the bytes it
    sliced, and then fails: it raises [SecurityError] or [DecryptionError]
    and never returns a value; below 32 bytes the error is
    [SecurityError]. *)
Theorem short_input_fails_after_hmac (X : Externals) (HX : ExternalsLaws X)
  (self : PersonalDataEncryptor) (text : str) (raw combined : bytes) (w : world) :
  text <> [] ->
  utf8_encode text = Ok raw ->
  urlsafe_b64decode raw = Ok combined ->
  length combined < 60 ->
  (exists e, fst (decrypt_field self text w) = Raise e
             /\ (e = SecurityError \/ e = DecryptionError))
  /\ (exists rest, trace (snd (decrypt_field self text w))
                   = trace w ++ EvHmac (authenticated_of combined) :: rest)
  /\ (length combined < 32 -> fst (decrypt_field self text w) = Raise SecurityError).
Proof.
  intros Hne Hraw Hcomb Hlen.
  rewrite (@decrypt_field_steps X self text raw combined w Hne Hraw Hcomb).
  destruct (bytes_eqb _ _) eqn:Hmac.
  - assert (H32 : 32 <= length combined).
    { apply bytes_eqb_eq in Hmac.
      pose proof (slice_length_le (Some (-32)%Z) None combined) as Hle.
      fold (digest_of combined) in Hle. rewrite <- Hmac, hmac_length in Hle. exact Hle. }
    destruct (Cipher_AES_GCM _ _ _) as [c|e].
    + destruct (aes_gcm_decrypt _ _ _ _) as [plain|] eqn:Hdec.
      * apply gcm_decrypt_length in Hdec.
        unfold ciphertext_of in Hdec. rewrite slice_short_ciphertext in Hdec by exact Hlen.
        destruct plain; [|discriminate].
        split; [|split].
        -- exists DecryptionError. split; [reflexivity|now right].
        -- eexists. cbn [snd add_event trace]. now rewrite <- app_assoc.
        -- lia.
      * split; [|split].
        -- exists SecurityError. split; [reflexivity|now left].
        -- eexists. cbn [snd add_event trace]. now rewrite <- app_assoc.
        -- reflexivity.
    + split; [|split].
      * exists (decrypt_error e). split; [reflexivity|apply decrypt_error_cases].
      * eexists. reflexivity.
      * lia.
  - split; [|split].
    + exists SecurityError. split; [reflexivity|now left].
    + eexists. reflexivity.
    + reflexivity.
Qed.

Lemma short_input_fails_after_hmac_witness :
  (exists e, fst (decrypt_field (X := sample_externals) sample_encryptor (lit "QUJD") sample_world)
             = Raise e /\ (e = SecurityError \/ e = DecryptionError))
  /\ (exists rest,
        trace (snd (decrypt_field (X := sample_externals) sample_encryptor (lit "QUJD") sample_world))
        = trace sample_world ++ EvHmac (authenticated_of (blit "ABC")) :: rest).
Proof.
  assert (Hne : lit "QUJD" <> []) by discriminate.
  assert (Hraw : utf8_encode (lit "QUJD") = Ok (blit "QUJD")) by reflexivity.
  assert (Hcomb : urlsafe_b64decode (blit "QUJD") = Ok (blit "ABC")) by reflexivity.
  assert (Hlen : length (blit "ABC") < 60) by (cbn; lia).
  destruct (@short_input_fails_after_hmac sample_externals sample_externals_laws sample_encryptor
              (lit "QUJD") (blit "QUJD") (blit "ABC") sample_world Hne Hraw Hcomb Hlen)
    as (H1 & H2 & _).
  split; assumption.
Defined.

(** ** [encrypt_field], step by step *)

Lemma encrypt_field_steps (X : Externals) (self : PersonalDataEncryptor)
  (plain_text : str) (data_category : DataCategory) (w : world) :
  plain_text <> [] ->
  let iv := map (entropy w) (seq (drawn w) 12) in
  let now1 := clock w (ticks w) in
  let now2 := clock w (S (ticks w)) in
  let w1 := after_urandom 12 w in
  let w3 := after_utcnow (after_utcnow w1) in
  let ct := aes_gcm_encrypt (encryption_key self) iv in
  encrypt_field self plain_text data_category w =
  match Cipher_AES_GCM (encryption_key self) iv None with
  | Raise _ => (Raise EncryptionError, w1)
  | Ok _ =>
      if (key_rotation_days self =? 0)%Z then (Raise EncryptionError, w3)
      else
        match utf8_encode (json_dumps (package_at self plain_text data_category now1 now2)) with
        | Raise _ => (Raise EncryptionError, w3)
        | Ok plain =>
            let w5 := add_event (EvHmac (iv ++ fst (ct plain) ++ snd (ct plain)))
                        (add_event (EvAesGcmEncrypt iv) w3) in
            match utf8_decode (urlsafe_b64encode (envelope_bytes self iv plain)) with
            | Ok env => (Ok env, w5)
            | Raise _ => (Raise EncryptionError, w5)
            end
        end
  end.
Proof.
  intros Hne iv now1 now2 w1 w3 ct.
  destruct plain_text as [|c0 t0]; [congruence|].
  cbv [encrypt_field try_except bind lift os_urandom log ret raise].
  fold iv. fold (after_urandom 12 w). fold w1.
  unfold Cipher_AES_GCM.
  destruct (negb (valid_aes_key (encryption_key self))); [reflexivity|].
  destruct (negb (valid_gcm_iv iv)); [reflexivity|].
  cbv [_create_metadata _get_current_key_version utcnow bind ret raise
       encryptor_run HMAC_finalize log cipher_iv cipher_key].
  cbn [clock ticks entropy drawn trace w1 after_urandom].
  fold now1 now2.
  destruct (key_rotation_days self =? 0)%Z; [reflexivity|].
  fold (key_version_at self now2).
  fold (metadata_of (category_value data_category) (isoformat now1) (key_version_at self now2)).
  fold (package_of (metadata_of (category_value data_category) (isoformat now1)
                                (key_version_at self now2)) (c0 :: t0)).
  fold (package_at self (c0 :: t0) data_category now1 now2).
  destruct (utf8_encode _) as [plain|e]; [|reflexivity].
  fold (ct plain). fold (envelope_bytes self iv plain).
  destruct (utf8_decode _); reflexivity.
Qed.

(** ** What [str.encode('utf-8')] accepts *)

Lemma encodable_app (a b : str) : encodable (a ++ b) = encodable a && encodable b.
Proof. apply forallb_app. Qed.

Lemma is_ascii_scalar (c : N) : is_ascii c = true -> is_scalar c = true.
Proof.
  unfold is_ascii, is_scalar, is_surrogate. intros H. apply N.ltb_lt in H.
  apply andb_true_intro. split.
  - apply N.ltb_lt. lia.
  - apply negb_true_iff, andb_false_iff. left. apply N.leb_gt. lia.
Qed.

Lemma ascii_encodable (s : str) : forallb is_ascii s = true -> encodable s = true.
Proof.
  unfold encodable. rewrite !forallb_forall. intros H c Hc.
  apply is_ascii_scalar. now apply H.
Qed.

Lemma utf8_encode_char_scalar (c : N) :
  is_scalar c = true -> exists bs, utf8_encode_char c = Ok bs.
Proof.
  unfold is_scalar, utf8_encode_char. intros H.
  apply andb_prop in H. destruct H as [H1 H2]. apply negb_true_iff in H2.
  rewrite H2, H1.
  destruct (c <? 128)%N; [eexists; reflexivity|].
  destruct (c <? 2048)%N; [eexists; reflexivity|].
  destruct (c <? 65536)%N; eexists; reflexivity.
Qed.

Lemma utf8_encode_encodable (s : str) :
  encodable s = true -> exists b, utf8_encode s = Ok b.
Proof.
  induction s as [|c s IH]; [now exists []|].
  cbn [encodable forallb]. intros H. apply andb_prop in H. destruct H as [Hc Hs].
  destruct (utf8_encode_char_scalar c Hc) as [bs Hbs].
  destruct (IH Hs) as [b Hb].
  exists (bs ++ b). cbn [utf8_encode]. rewrite Hbs. cbn [rbind]. now rewrite Hb.
Qed.

Lemma utf8_encode_not_encodable (s : str) :
  encodable s = false -> utf8_encode s = Raise UnicodeEncodeError.
Proof.
  induction s as [|c s IH]; [discriminate|].
  cbn [encodable forallb utf8_encode]. intros H.
  destruct (is_scalar c) eqn:Hc.
  - destruct (utf8_encode_char_scalar c Hc) as [bs Hbs]. rewrite Hbs. cbn [rbind].
    cbn [andb] in H. now rewrite (IH H).
  - unfold is_scalar in Hc. unfold utf8_encode_char.
    destruct (is_surrogate c) eqn:Hs.
    + unfold is_surrogate in Hs. apply andb_prop in Hs. destruct Hs as [Hs1 Hs2].
      apply N.leb_le in Hs1.
      replace (c <? 128)%N with false by (symmetry; apply N.ltb_ge; lia).
      replace (c <? 2048)%N with false by (symmetry; apply N.ltb_ge; lia).
      reflexivity.
    + cbn [negb] in Hc. rewrite andb_true_r in Hc. apply N.ltb_ge in Hc.
      replace (c <? 128)%N with false by (symmetry; apply N.ltb_ge; lia).
      replace (c <? 2048)%N with false by (symmetry; apply N.ltb_ge; lia).
      replace (c <? 65536)%N with false by (symmetry; apply N.ltb_ge; lia).
      replace (c <? 1114112)%N with false by (symmetry; apply N.ltb_ge; lia).
      reflexivity.
Qed.

Lemma uint_text_ascii (d : Decimal.uint) :
  forallb is_ascii (lit (NilEmpty.string_of_uint d)) = true.
Proof. induction d; cbn; auto. Qed.

Lemma str_of_Z_ascii (z : Z) : forallb is_ascii (str_of_Z z) = true.
Proof.
  unfold str_of_Z, NilZero.string_of_int.
  destruct (Z.to_int z) as [d|d]; unfold NilZero.string_of_uint.
  - destruct d; try apply uint_text_ascii. reflexivity.
  - change (lit (String "-" ?s)) with (45%N :: lit s).
    cbn [forallb]. destruct d; try apply uint_text_ascii. reflexivity.
Qed.

Lemma zero_pad_ascii (n : nat) (z : Z) : forallb is_ascii (zero_pad n z) = true.
Proof.
  unfold zero_pad. rewrite forallb_app, str_of_Z_ascii, andb_true_r.
  induction (n - length (str_of_Z z)); [reflexivity|]. cbn [repeat forallb]. exact IHn0.
Qed.

Lemma isoformat_ascii (d : datetime) : forallb is_ascii (isoformat d) = true.
Proof.
  unfold isoformat. rewrite !forallb_app, !zero_pad_ascii.
  destruct (microsecond d =? 0)%Z; [reflexivity|].
  now rewrite forallb_app, zero_pad_ascii.
Qed.

Lemma category_value_ascii (c : DataCategory) : forallb is_ascii (category_value c) = true.
Proof. destruct c; reflexivity. Qed.

Lemma key_version_ascii (self : PersonalDataEncryptor) (now : datetime) :
  forallb is_ascii (key_version_at self now) = true.
Proof. unfold key_version_at. now rewrite forallb_app, str_of_Z_ascii. Qed.

Lemma low_escapes_encodable :
  forallb (fun c => encodable (json_escape_char c)) (map N.of_nat (seq 0 93)) = true.
Proof. vm_compute. reflexivity. Qed.

Lemma json_escape_encodable (c : N) :
  is_scalar c = true -> encodable (json_escape_char c) = true.
Proof.
  intros Hc. destruct (N.ltb_spec c 93) as [Hlt|Hge].
  - pose proof low_escapes_encodable as H. rewrite forallb_forall in H.
    apply H. apply in_map_iff. exists (N.to_nat c). split; [apply N2Nat.id|].
    apply in_seq. lia.
  - unfold json_escape_char.
    replace (c =? 92)%N with false by (symmetry; apply N.eqb_neq; lia).
    replace (c =? 34)%N with false by (symmetry; apply N.eqb_neq; lia).
    replace (c =? 8)%N with false by (symmetry; apply N.eqb_neq; lia).
    replace (c =? 12)%N with false by (symmetry; apply N.eqb_neq; lia).
    replace (c =? 10)%N with false by (symmetry; apply N.eqb_neq; lia).
    replace (c =? 13)%N with false by (symmetry; apply N.eqb_neq; lia).
    replace (c =? 9)%N with false by (symmetry; apply N.eqb_neq; lia).
    replace (c <? 32)%N with false by (symmetry; apply N.ltb_ge; lia).
    cbn [encodable forallb]. now rewrite Hc.
Qed.

Lemma json_quote_encodable (s : str) :
  encodable s = true -> encodable (json_quote s) = true.
Proof.
  intros Hs. unfold json_quote.
  change (34%N :: flat_map json_escape_char s ++ [34%N])
    with ([34%N] ++ flat_map json_escape_char s ++ [34%N]).
  rewrite !encodable_app.
  assert (H : encodable (flat_map json_escape_char s) = true).
  { induction s as [|c s IH]; [reflexivity|].
    cbn [encodable forallb] in Hs. apply andb_prop in Hs. destruct Hs as [Hc Hs].
    cbn [flat_map]. rewrite encodable_app, (json_escape_encodable c Hc). now apply IH. }
  now rewrite H.
Qed.

Lemma package_encodable (self : PersonalDataEncryptor) (s : str) (c : DataCategory)
  (now1 now2 : datetime) :
  encodable s = true ->
  encodable (json_dumps (package_at self s c now1 now2)) = true.
Proof.
  intros Hs.
  unfold package_at, package_of, metadata_of.
  rewrite json_dumps_dict. cbn [map join member_text].
  rewrite json_dumps_dict. cbn [map join member_text json_dumps].
  rewrite !encodable_app.
  rewrite (json_quote_encodable s Hs).
  rewrite (json_quote_encodable _ (ascii_encodable _ (category_value_ascii c))).
  rewrite (json_quote_encodable _ (ascii_encodable _ (isoformat_ascii now1))).
  rewrite (json_quote_encodable _ (ascii_encodable _ (key_version_ascii self now2))).
  reflexivity.
Qed.

(** ** Decrypting an envelope *)

Lemma envelope_parts (X : Externals) (HX : ExternalsLaws X)
  (self : PersonalDataEncryptor) (iv plain : bytes) :
  length iv = 12 ->
  let ct := aes_gcm_encrypt (encryption_key self) iv plain in
  let combined := envelope_bytes self iv plain in
  iv_of combined = iv
  /\ tag_of combined = snd ct
  /\ digest_of combined = hmac_sha256 (auth_key self) (iv ++ fst ct ++ snd ct)
  /\ ciphertext_of combined = fst ct
  /\ authenticated_of combined = iv ++ fst ct ++ snd ct
  /\ 60 <= length combined.
Proof.
  intros Hiv ct combined.
  destruct (@slice_envelope iv (fst ct) (snd ct)
              (hmac_sha256 (auth_key self) (iv ++ fst ct ++ snd ct)))
    as (H1 & H2 & H3 & H4);
    [exact Hiv | apply gcm_tag_length | apply hmac_length |].
  unfold iv_of, tag_of, digest_of, ciphertext_of, authenticated_of, iv_of, tag_of,
    ciphertext_of.
  unfold combined, envelope_bytes. fold ct.
  rewrite H1, H2, H3, H4. repeat split.
  rewrite !length_app, Hiv. unfold ct at 2. rewrite gcm_tag_length, hmac_length. lia.
Qed.

Lemma decrypt_envelope (X : Externals) (HX : ExternalsLaws X)
  (self : PersonalDataEncryptor) (iv plain : bytes) (env : str) (w : world) :
  valid_aes_key (encryption_key self) = true ->
  length iv = 12 ->
  utf8_decode (urlsafe_b64encode (envelope_bytes self iv plain)) = Ok env ->
  fst (decrypt_field self env w) =
  match open_package plain with
  | Ok r => Ok r
  | Raise e => Raise (decrypt_error e)
  end.
Proof.
  intros Hkey Hiv Henv.
  set (combined := envelope_bytes self iv plain) in *.
  destruct (envelope_text_roundtrip combined) as (text & Hdec & Henc & Hne).
  rewrite Hdec in Henv. injection Henv as <-.
  destruct (@envelope_parts X HX self iv plain Hiv) as (Piv & Ptag & Pdig & Pct & Pauth & Plen).
  fold combined in Piv, Ptag, Pdig, Pct, Pauth, Plen.
  assert (Hne' : text <> []).
  { apply Hne. intros Hnil. rewrite Hnil in Plen. cbn in Plen. lia. }
  rewrite (@decrypt_field_steps X self text (urlsafe_b64encode combined) combined w
             Hne' Henc (urlsafe_b64_roundtrip combined)).
  rewrite Pauth, Pdig, bytes_eqb_refl, Piv, Ptag, Pct.
  unfold Cipher_AES_GCM. rewrite Hkey. cbn [negb].
  unfold valid_gcm_iv. rewrite Hiv. cbn [Nat.leb andb negb].
  rewrite gcm_tag_length. cbn [Nat.ltb Nat.leb].
  rewrite gcm_decrypt_encrypt. reflexivity.
Qed.

Lemma DataCategory_of_value_category (c : DataCategory) :
  DataCategory_of_value (VStr (category_value c)) = Ok c.
Proof. destruct c; reflexivity. Qed.

Lemma open_package_at (self : PersonalDataEncryptor) (s : str) (c : DataCategory)
  (now1 now2 : datetime) (plain : bytes) :
  utf8_encode (json_dumps (package_at self s c now1 now2)) = Ok plain ->
  open_package plain = Ok (VStr s, c).
Proof.
  intros Hplain. unfold open_package.
  rewrite (utf8_roundtrip _ Hplain). cbn [rbind].
  unfold package_at. rewrite package_roundtrip. cbn [rbind].
  unfold package_of, metadata_of.
  change (py_get (VDict ?d) ?k ?dflt)
    with (Ok (match dict_get k d with Some v => v | None => dflt end)).
  cbn [rbind py_get].
  change (dict_get (lit "metadata") ((lit "metadata", ?m) :: ?t)) with (Some m).
  cbv iota. cbn [rbind py_get].
  change (dict_get (lit "category") ((lit "category", ?m) :: ?t)) with (Some m).
  cbv iota. rewrite DataCategory_of_value_category. cbn [rbind].
  reflexivity.
Qed.

(** ** Encryptors built by the constructor *)

Lemma init_inv (X : Externals) (HX : ExternalsLaws X) (master_key_text : str) (days : Z)
  (w0 w0' : world) (self : PersonalDataEncryptor) :
  __init__ master_key_text days w0 = (Ok self, w0') ->
  length master_key_text = 32
  /\ utf8_encode master_key_text = Ok (master_key self)
  /\ key_rotation_days self = days
  /\ encryption_key self
     = pbkdf2_hmac_sha256 (blit "encryption_salt") 100000 32 (master_key self)
  /\ auth_key self
     = pbkdf2_hmac_sha256 (blit "authentication_salt") 100000 32 (master_key self)
  /\ valid_aes_key (encryption_key self) = true.
Proof.
  unfold __init__.
  destruct (Nat.eqb (length master_key_text) 32) eqn:Hlen; cbn [negb];
    [|cbv [raise]; discriminate].
  apply Nat.eqb_eq in Hlen.
  cbv [bind lift _derive_keys PBKDF2HMAC_derive log ret fst snd].
  destruct (utf8_encode master_key_text) as [master|e]; [|discriminate].
  intros H. injection H as <- _.
  cbn [master_key key_rotation_days encryption_key auth_key].
  repeat split; try assumption.
  unfold valid_aes_key. now rewrite pbkdf2_length.
Qed.

(** ** Round trip of a field *)

(** C1. Round trip: for an encryptor built by the constructor, every
    non-empty string [s] and every category [c], whatever the random source
    and the clock deliver: every envelope [encrypt_field] returns for
    [(s, c)] is decrypted by [decrypt_field] to the pair [(s, c)]; and
    [encrypt_field] does return an envelope when [s] is text UTF-8 can
    encode and the rotation period is not zero. *)
Theorem field_round_trip (X : Externals) (HX : ExternalsLaws X)
  (master_key_text : str) (days : Z) (w0 w0' : world) (self : PersonalDataEncryptor)
  (s : str) (c : DataCategory) (w : world) :
  __init__ master_key_text days w0 = (Ok self, w0') ->
  s <> [] ->
  (forall env w' w2,
     encrypt_field self s c w = (Ok env, w') ->
     fst (decrypt_field self env w2) = Ok (VStr s, c))
  /\ (encodable s = true -> days <> 0%Z ->
      exists env w', encrypt_field self s c w = (Ok env, w')).
Proof.
  intros Hinit Hs.
  destruct (@init_inv X HX _ _ _ _ _ Hinit) as (_ & _ & Hdays & _ & _ & Hkey).
  set (iv := map (entropy w) (seq (drawn w) 12)).
  assert (Hiv : length iv = 12) by (unfold iv; now rewrite length_map, length_seq).
  rewrite (@encrypt_field_steps X self s c w Hs). fold iv.
  split.
  - intros env w' w2.
    destruct (Cipher_AES_GCM _ _ _); [|discriminate].
    destruct (key_rotation_days self =? 0)%Z; [discriminate|].
    destruct (utf8_encode _) as [plain|] eqn:Hplain; [|discriminate].
    destruct (utf8_decode _) as [env'|] eqn:Henv; [|discriminate].
    intros H. injection H as <- _.
    rewrite (@decrypt_envelope X HX self iv plain env' w2 Hkey Hiv Henv).
    now rewrite (@open_package_at self s c _ _ plain Hplain).
  - intros Henc Hd.
    unfold Cipher_AES_GCM. rewrite Hkey. cbn [negb].
    unfold valid_gcm_iv. rewrite Hiv. cbn [Nat.leb andb negb].
    rewrite Hdays. apply Z.eqb_neq in Hd. rewrite Hd.
    destruct (@utf8_encode_encodable _
                (@package_encodable self s c (clock w (ticks w)) (clock w (S (ticks w))) Henc))
      as [plain Hplain].
    rewrite Hplain.
    destruct (envelope_text_roundtrip (envelope_bytes self iv plain)) as (text & Hdec & _).
    rewrite Hdec. eexists _, _. reflexivity.
Qed.

Lemma field_round_trip_witness :
  exists env w',
    encrypt_field (X := sample_externals) sample_encryptor (lit "Ivanov") FIO sample_world
    = (Ok env, w')
    /\ fst (decrypt_field (X := sample_externals) sample_encryptor env sample_world)
       = Ok (VStr (lit "Ivanov"), FIO).
Proof.
  assert (Hinit : __init__ (X := sample_externals) sample_master_key 90 sample_world
                  = (Ok sample_encryptor,
                     snd (__init__ (X := sample_externals) sample_master_key 90 sample_world)))
    by (vm_compute; reflexivity).
  assert (Hs : lit "Ivanov" <> []) by discriminate.
  destruct (@field_round_trip sample_externals sample_externals_laws sample_master_key 90
              sample_world _ sample_encryptor (lit "Ivanov") FIO sample_world Hinit Hs)
    as [Hrt Hret].
  destruct Hret as (env & w' & Henc); [reflexivity | lia |].
  exists env, w'. split; [exact Henc|].
  exact (Hrt env w' sample_world Henc).
Defined.

(** ** Text that UTF-8 cannot encode *)

Lemma json_escape_not_scalar (c : N) :
  is_scalar c = false -> json_escape_char c = [c].
Proof.
  intros Hc.
  assert (Hbig : (0xD800 <= c)%N).
  { unfold is_scalar, is_surrogate in Hc.
    destruct (N.le_gt_cases 0xD800 c) as [H|H]; [exact H|].
    replace (c <? 1114112)%N with true in Hc by (symmetry; apply N.ltb_lt; lia).
    replace (55296 <=? c)%N with false in Hc by (symmetry; apply N.leb_gt; lia).
    discriminate. }
  unfold json_escape_char.
  replace (c =? 92)%N with false by (symmetry; apply N.eqb_neq; lia).
  replace (c =? 34)%N with false by (symmetry; apply N.eqb_neq; lia).
  replace (c =? 8)%N with false by (symmetry; apply N.eqb_neq; lia).
  replace (c =? 12)%N with false by (symmetry; apply N.eqb_neq; lia).
  replace (c =? 10)%N with false by (symmetry; apply N.eqb_neq; lia).
  replace (c =? 13)%N with false by (symmetry; apply N.eqb_neq; lia).
  replace (c =? 9)%N with false by (symmetry; apply N.eqb_neq; lia).
  replace (c <? 32)%N with false by (symmetry; apply N.ltb_ge; lia).
  reflexivity.
Qed.

Lemma json_quote_not_encodable (s : str) :
  encodable s = false -> encodable (json_quote s) = false.
Proof.
  intros Hs. unfold json_quote.
  change (34%N :: flat_map json_escape_char s ++ [34%N])
    with ([34%N] ++ flat_map json_escape_char s ++ [34%N]).
  rewrite !encodable_app.
  assert (H : encodable (flat_map json_escape_char s) = false).
  { induction s as [|c s IH]; [discriminate|].
    cbn [encodable forallb] in Hs. cbn [flat_map]. rewrite encodable_app.
    destruct (is_scalar c) eqn:Hc.
    - cbn [andb] in Hs. rewrite (IH Hs). apply andb_false_r.
    - rewrite (json_escape_not_scalar c Hc). cbn [encodable forallb].
      now rewrite Hc. }
  rewrite H. cbn [andb]. apply andb_false_r.
Qed.

(** [encrypt_field] has no envelope for a non-empty string that holds a
    lone surrogate: [json.dumps] writes the surrogate as it is and
    [str.encode] refuses it. *)
Lemma encrypt_field_unencodable (X : Externals) (self : PersonalDataEncryptor) (s : str)
  (c : DataCategory) (w : world) :
  s <> [] -> encodable s = false ->
  fst (encrypt_field self s c w) = Raise EncryptionError.
Proof.
  intros Hs Henc. rewrite (@encrypt_field_steps X self s c w Hs).
  destruct (Cipher_AES_GCM _ _ _); [|reflexivity].
  destruct (key_rotation_days self =? 0)%Z; [reflexivity|].
  assert (Hpkg : encodable (json_dumps (package_at self s c (clock w (ticks w))
                                                  (clock w (S (ticks w))))) = false).
  { unfold package_at, package_of, metadata_of.
    rewrite json_dumps_dict. cbn [map join member_text].
    rewrite json_dumps_dict. cbn [map join member_text json_dumps].
    rewrite !encodable_app. rewrite (json_quote_not_encodable s Henc).
    rewrite ?andb_false_r, ?andb_false_l. reflexivity. }
  now rewrite (utf8_encode_not_encodable _ Hpkg).
Qed.

Example encrypt_field_lone_surrogate :
  fst (encrypt_field (X := sample_externals) sample_encryptor [0xD800%N] FIO sample_world)
  = Raise EncryptionError.
Proof. apply encrypt_field_unencodable; [discriminate|reflexivity]. Qed.

(** ** Changing one byte of an envelope *)

Lemma set_byte_length (i : nat) (b : byte) (l : bytes) :
  i < length l -> length (set_byte i b l) = length l.
Proof.
  intros Hi. unfold set_byte.
  rewrite length_app, length_firstn. cbn [length]. rewrite length_skipn. lia.
Qed.

Lemma set_byte_nth (i : nat) (b : byte) (l : bytes) :
  i < length l -> nth i (set_byte i b l) x00 = b.
Proof.
  intros Hi. unfold set_byte.
  rewrite app_nth2; rewrite length_firstn; [|lia].
  replace (i - Nat.min i (length l)) with 0 by lia. reflexivity.
Qed.

Lemma set_byte_firstn (i k : nat) (b : byte) (l : bytes) :
  k <= i -> i < length l -> firstn k (set_byte i b l) = firstn k l.
Proof.
  intros Hk Hi. unfold set_byte.
  rewrite firstn_app, length_firstn.
  replace (k - Nat.min i (length l)) with 0 by lia.
  cbn [firstn]. rewrite app_nil_r, firstn_firstn. f_equal. lia.
Qed.

Lemma set_byte_skipn (i k : nat) (b : byte) (l : bytes) :
  i < k -> i < length l -> skipn k (set_byte i b l) = skipn k l.
Proof.
  intros Hk Hi. unfold set_byte.
  rewrite skipn_app, length_firstn.
  rewrite (skipn_all2 (firstn i l)) by (rewrite length_firstn; lia).
  replace (k - Nat.min i (length l)) with (S (k - S i)) by lia.
  rewrite app_nil_l, skipn_cons, skipn_skipn. f_equal. lia.
Qed.

Lemma set_byte_firstn_changed (i k : nat) (b : byte) (l : bytes) :
  i < k -> i < length l -> nth i l x00 <> b ->
  firstn k (set_byte i b l) <> firstn k l.
Proof.
  intros Hk Hi Hb Heq.
  assert (H : nth i (firstn k (set_byte i b l)) x00 = nth i (firstn k l) x00)
    by now rewrite Heq.
  rewrite !nth_firstn in H.
  apply Nat.ltb_lt in Hk. rewrite Hk in H.
  rewrite set_byte_nth in H by exact Hi. congruence.
Qed.

Lemma set_byte_skipn_changed (i k : nat) (b : byte) (l : bytes) :
  k <= i -> i < length l -> nth i l x00 <> b ->
  skipn k (set_byte i b l) <> skipn k l.
Proof.
  intros Hk Hi Hb Heq.
  assert (H : nth (i - k) (skipn k (set_byte i b l)) x00 = nth (i - k) (skipn k l) x00)
    by now rewrite Heq.
  rewrite !nth_skipn in H. replace (k + (i - k)) with i in H by lia.
  rewrite set_byte_nth in H by exact Hi. congruence.
Qed.

(** From 60 bytes on, the authenticated part is all but the last 32 bytes
    and the stored HMAC is the last 32 bytes. *)
Lemma authenticated_digest_split (combined : bytes) :
  60 <= length combined ->
  authenticated_of combined = firstn (length combined - 32) combined
  /\ digest_of combined = skipn (length combined - 32) combined.
Proof.
  intros Hlen.
  destruct (envelope_split combined Hlen) as (iv & ct & tag & h & Hc & Hiv & Htag & Hh).
  destruct (@slice_envelope iv ct tag h Hiv Htag Hh) as (H1 & H2 & H3 & H4).
  rewrite <- Hc in H1, H2, H3, H4.
  unfold authenticated_of, iv_of, ciphertext_of, tag_of, digest_of.
  rewrite H1, H2, H3, H4.
  assert (Hn : length combined - 32 = length (iv ++ ct ++ tag)).
  { rewrite Hc, !length_app. lia. }
  rewrite Hn. rewrite Hc.
  replace (iv ++ ct ++ tag ++ h) with ((iv ++ ct ++ tag) ++ h)
    by now rewrite <- !app_assoc.
  split; [symmetry; now apply firstn_exact | symmetry; now apply skipn_exact].
Qed.

Lemma encrypt_field_inv (X : Externals) (self : PersonalDataEncryptor) (s : str)
  (c : DataCategory) (w w' : world) (env : str) :
  s <> [] ->
  encrypt_field self s c w = (Ok env, w') ->
  exists iv plain,
    length iv = 12
    /\ utf8_encode (json_dumps (package_at self s c (clock w (ticks w))
                                           (clock w (S (ticks w))))) = Ok plain
    /\ utf8_decode (urlsafe_b64encode (envelope_bytes self iv plain)) = Ok env.
Proof.
  intros Hs. rewrite (@encrypt_field_steps X self s c w Hs).
  destruct (Cipher_AES_GCM _ _ _); [|discriminate].
  destruct (key_rotation_days self =? 0)%Z; [discriminate|].
  destruct (utf8_encode _) as [plain|] eqn:Hplain; [|discriminate].
  destruct (utf8_decode _) as [env'|] eqn:Henv; [|discriminate].
  intros H. injection H as <- _.
  exists (map (entropy w) (seq (drawn w) 12)), plain.
  split; [now rewrite length_map, length_seq|]. split; [reflexivity|exact Henv].
Qed.

(** ** Tampering *)

(** C2. Tamper detection: take an envelope returned by [encrypt_field],
    its base64-decoded bytes, and replace the byte at any one index by a
    different byte; on the re-encoded text [decrypt_field] raises
    [SecurityError], and so returns no value.  A change in the last 32
    bytes is caught because the stored HMAC no longer equals the recomputed
    one; a change before them is caught as long as HMAC-SHA256 gives the
    changed bytes a different digest, which is the assumption made of the
    primitive. *)
Theorem tampering_detected (X : Externals) (HX : ExternalsLaws X)
  (self : PersonalDataEncryptor) (s : str) (c : DataCategory) (w w' : world)
  (env : str) (raw combined : bytes) (i : nat) (b' : byte) (env' : str) (w2 : world) :
  s <> [] ->
  encrypt_field self s c w = (Ok env, w') ->
  utf8_encode env = Ok raw ->
  urlsafe_b64decode raw = Ok combined ->
  i < length combined ->
  nth i combined x00 <> b' ->
  utf8_decode (urlsafe_b64encode (set_byte i b' combined)) = Ok env' ->
  (authenticated_of (set_byte i b' combined) <> authenticated_of combined ->
   hmac_sha256 (auth_key self) (authenticated_of (set_byte i b' combined))
   <> hmac_sha256 (auth_key self) (authenticated_of combined)) ->
  fst (decrypt_field self env' w2) = Raise SecurityError.
Proof.
  intros Hs Henc Hraw Hcomb Hi Hb Henv' Hmac.
  destruct (@encrypt_field_inv X self s c w w' env Hs Henc) as (iv & plain & Hiv & _ & Henv).
  set (E := envelope_bytes self iv plain) in *.
  destruct (envelope_text_roundtrip E) as (text & Hdec & Hencode & _).
  assert (text = env) by congruence. subst text.
  assert (raw = urlsafe_b64encode E) by congruence. subst raw.
  rewrite urlsafe_b64_roundtrip in Hcomb. injection Hcomb as <-.
  destruct (@envelope_parts X HX self iv plain Hiv) as (_ & _ & Pdig & _ & Pauth & Plen).
  fold E in Pdig, Pauth, Plen. rewrite <- Pauth in Pdig.
  set (E' := set_byte i b' E) in *.
  assert (Hlen' : length E' = length E) by now apply set_byte_length.
  destruct (authenticated_digest_split E Plen) as [Ha Hd].
  destruct (authenticated_digest_split E') as [Ha' Hd']; [lia|].
  rewrite Hlen' in Ha', Hd'.
  destruct (envelope_text_roundtrip E') as (text' & Hdec' & Hencode' & Hne').
  assert (text' = env') by congruence. subst text'.
  assert (Hne : env' <> []).
  { apply Hne'. intros Hnil. rewrite Hnil in Hlen'. cbn in Hlen'. lia. }
  rewrite (@decrypt_field_steps X self env' (urlsafe_b64encode E') E' w2
             Hne Hencode' (urlsafe_b64_roundtrip E')).
  assert (Hneq : hmac_sha256 (auth_key self) (authenticated_of E') <> digest_of E').
  { destruct (Nat.lt_ge_cases i (length E - 32)) as [Hlow|Hhigh].
    - assert (Hchanged : authenticated_of E' <> authenticated_of E).
      { rewrite Ha, Ha'. now apply set_byte_firstn_changed. }
      assert (Hsame : digest_of E' = digest_of E).
      { rewrite Hd, Hd'. now apply set_byte_skipn. }
      rewrite Hsame, Pdig. now apply Hmac.
    - assert (Hsame : authenticated_of E' = authenticated_of E).
      { rewrite Ha, Ha'. now apply set_byte_firstn. }
      assert (Hchanged : digest_of E' <> digest_of E).
      { rewrite Hd, Hd'. now apply set_byte_skipn_changed. }
      rewrite Hsame, <- Pdig. congruence. }
  apply bytes_eqb_neq in Hneq. rewrite Hneq. reflexivity.
Qed.

Lemma tampering_detected_witness :
  fst (decrypt_field (X := sample_externals) sample_encryptor sample_tampered sample_world)
  = Raise SecurityError.
Proof.
  apply (@tampering_detected sample_externals sample_externals_laws sample_encryptor
           (lit "Ivanov") FIO sample_world
           (snd (encrypt_field (X := sample_externals) sample_encryptor (lit "Ivanov") FIO sample_world))
           sample_envelope (urlsafe_b64encode sample_combined) sample_combined 20 xff
           sample_tampered sample_world).
  - discriminate.
  - vm_compute. reflexivity.
  - vm_compute. reflexivity.
  - apply urlsafe_b64_roundtrip.
  - vm_compute. lia.
  - vm_compute. discriminate.
  - vm_compute. reflexivity.
  - intros _. vm_compute. discriminate.
Defined.

(** ** Dictionaries *)

Lemma dict_get_setitem_same {V} (k : str) (v : V) (d : dict V) :
  dict_get k (dict_setitem k v d) = Some v.
Proof.
  induction d as [|[k' v'] d IH]; cbn [dict_setitem dict_get].
  - now rewrite str_eqb_refl.
  - destruct (str_eqb k' k) eqn:E; cbn [dict_get]; now rewrite E.
Qed.

Lemma dict_get_setitem_other {V} (k k' : str) (v : V) (d : dict V) :
  k <> k' -> dict_get k' (dict_setitem k v d) = dict_get k' d.
Proof.
  intros Hk. induction d as [|[k0 v0] d IH]; cbn [dict_setitem dict_get].
  - apply str_eqb_neq in Hk. now rewrite Hk.
  - destruct (str_eqb k0 k) eqn:E; cbn [dict_get].
    + apply str_eqb_eq in E. subst k0.
      apply str_eqb_neq in Hk. now rewrite Hk.
    + destruct (str_eqb k0 k'); [reflexivity|exact IH].
Qed.

Lemma dict_get_not_in {V} (k : str) (d : dict V) :
  ~ In k (keys d) -> dict_get k d = None.
Proof.
  induction d as [|[k0 v0] d IH]; [reflexivity|].
  cbn [keys map fst In dict_get]. intros H.
  destruct (str_eqb k0 k) eqn:E.
  - apply str_eqb_eq in E. tauto.
  - apply IH. unfold keys. tauto.
Qed.

Lemma keys_setitem_in {V} (k k' : str) (v : V) (d : dict V) :
  In k' (keys (dict_setitem k v d)) <-> k' = k \/ In k' (keys d).
Proof.
  induction d as [|[k0 v0] d IH]; cbn [dict_setitem keys map fst In].
  - intuition.
  - destruct (str_eqb k0 k) eqn:E; cbn [keys map fst In].
    + apply str_eqb_eq in E. subst k0. intuition.
    + unfold keys in IH. rewrite IH. intuition.
Qed.

Lemma keys_setitem_NoDup {V} (k : str) (v : V) (d : dict V) :
  NoDup (keys d) -> NoDup (keys (dict_setitem k v d)).
Proof.
  induction d as [|[k0 v0] d IH]; cbn [dict_setitem keys map fst].
  - intros _. repeat constructor. intros [].
  - intros H. inversion H as [|? ? Hnotin Hnd]; subst.
    destruct (str_eqb k0 k) eqn:E; cbn [keys map fst].
    + now constructor.
    + constructor; [|now apply IH].
      intros Hin. apply (keys_setitem_in k k0 v d) in Hin.
      apply str_eqb_neq in E. destruct Hin; [congruence|exact (Hnotin H0)].
Qed.

Lemma store_views_cons (view : str -> value -> value) (k0 : str) (v0 : value)
  (items : list (str * value)) (acc : dict value) :
  store_views view ((k0, v0) :: items) acc
  = store_views view items (dict_setitem k0 (view k0 v0) acc).
Proof. reflexivity. Qed.

Lemma store_views_get (view : str -> value -> value) (items : list (str * value))
  (acc : dict value) (k : str) :
  NoDup (keys items) ->
  dict_get k (store_views view items acc)
  = match dict_get k items with
    | Some v => Some (view k v)
    | None => dict_get k acc
    end.
Proof.
  revert acc. induction items as [|[k0 v0] items IH]; intros acc Hnd; [reflexivity|].
  cbn [keys map fst] in Hnd. inversion Hnd as [|? ? Hnotin Hnd']; subst.
  rewrite store_views_cons, (IH _ Hnd'). cbn [dict_get].
  destruct (str_eqb k0 k) eqn:E.
  - apply str_eqb_eq in E. subst k0.
    rewrite (dict_get_not_in k items Hnotin). apply dict_get_setitem_same.
  - destruct (dict_get k items); [reflexivity|].
    apply dict_get_setitem_other. now apply str_eqb_neq.
Qed.

Lemma store_views_NoDup (view : str -> value -> value) (items : list (str * value))
  (acc : dict value) :
  NoDup (keys acc) -> NoDup (keys (store_views view items acc)).
Proof.
  revert acc. induction items as [|[k0 v0] items IH]; intros acc Hnd; [exact Hnd|].
  rewrite store_views_cons. apply IH. now apply keys_setitem_NoDup.
Qed.

(** ** Decryption of a record *)

(** The result of [decrypt_field] is the same in every world, and an
    exception it raises is [SecurityError] or [DecryptionError]. *)
Lemma decrypt_field_result (X : Externals) (self : PersonalDataEncryptor) (s : str) :
  exists r,
    (forall w, fst (decrypt_field self s w) = r)
    /\ (forall e, r = Raise e -> e = SecurityError \/ e = DecryptionError).
Proof.
  destruct s as [|c0 t0].
  { exists (Ok (VStr [], OTHER)). split; [reflexivity|discriminate]. }
  destruct (utf8_encode (c0 :: t0)) as [raw|e0] eqn:Hraw.
  - destruct (urlsafe_b64decode raw) as [combined|e1] eqn:Hcomb.
    + assert (Hne : c0 :: t0 <> []) by discriminate.
      eexists. split.
      * intros w.
        rewrite (@decrypt_field_steps X self (c0 :: t0) raw combined w Hne Hraw Hcomb).
        instantiate (1 :=
          if bytes_eqb (hmac_sha256 (auth_key self) (authenticated_of combined))
                       (digest_of combined)
          then match Cipher_AES_GCM (encryption_key self) (iv_of combined)
                       (Some (tag_of combined)) with
               | Raise e => Raise (decrypt_error e)
               | Ok _ =>
                   match aes_gcm_decrypt (encryption_key self) (iv_of combined)
                           (tag_of combined) (ciphertext_of combined) with
                   | None => Raise SecurityError
                   | Some plain =>
                       match open_package plain with
                       | Ok r => Ok r
                       | Raise e => Raise (decrypt_error e)
                       end
                   end
               end
          else Raise SecurityError).
        destruct (bytes_eqb _ _); [|reflexivity].
        destruct (Cipher_AES_GCM _ _ _); [|reflexivity].
        destruct (aes_gcm_decrypt _ _ _ _); reflexivity.
      * intros e.
        destruct (bytes_eqb _ _); [|intros [= <-]; now left].
        destruct (Cipher_AES_GCM _ _ _) as [?|e2];
          [|intros [= <-]; apply decrypt_error_cases].
        destruct (aes_gcm_decrypt _ _ _ _); [|intros [= <-]; now left].
        destruct (open_package _) as [?|e3]; [discriminate|].
        intros [= <-]; apply decrypt_error_cases.
    + exists (Raise (decrypt_error e1)). split.
      * intros w. cbv [decrypt_field try_except bind lift].
        rewrite Hraw, Hcomb. destruct e1; reflexivity.
      * intros e [= <-]. apply decrypt_error_cases.
  - exists (Raise (decrypt_error e0)). split.
    + intros w. cbv [decrypt_field try_except bind lift].
      rewrite Hraw. destruct e0; reflexivity.
    + intros e [= <-]. apply decrypt_error_cases.
Qed.

Lemma decrypt_field_any_world (X : Externals) (self : PersonalDataEncryptor) (s : str)
  (w w' : world) :
  fst (decrypt_field self s w) = fst (decrypt_field self s w').
Proof.
  destruct (decrypt_field_result X self s) as (r & Hr & _). now rewrite !Hr.
Qed.

Lemma decrypt_field_raises (X : Externals) (self : PersonalDataEncryptor) (s : str)
  (w : world) (e : exn) :
  fst (decrypt_field self s w) = Raise e -> e = SecurityError \/ e = DecryptionError.
Proof.
  destruct (decrypt_field_result X self s) as (r & Hr & He).
  rewrite Hr. apply He.
Qed.

Lemma decrypted_view_any_world (X : Externals) (self : PersonalDataEncryptor)
  (w w' : world) (field : str) (v : value) :
  decrypted_view self w field v = decrypted_view self w' field v.
Proof.
  unfold decrypted_view. destruct v as [| | |s| |]; try reflexivity.
  now rewrite (decrypt_field_any_world X self s w w').
Qed.

Lemma auto_decrypt_loop_spec (X : Externals) (self : PersonalDataEncryptor) (w0 : world)
  (items : list (str * value)) :
  forall (acc : dict value) (w : world),
  exists w',
    auto_decrypt_loop self items acc w
    = (Ok (store_views (decrypted_view self w0) items acc), w').
Proof.
  induction items as [|[field v] items IH]; intros acc w.
  - exists w. reflexivity.
  - rewrite store_views_cons. cbn [auto_decrypt_loop].
    destruct v as [| | |s| |]; cbn [decrypted_view]; try apply IH.
    destruct (is_encrypted_field field && truthy (VStr s)) eqn:Hsens.
    + rewrite (decrypt_field_any_world X self s w0 w).
      cbv [bind try_except ret raise].
      destruct (decrypt_field self s w) as [[[x c]|e] w1] eqn:Hd; cbn [fst snd].
      * apply IH.
      * destruct (@decrypt_field_raises X self s w e) as [-> | ->];
          [now rewrite Hd | apply IH | apply IH].
    + apply IH.
Qed.

(** C6. Record decryption is field-isolated: when the envelope of a
    sensitive field makes [decrypt_field] raise [SecurityError] or
    [DecryptionError], [auto_decrypt_user_data] still returns a record;
    in it the failing field holds the sentinel [[DECRYPTION_ERROR]], every
    other sensitive non-empty string that [decrypt_field] decrypts holds
    its decrypted data, and every other value is passed through as it
    was. *)
Theorem record_decryption_field_isolated (X : Externals) (self : PersonalDataEncryptor)
  (record : dict value) (w : world) (f0 : str) (s0 : str) (err : exn) :
  NoDup (keys record) ->
  dict_get f0 record = Some (VStr s0) ->
  is_encrypted_field f0 = true ->
  s0 <> [] ->
  fst (decrypt_field self s0 w) = Raise err ->
  err = SecurityError \/ err = DecryptionError ->
  exists d w',
    auto_decrypt_user_data self record w = (Ok d, w')
    /\ dict_get f0 d = Some (VStr DECRYPTION_ERROR)
    /\ (forall k s x c,
          k <> f0 -> dict_get k record = Some (VStr s) ->
          is_encrypted_field k = true -> s <> [] ->
          fst (decrypt_field self s w) = Ok (x, c) ->
          dict_get k d = Some x)
    /\ (forall k v,
          k <> f0 -> dict_get k record = Some v ->
          is_encrypted_field k = false \/ truthy v = false
          \/ (forall s, v <> VStr s) ->
          dict_get k d = Some v)
    /\ (forall k, dict_get k record = None -> dict_get k d = None).
Proof.
  intros Hnd Hf0 Hsens0 Hs0 Hraise _.
  destruct (@auto_decrypt_loop_spec X self w record [] w) as [w' Hloop].
  exists (store_views (decrypted_view self w) record []), w'.
  split; [exact Hloop|].
  split; [|split; [|split]].
  - rewrite (@store_views_get _ record [] f0 Hnd), Hf0. cbn [decrypted_view].
    rewrite Hsens0. destruct s0; [congruence|]. cbn [truthy andb].
    now rewrite Hraise.
  - intros k s x c _ Hk Hsens Hs Hdec.
    rewrite (@store_views_get _ record [] k Hnd), Hk. cbn [decrypted_view].
    rewrite Hsens. destruct s; [congruence|]. cbn [truthy andb].
    now rewrite Hdec.
  - intros k v _ Hk Hpass.
    rewrite (@store_views_get _ record [] k Hnd), Hk. f_equal.
    destruct v as [| | |s| |]; try reflexivity. cbn [decrypted_view].
    destruct Hpass as [H|[H|H]].
    + now rewrite H.
    + rewrite H. now rewrite andb_false_r.
    + now destruct (H s).
  - intros k Hk. now rewrite (@store_views_get _ record [] k Hnd), Hk.
Qed.

Lemma record_decryption_field_isolated_witness :
  exists d,
    fst (auto_decrypt_user_data (X := sample_externals) sample_encryptor sample_corrupted_record
           sample_world) = Ok d
    /\ dict_get (lit "fio") d = Some (VStr DECRYPTION_ERROR)
    /\ dict_get (lit "inn") d = Some (VStr (lit "Ivanov"))
    /\ dict_get (lit "age") d = Some (VInt 42).
Proof.
  assert (Hnd : NoDup (keys sample_corrupted_record)).
  { repeat (constructor; [vm_compute; intuition discriminate|]). constructor. }
  destruct (@record_decryption_field_isolated sample_externals sample_encryptor
              sample_corrupted_record sample_world (lit "fio") (lit "QUJD") SecurityError Hnd)
    as (d & w' & Hrun & Hfio & Hdec & Hpass & _).
  - reflexivity.
  - reflexivity.
  - discriminate.
  - vm_compute. reflexivity.
  - now left.
  - exists d. rewrite Hrun. split; [reflexivity|]. split; [exact Hfio|]. split.
    + apply (Hdec (lit "inn") sample_envelope (VStr (lit "Ivanov")) FIO).
      * vm_compute. discriminate.
      * reflexivity.
      * reflexivity.
      * vm_compute. discriminate.
      * vm_compute. reflexivity.
    + apply Hpass.
      * vm_compute. discriminate.
      * reflexivity.
      * left. reflexivity.
Defined.

(** ** Encryption of a record *)

Lemma auto_encrypt_loop_NoDup (X : Externals) (self : PersonalDataEncryptor)
  (items : list (str * value)) :
  forall acc w acc' w',
    NoDup (keys acc) ->
    auto_encrypt_loop self items acc w = (Ok acc', w') ->
    NoDup (keys acc').
Proof.
  induction items as [|[field v] items IH]; intros acc w acc' w' Hnd.
  - cbn [auto_encrypt_loop]. cbv [ret]. intros [= <- _]. exact Hnd.
  - cbn [auto_encrypt_loop].
    destruct (is_encrypted_field field && truthy v).
    + cbv [bind].
      destruct (encrypt_field self (py_str py_repr v) (_map_field_to_category field) w)
        as [[e|e] w1]; [|discriminate].
      apply IH. now apply keys_setitem_NoDup.
    + apply IH. now apply keys_setitem_NoDup.
Qed.

Lemma auto_encrypt_inv (X : Externals) (self : PersonalDataEncryptor)
  (user_data : dict value) (w w1 : world) (e : dict value) :
  auto_encrypt_user_data self user_data w = (Ok e, w1) ->
  exists acc now1 now2,
    NoDup (keys acc)
    /\ e = dict_setitem (lit "_encrypted_at") (VStr (isoformat now2))
             (dict_setitem (lit "_encryption_version") (VStr (key_version_at self now1))
                (dict_setitem (lit "_encrypted") (VBool true) acc)).
Proof.
  unfold auto_encrypt_user_data. cbv [bind].
  destruct (auto_encrypt_loop self user_data [] w) as [[acc|e0] w0] eqn:Hloop;
    [|discriminate].
  cbv [_get_current_key_version utcnow bind ret raise].
  destruct (key_rotation_days self =? 0)%Z; [discriminate|].
  intros [= <- _].
  exists acc, (clock w0 (ticks w0)), (clock w0 (S (ticks w0))).
  split; [|reflexivity].
  apply (@auto_encrypt_loop_NoDup X self user_data [] w acc w0); [constructor|exact Hloop].
Qed.

Lemma decrypted_view_not_sensitive (X : Externals) (self : PersonalDataEncryptor)
  (w : world) (k : str) (v : value) :
  is_encrypted_field k = false -> decrypted_view self w k v = v.
Proof.
  intros H. unfold decrypted_view. destruct v; try reflexivity. now rewrite H.
Qed.

(** C10. [auto_decrypt_user_data] copies every key that is not in the
    sensitive-field set unchanged into its output; so the record it makes
    of any record [auto_encrypt_user_data] returned holds the three stamps
    [_encrypted], [_encryption_version] and [_encrypted_at] that
    encryption added, whether or not the plain record had them. *)
Theorem decryption_keeps_stamps (X : Externals) (self : PersonalDataEncryptor) :
  (forall (record : dict value) (w : world),
     NoDup (keys record) ->
     exists d w',
       auto_decrypt_user_data self record w = (Ok d, w')
       /\ forall k, is_encrypted_field k = false -> dict_get k d = dict_get k record)
  /\ (forall (user_data e : dict value) (w w1 w2 : world),
        auto_encrypt_user_data self user_data w = (Ok e, w1) ->
        exists d w3 now1 now2,
          auto_decrypt_user_data self e w2 = (Ok d, w3)
          /\ dict_get (lit "_encrypted") d = Some (VBool true)
          /\ dict_get (lit "_encryption_version") d
             = Some (VStr (key_version_at self now1))
          /\ dict_get (lit "_encrypted_at") d = Some (VStr (isoformat now2))
          /\ forall k, is_encrypted_field k = false -> dict_get k d = dict_get k e).
Proof.
  assert (Hframe : forall (record : dict value) (w : world),
     NoDup (keys record) ->
     exists d w',
       auto_decrypt_user_data self record w = (Ok d, w')
       /\ forall k, is_encrypted_field k = false -> dict_get k d = dict_get k record).
  { intros record w Hnd.
    destruct (@auto_decrypt_loop_spec X self w record [] w) as [w' Hloop].
    exists (store_views (decrypted_view self w) record []), w'.
    split; [exact Hloop|].
    intros k Hk. rewrite (@store_views_get _ record [] k Hnd).
    destruct (dict_get k record); [|reflexivity].
    now rewrite decrypted_view_not_sensitive. }
  split; [exact Hframe|].
  intros user_data e w w1 w2 Henc.
  destruct (@auto_encrypt_inv X self user_data w w1 e Henc) as (acc & now1 & now2 & Hnd & He).
  assert (Hnd' : NoDup (keys e)).
  { rewrite He. now repeat apply keys_setitem_NoDup. }
  destruct (Hframe e w2 Hnd') as (d & w3 & Hrun & Hcopy).
  exists d, w3, now1, now2.
  split; [exact Hrun|].
  assert (H1 : dict_get (lit "_encrypted") e = Some (VBool true)).
  { rewrite He.
    rewrite !dict_get_setitem_other by (vm_compute; discriminate).
    apply dict_get_setitem_same. }
  assert (H2 : dict_get (lit "_encryption_version") e
               = Some (VStr (key_version_at self now1))).
  { rewrite He.
    rewrite dict_get_setitem_other by (vm_compute; discriminate).
    apply dict_get_setitem_same. }
  assert (H3 : dict_get (lit "_encrypted_at") e = Some (VStr (isoformat now2))).
  { rewrite He. apply dict_get_setitem_same. }
  rewrite !Hcopy by reflexivity.
  repeat split; try assumption.
Qed.

Lemma decryption_keeps_stamps_witness :
  exists e d,
    fst (auto_encrypt_user_data (X := sample_externals) sample_encryptor sample_record sample_world)
    = Ok e
    /\ fst (auto_decrypt_user_data (X := sample_externals) sample_encryptor e sample_world) = Ok d
    /\ dict_get (lit "_encrypted") sample_record = None
    /\ dict_get (lit "_encrypted") d = Some (VBool true)
    /\ dict_get (lit "age") d = Some (VInt 42).
Proof.
  destruct (decryption_keeps_stamps sample_externals sample_encryptor) as [_ H].
  set (r := auto_encrypt_user_data (X := sample_externals) sample_encryptor sample_record sample_world).
  destruct (fst r) as [e|] eqn:He; [|vm_compute in He; discriminate].
  assert (Hr : r = (Ok e, snd r)) by (rewrite <- He; now destruct r).
  destruct (H sample_record e sample_world (snd r) sample_world Hr)
    as (d & w3 & now1 & now2 & Hrun & Hstamp & _ & _ & Hcopy).
  exists e, d. split; [reflexivity|]. rewrite Hrun.
  split; [reflexivity|]. split; [reflexivity|]. split; [exact Hstamp|].
  rewrite Hcopy by reflexivity.
  assert (He' : Ok e = fst r) by now rewrite He.
  vm_compute in He'. injection He' as ->. reflexivity.
Defined.

Lemma encrypt_field_raises (X : Externals) (self : PersonalDataEncryptor) (s : str)
  (c : DataCategory) (w w' : world) (e : exn) :
  encrypt_field self s c w = (Raise e, w') -> e = EncryptionError.
Proof.
  destruct s as [|c0 t0]; [discriminate|].
  assert (Hne : c0 :: t0 <> []) by discriminate.
  rewrite (@encrypt_field_steps X self (c0 :: t0) c w Hne).
  destruct (Cipher_AES_GCM _ _ _); [|now intros [= <- _]].
  destruct (key_rotation_days self =? 0)%Z; [now intros [= <- _]|].
  destruct (utf8_encode _); [|now intros [= <- _]].
  destruct (utf8_decode _); [discriminate|now intros [= <- _]].
Qed.

Lemma encrypt_field_zero_rotation (X : Externals) (self : PersonalDataEncryptor) (s : str)
  (c : DataCategory) (w : world) :
  key_rotation_days self = 0%Z -> s <> [] ->
  fst (encrypt_field self s c w) = Raise EncryptionError.
Proof.
  intros Hz Hs. rewrite (@encrypt_field_steps X self s c w Hs).
  destruct (Cipher_AES_GCM _ _ _); [|reflexivity].
  rewrite Hz. reflexivity.
Qed.

Lemma auto_encrypt_loop_app (X : Externals) (self : PersonalDataEncryptor)
  (pre post : list (str * value)) :
  forall acc w,
    auto_encrypt_loop self (pre ++ post) acc w
    = bind (auto_encrypt_loop self pre acc) (fun acc1 => auto_encrypt_loop self post acc1) w.
Proof.
  induction pre as [|[field v] pre IH]; intros acc w; [reflexivity|].
  cbn [app auto_encrypt_loop].
  destruct (is_encrypted_field field && truthy v).
  - cbv [bind] in *.
    destruct (encrypt_field self (py_str py_repr v) (_map_field_to_category field) w)
      as [[e|e] w1]; [|reflexivity].
    apply IH.
  - apply IH.
Qed.

Lemma auto_encrypt_loop_raises (X : Externals) (self : PersonalDataEncryptor)
  (items : list (str * value)) :
  (exists field v,
     In (field, v) items /\ is_encrypted_field field = true /\ truthy v = true
     /\ forall c w, fst (encrypt_field self (py_str py_repr v) c w) = Raise EncryptionError) ->
  forall acc w, fst (auto_encrypt_loop self items acc w) = Raise EncryptionError.
Proof.
  induction items as [|[field v] items IH]; intros (f & x & Hin & Hsens & Htruthy & Hfail).
  - destruct Hin.
  - intros acc w. cbn [auto_encrypt_loop].
    destruct (is_encrypted_field field && truthy v) eqn:Hhere.
    + cbv [bind].
      destruct (encrypt_field self (py_str py_repr v) (_map_field_to_category field) w)
        as [[e|e] w1] eqn:Henc.
      * destruct Hin as [Heq|Hin].
        -- injection Heq as -> ->.
           specialize (Hfail (_map_field_to_category f) w). rewrite Henc in Hfail.
           discriminate.
        -- apply IH. exists f, x. auto.
      * now rewrite (@encrypt_field_raises X self _ _ w w1 e Henc).
    + destruct Hin as [Heq|Hin].
      * injection Heq as -> ->. rewrite Hsens, Htruthy in Hhere. discriminate.
      * apply IH. exists f, x. auto.
Qed.

(** C5. Record encryption is all-or-nothing: when [encrypt_field] raises
    [EncryptionError] for a sensitive field, [auto_encrypt_user_data]
    raises that [EncryptionError] and returns no record.  First as the
    code runs: the fields before it having been handled, the call that
    raises ends the whole operation in the world it left, the fields after
    it are not looked at and no stamp is added.  Then for the record as a
    whole: if some sensitive field of it cannot be encrypted, the result is
    [EncryptionError]. *)
Theorem record_encryption_all_or_nothing (X : Externals) (self : PersonalDataEncryptor) :
  (forall (pre post : list (str * value)) (field : str) (v : value)
          (w w1 w2 : world) (acc1 : dict value),
     auto_encrypt_loop self pre [] w = (Ok acc1, w1) ->
     is_encrypted_field field = true ->
     truthy v = true ->
     encrypt_field self (py_str py_repr v) (_map_field_to_category field) w1
     = (Raise EncryptionError, w2) ->
     auto_encrypt_user_data self (pre ++ (field, v) :: post) w
     = (Raise EncryptionError, w2))
  /\ (forall (user_data : dict value) (w : world),
        (exists field v,
           In (field, v) user_data /\ is_encrypted_field field = true /\ truthy v = true
           /\ forall c w', fst (encrypt_field self (py_str py_repr v) c w')
                           = Raise EncryptionError) ->
        fst (auto_encrypt_user_data self user_data w) = Raise EncryptionError).
Proof.
  split.
  - intros pre post field v w w1 w2 acc1 Hpre Hsens Htruthy Hfail.
    unfold auto_encrypt_user_data.
    cbv [bind]. rewrite auto_encrypt_loop_app. cbv [bind]. rewrite Hpre.
    cbn [auto_encrypt_loop]. rewrite Hsens, Htruthy. cbn [andb].
    cbv [bind]. rewrite Hfail. reflexivity.
  - intros user_data w Hbad.
    pose proof (@auto_encrypt_loop_raises X self user_data Hbad [] w) as Hloop.
    unfold auto_encrypt_user_data. cbv [bind].
    destruct (auto_encrypt_loop self user_data [] w) as [[acc|e] w0]; cbn [fst] in *;
      [discriminate|congruence].
Qed.

Lemma record_encryption_all_or_nothing_witness :
  fst (auto_encrypt_user_data (X := sample_externals) sample_encryptor_zero sample_record sample_world)
  = Raise EncryptionError.
Proof.
  destruct (record_encryption_all_or_nothing sample_externals sample_encryptor_zero) as [_ H].
  apply H. exists (lit "fio"), (VStr (lit "Ivanov")).
  split; [left; reflexivity|]. split; [reflexivity|]. split; [reflexivity|].
  intros c w'. apply encrypt_field_zero_rotation; [reflexivity|discriminate].
Defined.
(** ** What the encryption loop stores *)

Lemma auto_encrypt_loop_get (X : Externals) (self : PersonalDataEncryptor)
  (items : list (str * value)) :
  forall acc w acc' w',
    NoDup (keys items) ->
    auto_encrypt_loop self items acc w = (Ok acc', w') ->
    forall k,
      match dict_get k items with
      | Some v =>
          if is_encrypted_field k && truthy v then
            exists env w1 w2,
              encrypt_field self (py_str py_repr v) (_map_field_to_category k) w1
              = (Ok env, w2)
              /\ dict_get k acc' = Some (VStr env)
          else dict_get k acc' = Some v
      | None => dict_get k acc' = dict_get k acc
      end.
Proof.
  induction items as [|[field v] items IH]; intros acc w acc' w' Hnd.
  - cbn [auto_encrypt_loop]. cbv [ret]. intros [= <- _] k. reflexivity.
  - cbn [keys map fst] in Hnd. apply NoDup_cons_iff in Hnd. destruct Hnd as [Hnotin Hnd].
    cbn [auto_encrypt_loop]. intros Hrun k. cbn [dict_get].
    destruct (str_eqb field k) eqn:Hk.
    + apply str_eqb_eq in Hk. subst k.
      destruct (is_encrypted_field field && truthy v).
      * cbv [bind] in Hrun.
        destruct (encrypt_field self (py_str py_repr v) (_map_field_to_category field) w)
          as [[e|e] w1] eqn:Henc; [|discriminate].
        exists e, w, w1. split; [exact Henc|].
        pose proof (IH _ _ _ _ Hnd Hrun field) as Hk.
        rewrite (@dict_get_not_in value field items Hnotin) in Hk.
        rewrite Hk. apply dict_get_setitem_same.
      * pose proof (IH _ _ _ _ Hnd Hrun field) as Hk.
        rewrite (@dict_get_not_in value field items Hnotin) in Hk.
        rewrite Hk. apply dict_get_setitem_same.
    + apply str_eqb_neq in Hk.
      assert (Hgoal : forall x acc1 w1,
                auto_encrypt_loop self items (dict_setitem field x acc) w1 = (Ok acc1, w') ->
                match dict_get k items with
                | Some v0 =>
                    if is_encrypted_field k && truthy v0 then
                      exists env w2 w3,
                        encrypt_field self (py_str py_repr v0) (_map_field_to_category k) w2
                        = (Ok env, w3)
                        /\ dict_get k acc1 = Some (VStr env)
                    else dict_get k acc1 = Some v0
                | None => dict_get k acc1 = dict_get k acc
                end).
      { intros x acc1 w1 H1. pose proof (IH _ _ _ _ Hnd H1 k) as Hk1.
        destruct (dict_get k items); [exact Hk1|].
        rewrite Hk1. now apply dict_get_setitem_other. }
      destruct (is_encrypted_field field && truthy v).
      * cbv [bind] in Hrun.
        destruct (encrypt_field self (py_str py_repr v) (_map_field_to_category field) w)
          as [[e|e] w1]; [|discriminate].
        exact (Hgoal _ _ _ Hrun).
      * exact (Hgoal _ _ _ Hrun).
Qed.

(** ** A record through encryption and decryption *)

Lemma encrypt_field_returns_inv (X : Externals) (self : PersonalDataEncryptor) (s : str)
  (c : DataCategory) (w w' : world) (env : str) :
  s <> [] ->
  encrypt_field self s c w = (Ok env, w') ->
  let iv := map (entropy w) (seq (drawn w) 12) in
  valid_aes_key (encryption_key self) = true
  /\ key_rotation_days self <> 0%Z
  /\ exists plain,
       utf8_encode (json_dumps (package_at self s c (clock w (ticks w))
                                             (clock w (S (ticks w))))) = Ok plain
       /\ utf8_decode (urlsafe_b64encode (envelope_bytes self iv plain)) = Ok env
       /\ w' = add_event (EvHmac (iv ++ fst (aes_gcm_encrypt (encryption_key self) iv plain)
                                     ++ snd (aes_gcm_encrypt (encryption_key self) iv plain)))
                 (add_event (EvAesGcmEncrypt iv)
                    (after_utcnow (after_utcnow (after_urandom 12 w)))).
Proof.
  intros Hs. rewrite (@encrypt_field_steps X self s c w Hs). cbv zeta.
  unfold Cipher_AES_GCM.
  destruct (valid_aes_key (encryption_key self)); cbn [negb]; [|discriminate].
  destruct (negb (valid_gcm_iv _)); [discriminate|].
  destruct (key_rotation_days self =? 0)%Z eqn:Hz; [discriminate|].
  apply Z.eqb_neq in Hz.
  destruct (utf8_encode _) as [plain|]; [|discriminate].
  destruct (utf8_decode _) as [env0|] eqn:Hdec; [|discriminate].
  intros [= <- <-]. split; [reflexivity|]. split; [exact Hz|].
  exists plain. repeat split. exact Hdec.
Qed.

Lemma decrypt_encrypted (X : Externals) (HX : ExternalsLaws X)
  (self : PersonalDataEncryptor) (s : str) (c : DataCategory) (w w' : world) (env : str) :
  s <> [] ->
  encrypt_field self s c w = (Ok env, w') ->
  env <> [] /\ forall w2, fst (decrypt_field self env w2) = Ok (VStr s, c).
Proof.
  intros Hs Henc.
  destruct (@encrypt_field_returns_inv X self s c w w' env Hs Henc)
    as (Hkey & _ & plain & Hplain & Henv & _).
  set (iv := map (entropy w) (seq (drawn w) 12)) in *.
  assert (Hiv : length iv = 12) by (unfold iv; now rewrite length_map, length_seq).
  split.
  - destruct (envelope_text_roundtrip (envelope_bytes self iv plain)) as (text & Ht & _ & Hne).
    rewrite Henv in Ht. injection Ht as <-. apply Hne.
    unfold envelope_bytes. destruct iv; [discriminate|discriminate].
  - intros w2.
    rewrite (@decrypt_envelope X HX self iv plain env w2 Hkey Hiv Henv).
    now rewrite (@open_package_at self s c _ _ plain Hplain).
Qed.

Lemma auto_encrypt_returns_inv (X : Externals) (self : PersonalDataEncryptor)
  (user_data : dict value) (w w1 : world) (e : dict value) :
  auto_encrypt_user_data self user_data w = (Ok e, w1) ->
  exists acc w0,
    auto_encrypt_loop self user_data [] w = (Ok acc, w0)
    /\ key_rotation_days self <> 0%Z
    /\ e = dict_setitem (lit "_encrypted_at") (VStr (isoformat (clock w0 (S (ticks w0)))))
             (dict_setitem (lit "_encryption_version")
                (VStr (key_version_at self (clock w0 (ticks w0))))
                (dict_setitem (lit "_encrypted") (VBool true) acc))
    /\ w1 = after_utcnow (after_utcnow w0).
Proof.
  unfold auto_encrypt_user_data. cbv [bind].
  destruct (auto_encrypt_loop self user_data [] w) as [[acc|e0] w0] eqn:Hloop;
    [|discriminate].
  cbv [_get_current_key_version utcnow bind ret raise].
  destruct (key_rotation_days self =? 0)%Z eqn:Hz; [discriminate|].
  apply Z.eqb_neq in Hz.
  intros [= <- <-]. exists acc, w0. repeat split. exact Hz.
Qed.

Lemma stamp_not_sensitive (k : str) :
  In k STAMP_KEYS -> is_encrypted_field k = false.
Proof.
  intros [<-|[<-|[<-|[]]]]; reflexivity.
Qed.

Lemma dict_get_stamped (k : str) (a b c : value) (acc : dict value) :
  ~ In k STAMP_KEYS ->
  dict_get k (dict_setitem (lit "_encrypted_at") a
                (dict_setitem (lit "_encryption_version") b
                   (dict_setitem (lit "_encrypted") c acc)))
  = dict_get k acc.
Proof.
  intros Hk.
  rewrite !dict_get_setitem_other; [reflexivity| | |];
    intros <-; apply Hk; cbn; auto.
Qed.

Lemma decrypt_encrypted_record (X : Externals) (HX : ExternalsLaws X)
  (self : PersonalDataEncryptor) (user_data e : dict value) (w w1 w2 : world) :
  NoDup (keys user_data) ->
  auto_encrypt_user_data self user_data w = (Ok e, w1) ->
  exists d w3,
    auto_decrypt_user_data self e w2 = (Ok d, w3)
    /\ forall k v,
         dict_get k user_data = Some v ->
         ~ In k STAMP_KEYS ->
         dict_get k d
         = Some (if is_encrypted_field k && truthy v
                 then VStr (py_str py_repr v) else v).
Proof.
  intros Hnd Henc.
  destruct (@auto_encrypt_returns_inv X self user_data w w1 e Henc)
    as (acc & w0 & Hloop & _ & He & _).
  assert (Hacc : NoDup (keys acc)).
  { apply (@auto_encrypt_loop_NoDup X self user_data [] w acc w0); [constructor|exact Hloop]. }
  assert (Hnd' : NoDup (keys e)).
  { rewrite He. now repeat apply keys_setitem_NoDup. }
  destruct (@auto_decrypt_loop_spec X self w2 e [] w2) as [w3 Hdec].
  exists (store_views (decrypted_view self w2) e []), w3.
  split; [exact Hdec|].
  intros k v Hk Hstamp.
  rewrite (@store_views_get _ e [] k Hnd').
  assert (Hek : dict_get k e = dict_get k acc).
  { rewrite He. now apply dict_get_stamped. }
  rewrite Hek.
  pose proof (@auto_encrypt_loop_get X self user_data [] w acc w0 Hnd Hloop k) as Hget.
  rewrite Hk in Hget.
  destruct (is_encrypted_field k && truthy v) eqn:Hcond.
  - destruct Hget as (env & wa & wb & Hfield & ->).
    apply andb_true_iff in Hcond. destruct Hcond as [Hsens _].
    f_equal. unfold decrypted_view. rewrite Hsens. cbn [andb].
    destruct (py_str py_repr v) as [|c0 t0] eqn:Hstr.
    + cbn [encrypt_field] in Hfield. cbv [ret] in Hfield. injection Hfield as <- _.
      reflexivity.
    + assert (Hne : c0 :: t0 <> []) by discriminate.
      destruct (@decrypt_encrypted X HX self (c0 :: t0) _ wa wb env Hne Hfield)
        as [Henv Hback].
      rewrite (Hback w2). cbn [fst].
      destruct env; [now elim Henv|reflexivity].
  - rewrite Hget. f_equal. unfold decrypted_view.
    destruct v; try reflexivity. now rewrite Hcond.
Qed.

(** X1. A record that went through [auto_encrypt_user_data] and then
    through [auto_decrypt_user_data] holds, under every key of the plain
    record other than the three stamp keys, the text [str(value)] where
    the field is sensitive and its value truthy, and the value itself
    everywhere else: a sensitive number comes back as a string. *)
Theorem record_round_trip (X : Externals) (HX : ExternalsLaws X)
  (self : PersonalDataEncryptor) (user_data e : dict value) (w w1 w2 : world) :
  NoDup (keys user_data) ->
  auto_encrypt_user_data self user_data w = (Ok e, w1) ->
  exists d w3,
    auto_decrypt_user_data self e w2 = (Ok d, w3)
    /\ forall k v,
         dict_get k user_data = Some v ->
         ~ In k STAMP_KEYS ->
         dict_get k d
         = Some (if is_encrypted_field k && truthy v
                 then VStr (py_str py_repr v) else v).
Proof.
  exact (@decrypt_encrypted_record X HX self user_data e w w1 w2).
Qed.

Lemma record_round_trip_witness :
  exists e d,
    fst (auto_encrypt_user_data (X := sample_externals) sample_encryptor sample_record_mixed
           sample_world) = Ok e
    /\ fst (auto_decrypt_user_data (X := sample_externals) sample_encryptor e sample_world)
       = Ok d
    /\ dict_get (lit "fio") d = Some (VStr (lit "Ivanov"))
    /\ dict_get (lit "inn") d = Some (VStr (lit "7707083893"))
    /\ dict_get (lit "age") d = Some (VInt 42)
    /\ dict_get (lit "phone") d = Some (VStr []).
Proof.
  set (r := auto_encrypt_user_data (X := sample_externals) sample_encryptor
              sample_record_mixed sample_world).
  destruct (fst r) as [e|] eqn:He; [|vm_compute in He; discriminate].
  assert (Hr : r = (Ok e, snd r)) by (rewrite <- He; now destruct r).
  assert (Hnd : NoDup (keys sample_record_mixed)).
  { repeat constructor; cbn; intuition discriminate. }
  destruct (@record_round_trip sample_externals sample_externals_laws sample_encryptor
              sample_record_mixed e sample_world (snd r) sample_world Hnd Hr)
    as (d & w3 & Hrun & Hget).
  exists e, d. split; [reflexivity|]. rewrite Hrun. split; [reflexivity|].
  assert (Hstamp : forall k, is_encrypted_field k = true \/ k = lit "age" ->
                             ~ In k STAMP_KEYS).
  { intros k [Hk | ->] Hin.
    - rewrite (@stamp_not_sensitive k Hin) in Hk. discriminate.
    - vm_compute in Hin. intuition discriminate. }
  split; [|split; [|split]].
  - now rewrite (Hget (lit "fio") (VStr (lit "Ivanov")) eq_refl (Hstamp (lit "fio") (or_introl eq_refl))).
  - now rewrite (Hget (lit "inn") (VInt 7707083893) eq_refl (Hstamp (lit "inn") (or_introl eq_refl))).
  - now rewrite (Hget (lit "age") (VInt 42) eq_refl (Hstamp (lit "age") (or_intror eq_refl))).
  - now rewrite (Hget (lit "phone") (VStr []) eq_refl (Hstamp (lit "phone") (or_introl eq_refl))).
Defined.

(** X2. In a record [auto_encrypt_user_data] returned, the envelope
    stored for a sensitive field with a truthy value decrypts to the text
    of that value and to the category [_map_field_to_category] gives the
    field name. *)
Theorem record_field_labelled (X : Externals) (HX : ExternalsLaws X)
  (self : PersonalDataEncryptor) (user_data e : dict value) (w w1 : world)
  (k : str) (v : value) :
  NoDup (keys user_data) ->
  auto_encrypt_user_data self user_data w = (Ok e, w1) ->
  dict_get k user_data = Some v ->
  is_encrypted_field k = true ->
  truthy v = true ->
  py_str py_repr v <> [] ->
  exists env,
    dict_get k e = Some (VStr env)
    /\ forall w2, fst (decrypt_field self env w2)
                  = Ok (VStr (py_str py_repr v), _map_field_to_category k).
Proof.
  intros Hnd Henc Hk Hsens Htruthy Hne.
  destruct (@auto_encrypt_returns_inv X self user_data w w1 e Henc)
    as (acc & w0 & Hloop & _ & He & _).
  pose proof (@auto_encrypt_loop_get X self user_data [] w acc w0 Hnd Hloop k) as Hget.
  rewrite Hk, Hsens, Htruthy in Hget. cbn [andb] in Hget.
  destruct Hget as (env & wa & wb & Hfield & Hacc).
  exists env. split.
  - rewrite He. rewrite dict_get_stamped; [exact Hacc|].
    intros Hin. rewrite (@stamp_not_sensitive k Hin) in Hsens. discriminate.
  - apply (@decrypt_encrypted X HX self _ _ wa wb env Hne Hfield).
Qed.

Lemma record_field_labelled_witness :
  exists e env,
    fst (auto_encrypt_user_data (X := sample_externals) sample_encryptor sample_record_mixed
           sample_world) = Ok e
    /\ dict_get (lit "inn") e = Some (VStr env)
    /\ fst (decrypt_field (X := sample_externals) sample_encryptor env sample_world)
       = Ok (VStr (lit "7707083893"), OTHER).
Proof.
  set (r := auto_encrypt_user_data (X := sample_externals) sample_encryptor
              sample_record_mixed sample_world).
  destruct (fst r) as [e|] eqn:He; [|vm_compute in He; discriminate].
  assert (Hr : r = (Ok e, snd r)) by (rewrite <- He; now destruct r).
  assert (Hnd : NoDup (keys sample_record_mixed)).
  { repeat constructor; cbn; intuition discriminate. }
  assert (Hne : py_str (@py_repr sample_externals) (VInt 7707083893) <> [])
    by (vm_compute; discriminate).
  destruct (@record_field_labelled sample_externals sample_externals_laws sample_encryptor
              sample_record_mixed e sample_world (snd r) (lit "inn") (VInt 7707083893)
              Hnd Hr eq_refl eq_refl eq_refl Hne)
    as (env & Hget & Hback).
  exists e, env. split; [reflexivity|]. split; [exact Hget|].
  exact (Hback sample_world).
Defined.

(** ** The keys of an encrypted record *)

Lemma keys_setitem_fresh {V} (k : str) (v : V) (d : dict V) :
  ~ In k (keys d) -> keys (dict_setitem k v d) = keys d ++ [k].
Proof.
  induction d as [|[k' v'] d IH]; intros Hk; [reflexivity|].
  cbn [dict_setitem]. destruct (str_eqb k' k) eqn:E.
  - apply str_eqb_eq in E. subst k'. elim Hk. now left.
  - cbn [keys map fst app]. f_equal. apply IH. intros Hin. apply Hk. now right.
Qed.

Lemma auto_encrypt_loop_keys_in (X : Externals) (self : PersonalDataEncryptor)
  (items : list (str * value)) :
  forall acc w acc' w',
    auto_encrypt_loop self items acc w = (Ok acc', w') ->
    forall k, In k (keys acc') <-> In k (keys acc) \/ In k (keys items).
Proof.
  induction items as [|[field v] items IH]; intros acc w acc' w'.
  - cbn [auto_encrypt_loop]. cbv [ret]. intros [= <- _] k. cbn. tauto.
  - cbn [auto_encrypt_loop]. intros Hrun k.
    assert (Hstep : forall x w1,
              auto_encrypt_loop self items (dict_setitem field x acc) w1 = (Ok acc', w') ->
              In k (keys acc') <-> In k (keys acc) \/ In k (keys ((field, v) :: items))).
    { intros x w1 H1. rewrite (IH _ _ _ _ H1 k), keys_setitem_in. cbn [keys map fst In].
      intuition congruence. }
    destruct (is_encrypted_field field && truthy v).
    + cbv [bind] in Hrun.
      destruct (encrypt_field self (py_str py_repr v) (_map_field_to_category field) w)
        as [[e|e] w1]; [|discriminate].
      exact (Hstep _ _ Hrun).
    + exact (Hstep _ _ Hrun).
Qed.

Lemma auto_encrypt_loop_keys (X : Externals) (self : PersonalDataEncryptor)
  (items : list (str * value)) :
  forall acc w acc' w',
    NoDup (keys acc ++ keys items) ->
    auto_encrypt_loop self items acc w = (Ok acc', w') ->
    keys acc' = keys acc ++ keys items.
Proof.
  induction items as [|[field v] items IH]; intros acc w acc' w' Hnd.
  - cbn [auto_encrypt_loop]. cbv [ret]. intros [= <- _]. cbn. now rewrite app_nil_r.
  - cbn [auto_encrypt_loop]. intros Hrun. cbn [keys map fst] in Hnd |- *.
    assert (Hfresh : ~ In field (keys acc)).
    { apply NoDup_remove_2 in Hnd. intros Hin. apply Hnd. apply in_or_app. now left. }
    assert (Hstep : forall x w1,
              auto_encrypt_loop self items (dict_setitem field x acc) w1 = (Ok acc', w') ->
              keys acc' = keys acc ++ field :: map fst items).
    { intros x w1 H1.
      assert (Hk : keys (dict_setitem field x acc) = keys acc ++ [field])
        by now apply keys_setitem_fresh.
      rewrite (IH (dict_setitem field x acc) w1 acc' w').
      - rewrite Hk, <- app_assoc. reflexivity.
      - rewrite Hk, <- app_assoc. exact Hnd.
      - exact H1. }
    destruct (is_encrypted_field field && truthy v).
    + cbv [bind] in Hrun.
      destruct (encrypt_field self (py_str py_repr v) (_map_field_to_category field) w)
        as [[e|e] w1]; [|discriminate].
      exact (Hstep _ _ Hrun).
    + exact (Hstep _ _ Hrun).
Qed.

(** X3. The record [auto_encrypt_user_data] returns has the keys of the
    plain record and the three stamp keys, and no other; when the plain
    record has no stamp key, they are the keys of the plain record in
    their order, followed by [_encrypted], [_encryption_version] and
    [_encrypted_at]. *)
Theorem encrypted_record_keys (X : Externals) (self : PersonalDataEncryptor)
  (user_data e : dict value) (w w1 : world) :
  NoDup (keys user_data) ->
  auto_encrypt_user_data self user_data w = (Ok e, w1) ->
  (forall k, In k (keys e) <-> In k (keys user_data) \/ In k STAMP_KEYS)
  /\ ((forall k, In k STAMP_KEYS -> ~ In k (keys user_data)) ->
      keys e = keys user_data ++ STAMP_KEYS).
Proof.
  intros Hnd Henc.
  destruct (@auto_encrypt_returns_inv X self user_data w w1 e Henc)
    as (acc & w0 & Hloop & _ & He & _).
  split.
  - intros k. rewrite He, !keys_setitem_in.
    rewrite (@auto_encrypt_loop_keys_in X self user_data [] w acc w0 Hloop k).
    cbn. intuition congruence.
  - intros Hfree.
    assert (Hacc : keys acc = keys user_data).
    { apply (@auto_encrypt_loop_keys X self user_data [] w acc w0); [exact Hnd|exact Hloop]. }
    rewrite He.
    assert (H1 : ~ In (lit "_encrypted") (keys acc)).
    { rewrite Hacc. apply Hfree. cbn. auto. }
    rewrite keys_setitem_fresh.
    2:{ rewrite keys_setitem_in, keys_setitem_in, Hacc.
        intros [E|[E|Hin]]; [discriminate E|discriminate E|].
        revert Hin. apply Hfree. cbn. auto. }
    rewrite keys_setitem_fresh.
    2:{ rewrite keys_setitem_in, Hacc.
        intros [E|Hin]; [discriminate E|].
        revert Hin. apply Hfree. cbn. auto. }
    rewrite keys_setitem_fresh by exact H1.
    rewrite Hacc, <- !app_assoc. reflexivity.
Qed.

Lemma encrypted_record_keys_witness :
  exists e,
    fst (auto_encrypt_user_data (X := sample_externals) sample_encryptor sample_record
           sample_world) = Ok e
    /\ keys e = [lit "fio"; lit "age"; lit "phone";
                 lit "_encrypted"; lit "_encryption_version"; lit "_encrypted_at"].
Proof.
  set (r := auto_encrypt_user_data (X := sample_externals) sample_encryptor
              sample_record sample_world).
  destruct (fst r) as [e|] eqn:He; [|vm_compute in He; discriminate].
  assert (Hr : r = (Ok e, snd r)) by (rewrite <- He; now destruct r).
  assert (Hnd : NoDup (keys sample_record)).
  { repeat constructor; cbn; intuition discriminate. }
  destruct (@encrypted_record_keys sample_externals sample_encryptor sample_record e
              sample_world (snd r) Hnd Hr) as [_ Hkeys].
  exists e. split; [reflexivity|].
  rewrite Hkeys; [reflexivity|].
  intros k Hin Hk. vm_compute in Hin, Hk. intuition congruence.
Defined.

(** ** What [auto_encrypt_user_data] raises *)

Lemma auto_encrypt_loop_raise_inv (X : Externals) (self : PersonalDataEncryptor)
  (items : list (str * value)) :
  forall acc w w' e,
    auto_encrypt_loop self items acc w = (Raise e, w') -> e = EncryptionError.
Proof.
  induction items as [|[field v] items IH]; intros acc w w' e.
  - cbn [auto_encrypt_loop]. cbv [ret]. discriminate.
  - cbn [auto_encrypt_loop].
    destruct (is_encrypted_field field && truthy v).
    + cbv [bind].
      destruct (encrypt_field self (py_str py_repr v) (_map_field_to_category field) w)
        as [[x|x] w1] eqn:Henc.
      * apply IH.
      * intros [= <- _]. exact (@encrypt_field_raises X self _ _ w w1 x Henc).
    + apply IH.
Qed.

Lemma auto_encrypt_loop_plain (X : Externals) (self : PersonalDataEncryptor)
  (items : list (str * value)) :
  (forall field v, In (field, v) items -> is_encrypted_field field && truthy v = false) ->
  forall acc w, exists acc', auto_encrypt_loop self items acc w = (Ok acc', w).
Proof.
  induction items as [|[field v] items IH]; intros Hplain acc w.
  - exists acc. reflexivity.
  - cbn [auto_encrypt_loop]. rewrite (Hplain field v) by now left.
    apply IH. intros f x Hin. apply Hplain. now right.
Qed.

(** X4. With a rotation period of zero days, a record none of whose
    fields is both sensitive and truthy (the empty record among them)
    makes [auto_encrypt_user_data] raise [ZeroDivisionError]: the division
    of the stamping step is outside every [try], and the error is not
    turned into an [EncryptionError].  One clock reading was made and
    nothing else. *)
Theorem zero_rotation_stamp_raises (X : Externals) (self : PersonalDataEncryptor)
  (user_data : dict value) (w : world) :
  key_rotation_days self = 0%Z ->
  (forall field v, In (field, v) user_data ->
                   is_encrypted_field field && truthy v = false) ->
  auto_encrypt_user_data self user_data w = (Raise ZeroDivisionError, after_utcnow w).
Proof.
  intros Hz Hplain. unfold auto_encrypt_user_data. cbv [bind].
  destruct (@auto_encrypt_loop_plain X self user_data Hplain [] w) as [acc ->].
  cbv [_get_current_key_version utcnow bind ret raise]. rewrite Hz. reflexivity.
Qed.

Lemma zero_rotation_stamp_raises_witness :
  fst (auto_encrypt_user_data (X := sample_externals) sample_encryptor_zero
         [(lit "age", VInt 42); (lit "phone", VStr [])] sample_world)
  = Raise ZeroDivisionError.
Proof.
  rewrite (@zero_rotation_stamp_raises sample_externals sample_encryptor_zero
             [(lit "age", VInt 42); (lit "phone", VStr [])] sample_world eq_refl).
  - reflexivity.
  - intros field v [[= <- <-]|[[= <- <-]|[]]]; reflexivity.
Defined.

(** X5. [auto_encrypt_user_data] raises nothing but [EncryptionError]
    and [ZeroDivisionError], and the latter only when the rotation period
    is zero days. *)
Theorem auto_encrypt_raises_only (X : Externals) (self : PersonalDataEncryptor)
  (user_data : dict value) (w : world) (e : exn) :
  fst (auto_encrypt_user_data self user_data w) = Raise e ->
  e = EncryptionError \/ (e = ZeroDivisionError /\ key_rotation_days self = 0%Z).
Proof.
  unfold auto_encrypt_user_data. cbv [bind].
  destruct (auto_encrypt_loop self user_data [] w) as [[acc|e0] w0] eqn:Hloop.
  - cbv [_get_current_key_version utcnow bind ret raise].
    destruct (key_rotation_days self =? 0)%Z eqn:Hz.
    + apply Z.eqb_eq in Hz. cbn [fst]. intros [= <-]. right. now split.
    + cbn [fst]. discriminate.
  - cbn [fst]. intros [= <-]. left.
    exact (@auto_encrypt_loop_raise_inv X self user_data [] w w0 e0 Hloop).
Qed.

Lemma auto_encrypt_raises_only_witness :
  exists e,
    fst (auto_encrypt_user_data (X := sample_externals) sample_encryptor_zero
           sample_record_mixed sample_world) = Raise e
    /\ (e = EncryptionError
        \/ (e = ZeroDivisionError /\ key_rotation_days sample_encryptor_zero = 0%Z)).
Proof.
  exists EncryptionError.
  assert (H : fst (auto_encrypt_user_data (X := sample_externals) sample_encryptor_zero
                     sample_record_mixed sample_world) = Raise EncryptionError)
    by (vm_compute; reflexivity).
  split; [exact H|].
  exact (@auto_encrypt_raises_only sample_externals sample_encryptor_zero
           sample_record_mixed sample_world EncryptionError H).
Defined.

(** ** Decryption reads neither the clock nor the random source *)

Lemma same_sources_refl (w : world) : same_sources w w.
Proof. now repeat split. Qed.

Lemma same_sources_trans (w1 w2 w3 : world) :
  same_sources w1 w2 -> same_sources w2 w3 -> same_sources w1 w3.
Proof.
  intros (A1 & A2 & A3 & A4) (B1 & B2 & B3 & B4).
  repeat split; congruence.
Qed.

Lemma decrypt_field_sources (X : Externals) (self : PersonalDataEncryptor) (s : str)
  (w : world) :
  same_sources w (snd (decrypt_field self s w)).
Proof.
  destruct s as [|c0 t0]; [apply same_sources_refl|].
  destruct (utf8_encode (c0 :: t0)) as [raw|e0] eqn:Hraw.
  - destruct (urlsafe_b64decode raw) as [combined|e1] eqn:Hcomb.
    + assert (Hne : c0 :: t0 <> []) by discriminate.
      rewrite (@decrypt_field_steps X self (c0 :: t0) raw combined w Hne Hraw Hcomb).
      cbv zeta.
      destruct (bytes_eqb _ _); [|now repeat split].
      destruct (Cipher_AES_GCM _ _ _); [|now repeat split].
      destruct (aes_gcm_decrypt _ _ _ _); now repeat split.
    + cbv [decrypt_field try_except bind lift]. rewrite Hraw, Hcomb.
      destruct e1; now repeat split.
  - cbv [decrypt_field try_except bind lift]. rewrite Hraw.
    destruct e0; now repeat split.
Qed.

Lemma auto_decrypt_loop_sources (X : Externals) (self : PersonalDataEncryptor)
  (items : list (str * value)) :
  forall acc w, same_sources w (snd (auto_decrypt_loop self items acc w)).
Proof.
  induction items as [|[field v] items IH]; intros acc w.
  - apply same_sources_refl.
  - cbn [auto_decrypt_loop].
    destruct v; try apply IH.
    destruct (is_encrypted_field field && truthy (VStr s)); [|apply IH].
    cbv [bind try_except ret raise].
    pose proof (@decrypt_field_sources X self s w) as Hs.
    pose proof (@decrypt_field_raises X self s w) as Hr.
    destruct (decrypt_field self s w) as [[r|e] w1]; cbn [fst snd] in *.
    + apply (@same_sources_trans w w1); [exact Hs|apply IH].
    + destruct (Hr e eq_refl) as [-> | ->];
        (apply (@same_sources_trans w w1); [exact Hs|apply IH]).
Qed.

(** X6. [auto_decrypt_user_data] makes no clock reading and draws no
    random byte, and the record it returns is the same in every world:
    decrypting a stored record again gives the same result. *)
Theorem decryption_repeatable (X : Externals) (self : PersonalDataEncryptor)
  (encrypted_data : dict value) (w w' : world) :
  same_sources w (snd (auto_decrypt_user_data self encrypted_data w))
  /\ fst (auto_decrypt_user_data self encrypted_data w)
     = fst (auto_decrypt_user_data self encrypted_data w').
Proof.
  split.
  - apply auto_decrypt_loop_sources.
  - unfold auto_decrypt_user_data.
    destruct (@auto_decrypt_loop_spec X self w encrypted_data [] w) as [w1 ->].
    destruct (@auto_decrypt_loop_spec X self w encrypted_data [] w') as [w2 ->].
    reflexivity.
Qed.

(** ** The text of an envelope *)

Lemma b2a_base64_length (data : bytes) :
  length (b2a_base64 data) = 4 * ((length data + 2) / 3).
Proof.
  induction data as [|b0|b0 b1|b0 b1 b2 rest IH] using bytes_ind3;
    try reflexivity.
  cbn [b2a_base64 length]. rewrite IH.
  replace (S (S (S (length rest))) + 2) with (1 * 3 + (length rest + 2)) by lia.
  rewrite Nat.div_add_l by discriminate. lia.
Qed.

Lemma b2a_char_urlsafe (n : N) :
  is_urlsafe_char (byte_val (urlsafe_encode_translation (b2a_char n))) = true.
Proof.
  assert (Hall : forallb (fun b => is_urlsafe_char (byte_val (urlsafe_encode_translation b)))
                   (BASE64_PAD :: table_b2a_base64) = true) by (vm_compute; reflexivity).
  rewrite forallb_forall in Hall. apply Hall.
  unfold b2a_char.
  destruct (Nat.lt_ge_cases (N.to_nat n) (length table_b2a_base64)) as [Hlt|Hge].
  - right. now apply nth_In.
  - left. now rewrite nth_overflow.
Qed.

Lemma urlsafe_b64encode_alphabet (data : bytes) :
  forallb is_urlsafe_char (map byte_val (urlsafe_b64encode data)) = true.
Proof.
  unfold urlsafe_b64encode.
  induction data as [|b0|b0 b1|b0 b1 b2 rest IH] using bytes_ind3.
  - reflexivity.
  - cbn [b2a_base64 map forallb]. rewrite !b2a_char_urlsafe. reflexivity.
  - cbn [b2a_base64 map forallb]. rewrite !b2a_char_urlsafe. reflexivity.
  - cbn [b2a_base64 map forallb]. rewrite !b2a_char_urlsafe. exact IH.
Qed.

Lemma gcm_ciphertext_length (X : Externals) (HX : ExternalsLaws X) (key iv data : bytes) :
  length (fst (aes_gcm_encrypt key iv data)) = length data.
Proof.
  symmetry. apply (@gcm_decrypt_length X HX key iv (snd (aes_gcm_encrypt key iv data))).
  apply gcm_decrypt_encrypt.
Qed.

Lemma envelope_bytes_length (X : Externals) (HX : ExternalsLaws X)
  (self : PersonalDataEncryptor) (iv plain : bytes) :
  length iv = 12 -> length (envelope_bytes self iv plain) = 60 + length plain.
Proof.
  intros Hiv. unfold envelope_bytes. cbv zeta.
  rewrite !length_app, Hiv, hmac_length, gcm_tag_length, gcm_ciphertext_length by exact HX.
  lia.
Qed.

(** X7. The text [encrypt_field] returns for a non-empty plain text
    consists of letters, digits, [-], [_] and [=] only; its length is
    that of the base64 text of 60 bytes (IV, tag and HMAC) more than the
    UTF-8 bytes of the JSON document it encrypts, a multiple of four. *)
Theorem envelope_text_format (X : Externals) (HX : ExternalsLaws X)
  (self : PersonalDataEncryptor) (s : str) (c : DataCategory) (w w' : world) (env : str) :
  s <> [] ->
  encrypt_field self s c w = (Ok env, w') ->
  forallb is_urlsafe_char env = true
  /\ exists plain,
       utf8_encode (json_dumps (package_at self s c (clock w (ticks w))
                                             (clock w (S (ticks w))))) = Ok plain
       /\ length env = 4 * ((60 + length plain + 2) / 3).
Proof.
  intros Hs Henc.
  destruct (@encrypt_field_returns_inv X self s c w w' env Hs Henc)
    as (_ & _ & plain & Hplain & Henv & _).
  set (iv := map (entropy w) (seq (drawn w) 12)) in *.
  assert (Hiv : length iv = 12) by (unfold iv; now rewrite length_map, length_seq).
  rewrite (utf8_decode_ascii (urlsafe_b64encode_ascii _)) in Henv.
  assert (Etext : env = map byte_val (urlsafe_b64encode (envelope_bytes self iv plain)))
    by congruence.
  rewrite Etext.
  split; [apply urlsafe_b64encode_alphabet|].
  exists plain. split; [exact Hplain|].
  unfold urlsafe_b64encode. rewrite !length_map, b2a_base64_length.
  now rewrite (@envelope_bytes_length X HX self iv plain Hiv).
Qed.

Lemma envelope_text_format_witness :
  forallb is_urlsafe_char sample_envelope = true /\ length sample_envelope = 264.
Proof.
  assert (Hs : lit "Ivanov" <> []) by discriminate.
  set (r := encrypt_field (X := sample_externals) sample_encryptor (lit "Ivanov") FIO
              sample_world).
  assert (He : r = (Ok sample_envelope, snd r)) by (vm_compute; reflexivity).
  destruct (@envelope_text_format sample_externals sample_externals_laws sample_encryptor
              (lit "Ivanov") FIO sample_world (snd r) sample_envelope Hs He)
    as (Halpha & plain & Hplain & Hlen).
  split; [exact Halpha|].
  rewrite Hlen. vm_compute in Hplain. injection Hplain as <-. reflexivity.
Defined.

(** ** The IV of an envelope *)

Lemma envelope_iv (X : Externals) (HX : ExternalsLaws X)
  (self : PersonalDataEncryptor) (s : str) (c : DataCategory) (w w' : world) (env : str) :
  s <> [] ->
  encrypt_field self s c w = (Ok env, w') ->
  exists raw combined,
    utf8_encode env = Ok raw
    /\ urlsafe_b64decode raw = Ok combined
    /\ iv_of combined = map (entropy w) (seq (drawn w) 12).
Proof.
  intros Hs Henc.
  destruct (@encrypt_field_returns_inv X self s c w w' env Hs Henc)
    as (_ & _ & plain & _ & Henv & _).
  set (iv := map (entropy w) (seq (drawn w) 12)) in *.
  assert (Hiv : length iv = 12) by (unfold iv; now rewrite length_map, length_seq).
  destruct (envelope_text_roundtrip (envelope_bytes self iv plain)) as (text & Ht & Hraw & _).
  assert (E : text = env) by congruence. subst text.
  exists (urlsafe_b64encode (envelope_bytes self iv plain)), (envelope_bytes self iv plain).
  split; [exact Hraw|]. split; [apply urlsafe_b64_roundtrip|].
  now destruct (@envelope_parts X HX self iv plain Hiv) as (H1 & _).
Qed.

(** X8. A call of [encrypt_field] that returns an envelope for a
    non-empty plain text has drawn exactly twelve bytes from the random
    source and read the clock twice, and these twelve bytes are the
    first twelve bytes of the decoded envelope. *)
Theorem envelope_starts_with_fresh_iv (X : Externals) (HX : ExternalsLaws X)
  (self : PersonalDataEncryptor) (s : str) (c : DataCategory) (w w' : world) (env : str) :
  s <> [] ->
  encrypt_field self s c w = (Ok env, w') ->
  drawn w' = drawn w + 12
  /\ ticks w' = S (S (ticks w))
  /\ exists raw combined,
       utf8_encode env = Ok raw
       /\ urlsafe_b64decode raw = Ok combined
       /\ slice None (Some 12%Z) combined = map (entropy w) (seq (drawn w) 12).
Proof.
  intros Hs Henc.
  destruct (@encrypt_field_returns_inv X self s c w w' env Hs Henc)
    as (_ & _ & plain & _ & _ & Hw).
  split; [now rewrite Hw|]. split; [now rewrite Hw|].
  exact (@envelope_iv X HX self s c w w' env Hs Henc).
Qed.

Lemma envelope_starts_with_fresh_iv_witness :
  exists raw combined,
    utf8_encode sample_envelope = Ok raw
    /\ urlsafe_b64decode raw = Ok combined
    /\ slice None (Some 12%Z) combined = map (entropy sample_world) (seq 0 12).
Proof.
  assert (Hs : lit "Ivanov" <> []) by discriminate.
  set (r := encrypt_field (X := sample_externals) sample_encryptor (lit "Ivanov") FIO
              sample_world).
  assert (He : r = (Ok sample_envelope, snd r)) by (vm_compute; reflexivity).
  destruct (@envelope_starts_with_fresh_iv sample_externals sample_externals_laws
              sample_encryptor (lit "Ivanov") FIO sample_world (snd r) sample_envelope Hs He)
    as (_ & _ & H).
  exact H.
Defined.

(** X9. Two calls of [encrypt_field] for which the random source
    delivered different IVs return different envelopes, whatever the
    plain texts and categories: in particular the same text encrypted
    twice is stored as two different texts. *)
Theorem different_iv_different_envelope (X : Externals) (HX : ExternalsLaws X)
  (self : PersonalDataEncryptor) (s1 s2 : str) (c1 c2 : DataCategory)
  (w1 w1' w2 w2' : world) (env1 env2 : str) :
  s1 <> [] -> s2 <> [] ->
  encrypt_field self s1 c1 w1 = (Ok env1, w1') ->
  encrypt_field self s2 c2 w2 = (Ok env2, w2') ->
  map (entropy w1) (seq (drawn w1) 12) <> map (entropy w2) (seq (drawn w2) 12) ->
  env1 <> env2.
Proof.
  intros Hs1 Hs2 H1 H2 Hiv Heq. apply Hiv.
  destruct (@envelope_iv X HX self s1 c1 w1 w1' env1 Hs1 H1) as (raw1 & comb1 & A1 & B1 & <-).
  destruct (@envelope_iv X HX self s2 c2 w2 w2' env2 Hs2 H2) as (raw2 & comb2 & A2 & B2 & <-).
  congruence.
Qed.

Lemma different_iv_different_envelope_witness :
  exists env1 w1 env2 w2,
    encrypt_field (X := sample_externals) sample_encryptor (lit "Ivanov") FIO sample_world
    = (Ok env1, w1)
    /\ encrypt_field (X := sample_externals) sample_encryptor (lit "Ivanov") FIO w1
       = (Ok env2, w2)
    /\ env1 <> env2.
Proof.
  assert (Hs : lit "Ivanov" <> []) by discriminate.
  destruct (encrypt_field (X := sample_externals) sample_encryptor (lit "Ivanov") FIO
              sample_world) as [[env1|e1] w1] eqn:E1.
  2:{ exfalso. apply (f_equal fst) in E1. vm_compute in E1. discriminate. }
  assert (Hw1 : w1 = snd (encrypt_field (X := sample_externals) sample_encryptor
                            (lit "Ivanov") FIO sample_world)) by now rewrite E1.
  destruct (encrypt_field (X := sample_externals) sample_encryptor (lit "Ivanov") FIO w1)
    as [[env2|e2] w2] eqn:E2.
  2:{ exfalso. apply (f_equal fst) in E2. rewrite Hw1 in E2. vm_compute in E2.
      discriminate. }
  exists env1, w1, env2, w2. split; [reflexivity|]. split; [exact E2|].
  apply (@different_iv_different_envelope sample_externals sample_externals_laws
           sample_encryptor (lit "Ivanov") (lit "Ivanov") FIO FIO sample_world w1 w1 w2
           env1 env2 Hs Hs E1 E2).
  rewrite Hw1. vm_compute. discriminate.
Defined.

(** ** Key versions *)

Lemma lit_inj (a b : string) : lit a = lit b -> a = b.
Proof.
  unfold lit. intros H.
  rewrite <- (string_of_list_ascii_of_string a), <- (string_of_list_ascii_of_string b).
  f_equal. revert H. generalize (list_ascii_of_string a) (list_ascii_of_string b).
  induction l as [|x l IH]; intros [|y l']; cbn [map]; try discriminate; [reflexivity|].
  intros [= Hxy Hl]. f_equal; [|now apply IH].
  rewrite <- (ascii_N_embedding x), <- (ascii_N_embedding y). now rewrite Hxy.
Qed.

Lemma to_int_proper (z : Z) : Z.to_int z <> Pos Nil /\ Z.to_int z <> Neg Nil.
Proof.
  destruct z as [|p|p]; cbn [Z.to_int]; split; try discriminate;
    intros [= H]; exact (DecimalPos.Unsigned.to_uint_nonnil p H).
Qed.

Lemma str_of_Z_inj (a b : Z) : str_of_Z a = str_of_Z b -> a = b.
Proof.
  unfold str_of_Z. intros H. apply lit_inj in H.
  destruct (to_int_proper a) as [A1 A2]. destruct (to_int_proper b) as [B1 B2].
  pose proof (NilZero.isi (Z.to_int a) A1 A2) as Ia.
  pose proof (NilZero.isi (Z.to_int b) B1 B2) as Ib.
  rewrite H in Ia. rewrite Ia in Ib. injection Ib as Hab.
  rewrite <- (DecimalZ.of_to a), <- (DecimalZ.of_to b). now rewrite Hab.
Qed.

Lemma get_current_key_version_steps (self : PersonalDataEncryptor) (w : world) :
  _get_current_key_version self w
  = (if (key_rotation_days self =? 0)%Z then Raise ZeroDivisionError
     else Ok (key_version_at self (clock w (ticks w))),
     after_utcnow w).
Proof.
  cbv [_get_current_key_version utcnow bind ret raise].
  destruct (key_rotation_days self =? 0)%Z; reflexivity.
Qed.

(** X10. With a positive rotation period of [k] days,
    [_get_current_key_version] returns a version at every clock reading,
    and two readings get the same version exactly when their day counts
    since 2020-01-01 lie in the same window [k*q .. k*q + k - 1]: the
    version text names the rotation period and nothing else. *)
Theorem key_version_identifies_period (self : PersonalDataEncryptor) (w1 w2 : world) :
  (0 < key_rotation_days self)%Z ->
  let k := key_rotation_days self in
  let d1 := days_since (clock w1 (ticks w1)) datetime_2020_01_01 in
  let d2 := days_since (clock w2 (ticks w2)) datetime_2020_01_01 in
  (exists v, fst (_get_current_key_version self w1) = Ok v)
  /\ (fst (_get_current_key_version self w1) = fst (_get_current_key_version self w2)
      <-> exists q, (k * q <= d1 < k * q + k /\ k * q <= d2 < k * q + k)%Z).
Proof.
  intros Hk k d1 d2. rewrite !get_current_key_version_steps. cbn [fst].
  replace (key_rotation_days self =? 0)%Z with false by (symmetry; apply Z.eqb_neq; lia).
  split; [eexists; reflexivity|].
  unfold key_version_at. fold k d1 d2. split.
  - intros [= H]. apply str_of_Z_inj in H. exists (d1 / k)%Z.
    split; [|rewrite H]; clear H.
    + pose proof (Z.mul_div_le d1 k Hk). pose proof (Z.mul_succ_div_gt d1 k Hk). lia.
    + pose proof (Z.mul_div_le d2 k Hk). pose proof (Z.mul_succ_div_gt d2 k Hk). lia.
  - intros (q & H1 & H2).
    assert (E1 : (d1 / k = q)%Z) by (symmetry; apply (Z.div_unique d1 k q (d1 - k * q)); lia).
    assert (E2 : (d2 / k = q)%Z) by (symmetry; apply (Z.div_unique d2 k q (d2 - k * q)); lia).
    now rewrite E1, E2.
Qed.

Lemma key_version_identifies_period_witness :
  fst (_get_current_key_version sample_encryptor sample_world) = Ok (lit "v27")
  /\ fst (_get_current_key_version sample_encryptor sample_world)
     = fst (_get_current_key_version sample_encryptor
              (mkWorld (entropy sample_world) 0
                 (fun _ => mkDatetime 2026 8 27 0 0 0 0) 0 [])).
Proof.
  split; [reflexivity|].
  apply (@key_version_identifies_period sample_encryptor sample_world
           (mkWorld (entropy sample_world) 0
              (fun _ => mkDatetime 2026 8 27 0 0 0 0) 0 [])).
  - reflexivity.
  - exists 27%Z. vm_compute. repeat split; discriminate.
Defined.

(** ** Field names and categories *)

Lemma dict_get_in_keys {V} (k : str) (d : dict V) :
  dict_get k d <> None <-> In k (keys d).
Proof.
  induction d as [|[k' v'] d IH]; cbn [dict_get keys map fst In].
  - split; [congruence|tauto].
  - destruct (str_eqb k' k) eqn:E.
    + apply str_eqb_eq in E. split; [now left|discriminate].
    + apply str_eqb_neq in E. fold (keys d). rewrite IH. split; [now right|].
      intros [H|H]; [contradiction|exact H].
Qed.

Lemma is_encrypted_field_in (field : str) :
  is_encrypted_field field = true <-> In field ENCRYPTED_FIELDS.
Proof.
  unfold is_encrypted_field. rewrite existsb_exists. split.
  - intros (x & Hin & Hx). apply str_eqb_eq in Hx. now subst.
  - intros Hin. exists field. split; [exact Hin|apply str_eqb_refl].
Qed.

(** X11. The table of [_map_field_to_category] has an entry for a
    field name exactly when the name is in [ENCRYPTED_FIELDS]: every
    field that [auto_encrypt_user_data] encrypts gets its category from
    the table, and every other name is mapped to [OTHER]. *)
Theorem category_table_covers_sensitive_fields (field : str) :
  (is_encrypted_field field = true <-> dict_get field field_category_map <> None)
  /\ (is_encrypted_field field = false -> _map_field_to_category field = OTHER).
Proof.
  assert (Hiff : is_encrypted_field field = true <-> dict_get field field_category_map <> None).
  { rewrite is_encrypted_field_in, dict_get_in_keys. reflexivity. }
  split; [exact Hiff|].
  intros Hf. unfold _map_field_to_category.
  destruct (dict_get field field_category_map) eqn:E; [|reflexivity].
  assert (Ht : is_encrypted_field field = true) by (apply Hiff; congruence).
  congruence.
Qed.

Lemma category_table_covers_sensitive_fields_witness :
  dict_get (lit "snils") field_category_map <> None
  /\ _map_field_to_category (lit "age") = OTHER.
Proof.
  split.
  - apply (proj1 (category_table_covers_sensitive_fields (lit "snils"))). reflexivity.
  - apply (proj2 (category_table_covers_sensitive_fields (lit "age"))). reflexivity.
Defined.

(** ** [get_encryptor] *)

Lemma slice_prefix {T} (n : nat) (l : list T) :
  slice None (Some (Z.of_nat n)) l = firstn n l.
Proof.
  unfold slice, norm_index.
  replace (Z.of_nat n <? 0)%Z with false by (symmetry; apply Z.ltb_ge; lia).
  cbn [skipn Z.to_nat]. rewrite Z.sub_0_r.
  destruct (Z.min_spec (Z.of_nat (length l)) (Z.of_nat n)) as [[Hlt ->]|[Hge ->]].
  - rewrite Nat2Z.id. rewrite firstn_all. symmetry. apply firstn_all2. lia.
  - now rewrite Nat2Z.id.
Qed.

Lemma key_text_of_token (token : str) :
  slice None (Some 32%Z) (ljust 32 0x30%N token)
  = firstn 32 token ++ repeat 0x30%N (32 - length token).
Proof.
  change 32%Z with (Z.of_nat 32). rewrite slice_prefix. unfold ljust.
  rewrite firstn_app. f_equal.
  apply firstn_all2. rewrite repeat_length. lia.
Qed.

Lemma key_text_length (token : str) :
  length (firstn 32 token ++ repeat 0x30%N (32 - length token)) = 32.
Proof. rewrite length_app, length_firstn, repeat_length. lia. Qed.

Lemma get_encryptor_steps (X : Externals) (environ : dict str) (token db : str) (w : world) :
  dict_get (lit "BOT_TOKEN") environ = Some token -> token <> [] ->
  dict_get (lit "DB_LITE") environ = Some db -> db <> [] ->
  get_encryptor environ None w
  = match __init__ (firstn 32 token ++ repeat 0x30%N (32 - length token)) 90 w with
    | (Ok instance, w') => (Ok (instance, Some instance), w')
    | (Raise e, w') => (Raise e, w')
    end.
Proof.
  intros Ht Hne Hd Hdne.
  cbv [get_encryptor bind lift ret config]. rewrite Ht, Hd.
  destruct token as [|c t]; [now elim Hne|]. destruct db as [|c' t']; [now elim Hdne|].
  cbn [str_truthy negb BOT_TOKEN].
  rewrite key_text_of_token.
  destruct (__init__ _ 90 w) as [[instance|e] w']; reflexivity.
Qed.

(** X12. With [BOT_TOKEN] and [DB_LITE] set and not empty,
    [get_encryptor] makes its master key from the first 32 characters of
    the token, filled up with [0] characters: the text always has 32
    characters, so the length check of the constructor never fails.  The
    call returns an encryptor with a rotation period of 90 days and
    stores it in the module global exactly when that text can be encoded
    in UTF-8; otherwise it raises [UnicodeEncodeError]. *)
Theorem get_encryptor_key_from_token (X : Externals) (environ : dict str)
  (token db : str) (w : world) :
  dict_get (lit "BOT_TOKEN") environ = Some token -> token <> [] ->
  dict_get (lit "DB_LITE") environ = Some db -> db <> [] ->
  let key_text := firstn 32 token ++ repeat 0x30%N (32 - length token) in
  length key_text = 32
  /\ match utf8_encode key_text with
     | Ok master =>
         exists instance w',
           get_encryptor environ None w = (Ok (instance, Some instance), w')
           /\ master_key instance = master
           /\ key_rotation_days instance = 90%Z
           /\ encryption_key instance
              = pbkdf2_hmac_sha256 (blit "encryption_salt") 100000 32 master
           /\ auth_key instance
              = pbkdf2_hmac_sha256 (blit "authentication_salt") 100000 32 master
     | Raise _ => fst (get_encryptor environ None w) = Raise UnicodeEncodeError
     end.
Proof.
  intros Ht Hne Hd Hdne key_text.
  split; [apply key_text_length|].
  rewrite (@get_encryptor_steps X environ token db w Ht Hne Hd Hdne). fold key_text.
  assert (Hlen : length key_text = 32) by apply key_text_length.
  unfold __init__. rewrite Hlen. cbn [Nat.eqb negb].
  cbv [bind lift ret _derive_keys PBKDF2HMAC_derive log].
  destruct (utf8_encode key_text) as [master|e] eqn:Hm.
  - eexists. eexists. split; [reflexivity|]. cbn. repeat split.
  - cbn [fst]. f_equal.
    destruct (encodable key_text) eqn:Henc.
    + destruct (utf8_encode_encodable key_text Henc) as [b Hb]. congruence.
    + rewrite (utf8_encode_not_encodable key_text Henc) in Hm. congruence.
Qed.

Lemma get_encryptor_key_from_token_witness :
  exists instance w',
    get_encryptor (X := sample_externals) sample_environ None sample_world
    = (Ok (instance, Some instance), w')
    /\ master_key instance = blit "123456:ABC-DEF1234ghIkl-zyx57W2v"
    /\ key_rotation_days instance = 90%Z.
Proof.
  destruct (@get_encryptor_key_from_token sample_externals sample_environ
              (lit "123456:ABC-DEF1234ghIkl-zyx57W2v1u123ew11")
              (lit "sqlite+aiosqlite:///bot.db") sample_world eq_refl
              ltac:(discriminate) eq_refl ltac:(discriminate)) as [_ H].
  cbv zeta in H.
  change (utf8_encode
            (firstn 32 (lit "123456:ABC-DEF1234ghIkl-zyx57W2v1u123ew11")
             ++ repeat 48%N (32 - length (lit "123456:ABC-DEF1234ghIkl-zyx57W2v1u123ew11"))))
    with (Ok (blit "123456:ABC-DEF1234ghIkl-zyx57W2v")) in H.
  destruct H as (instance & w' & Hrun & Hm & Hd & _).
  exists instance, w'. repeat split; assumption.
Defined.

(** X13. The encryptor [get_encryptor] builds depends only on the first
    32 characters of [BOT_TOKEN], and a shorter token is filled up with
    [0] characters: whatever follows the 32nd character is ignored, and a
    token of fewer than 32 characters gives the same encryptor as the
    token followed by a [0]. *)
Theorem get_encryptor_ignores_token_tail (X : Externals) (environ : dict str)
  (token db : str) (w : world) :
  token <> [] ->
  dict_get (lit "DB_LITE") environ = Some db -> db <> [] ->
  (forall tail,
     32 <= length token ->
     get_encryptor (dict_setitem (lit "BOT_TOKEN") (token ++ tail) environ) None w
     = get_encryptor (dict_setitem (lit "BOT_TOKEN") token environ) None w)
  /\ (length token < 32 ->
      get_encryptor (dict_setitem (lit "BOT_TOKEN") (token ++ [0x30%N]) environ) None w
      = get_encryptor (dict_setitem (lit "BOT_TOKEN") token environ) None w).
Proof.
  intros Hne Hd Hdne.
  assert (Hsteps : forall t, t <> [] ->
            get_encryptor (dict_setitem (lit "BOT_TOKEN") t environ) None w
            = match __init__ (firstn 32 t ++ repeat 0x30%N (32 - length t)) 90 w with
              | (Ok instance, w') => (Ok (instance, Some instance), w')
              | (Raise e, w') => (Raise e, w')
              end).
  { intros t Ht. apply (@get_encryptor_steps X _ t db w); try assumption.
    - apply dict_get_setitem_same.
    - rewrite dict_get_setitem_other by discriminate. exact Hd. }
  split.
  - intros tail Hlen.
    rewrite (Hsteps (token ++ tail)) by (destruct token; [now elim Hne|discriminate]).
    symmetry. etransitivity; [exact (Hsteps token Hne)|]. symmetry.
    rewrite firstn_app, length_app.
    replace (32 - length token) with 0 by lia.
    replace (32 - (length token + length tail)) with 0 by lia.
    cbn [firstn repeat]. now rewrite !app_nil_r.
  - intros Hlen.
    rewrite (Hsteps (token ++ [0x30%N])) by (destruct token; [now elim Hne|discriminate]).
    symmetry. etransitivity; [exact (Hsteps token Hne)|]. symmetry.
    rewrite firstn_app, length_app. cbn [length].
    rewrite (firstn_all2 (n := 32) token) by lia.
    replace (32 - length token) with (S (32 - (length token + 1))) by lia.
    cbn [firstn repeat]. rewrite firstn_nil, <- app_assoc. reflexivity.
Qed.

Lemma get_encryptor_ignores_token_tail_witness :
  get_encryptor (X := sample_externals)
    (dict_setitem (lit "BOT_TOKEN") (lit "abc0") sample_environ_short) None sample_world
  = get_encryptor (X := sample_externals)
      (dict_setitem (lit "BOT_TOKEN") (lit "abc") sample_environ_short) None sample_world.
Proof.
  destruct (@get_encryptor_ignores_token_tail sample_externals sample_environ_short
              (lit "abc") (lit "sqlite+aiosqlite:///bot.db") sample_world
              ltac:(discriminate) eq_refl ltac:(discriminate)) as [_ H].
  apply H. cbn. lia.
Defined.

(** X14. Once [get_encryptor] has built an encryptor, the module global
    holds it, and every later call returns this same encryptor without
    deriving keys or touching the world, whatever the environment is by
    then. *)
Theorem get_encryptor_singleton (X : Externals) (environ : dict str) (w w' : world)
  (instance : PersonalDataEncryptor) (global : option PersonalDataEncryptor) :
  get_encryptor environ None w = (Ok (instance, global), w') ->
  global = Some instance
  /\ forall environ2 w2,
       get_encryptor environ2 global w2 = (Ok (instance, global), w2).
Proof.
  cbv [get_encryptor bind lift ret].
  destruct (config environ) as [cfg|e]; [|discriminate].
  destruct (__init__ _ 90 w) as [[i|e] w1]; [|discriminate].
  intros [= <- <- <-]. split; reflexivity.
Qed.

Lemma get_encryptor_singleton_witness :
  exists instance w',
    get_encryptor (X := sample_externals) sample_environ None sample_world
    = (Ok (instance, Some instance), w')
    /\ get_encryptor (X := sample_externals) [] (Some instance) w'
       = (Ok (instance, Some instance), w').
Proof.
  destruct (get_encryptor (X := sample_externals) sample_environ None sample_world)
    as [[[instance global]|e] w'] eqn:E.
  2:{ exfalso. apply (f_equal fst) in E. vm_compute in E. discriminate. }
  destruct (@get_encryptor_singleton sample_externals sample_environ sample_world w'
              instance global E) as [-> H].
  exists instance, w'. split; [reflexivity|]. apply H.
Defined.

(** X15. [get_encryptor] never uses the built-in default key.  When
    [BOT_TOKEN] or [DB_LITE] is missing or empty, the import of [config]
    raises [ValueError] and no key is derived; and whenever a call builds
    an encryptor, its master key is the UTF-8 text of the first 32
    characters of [BOT_TOKEN], filled up with [0] characters. *)
Theorem get_encryptor_needs_configuration (X : Externals) (environ : dict str) (w : world) :
  (str_truthy (dict_get (lit "BOT_TOKEN") environ) = false
   \/ str_truthy (dict_get (lit "DB_LITE") environ) = false ->
   get_encryptor environ None w = (Raise ValueError, w))
  /\ (forall instance global w',
        get_encryptor environ None w = (Ok (instance, global), w') ->
        exists token,
          dict_get (lit "BOT_TOKEN") environ = Some token
          /\ token <> []
          /\ utf8_encode (firstn 32 token ++ repeat 0x30%N (32 - length token))
             = Ok (master_key instance)).
Proof.
  split.
  - intros H. cbv [get_encryptor bind lift config].
    destruct (str_truthy (dict_get (lit "BOT_TOKEN") environ)); cbn [negb]; [|reflexivity].
    destruct H as [H|H]; [discriminate|]. now rewrite H.
  - intros instance global w'.
    destruct (dict_get (lit "BOT_TOKEN") environ) as [[|c t]|] eqn:Ht;
      try (cbv [get_encryptor bind lift config]; rewrite Ht; cbn [str_truthy negb];
           discriminate).
    destruct (dict_get (lit "DB_LITE") environ) as [[|c' t']|] eqn:Hd;
      try (cbv [get_encryptor bind lift config]; rewrite Ht, Hd; cbn [str_truthy negb];
           discriminate).
    assert (Hne : c :: t <> []) by discriminate.
    assert (Hdne : c' :: t' <> []) by discriminate.
    rewrite (@get_encryptor_steps X environ (c :: t) (c' :: t') w Ht Hne Hd Hdne).
    destruct (__init__ _ 90 w) as [[i|e] w1] eqn:Hinit; [|discriminate].
    intros [= <- _ _]. exists (c :: t). split; [reflexivity|]. split; [exact Hne|].
    revert Hinit. unfold __init__.
    destruct (negb (Nat.eqb _ 32)); [discriminate|].
    cbv [bind lift ret _derive_keys PBKDF2HMAC_derive log].
    destruct (utf8_encode _) as [master|]; [|discriminate].
    now intros [= <- _].
Qed.

Lemma get_encryptor_needs_configuration_witness :
  get_encryptor (X := sample_externals) [(lit "BOT_TOKEN", lit "123456:ABC")] None sample_world
  = (Raise ValueError, sample_world).
Proof.
  apply (proj1 (@get_encryptor_needs_configuration sample_externals
                  [(lit "BOT_TOKEN", lit "123456:ABC")] sample_world)).
  right. reflexivity.
Defined.

(** ** [get_encryption_info] *)

(** X16. [get_encryption_info] raises [ZeroDivisionError] when the
    rotation period is zero days.  Otherwise it returns, and the
    [current_key_version] it reports is the [_encryption_version] stamped
    on every record [auto_encrypt_user_data] returned at a clock reading
    of the same rotation period; it also reports the rotation period and
    the list [ENCRYPTED_FIELDS]. *)
Theorem info_version_matches_stamp (X : Externals) (self : PersonalDataEncryptor) (w2 : world) :
  (key_rotation_days self = 0%Z ->
   fst (get_encryption_info self w2) = Raise ZeroDivisionError)
  /\ (forall (user_data e : dict value) (w w1 : world),
        auto_encrypt_user_data self user_data w = (Ok e, w1) ->
        (days_since (clock w2 (ticks w2)) datetime_2020_01_01 / key_rotation_days self
         = days_since (clock w1 (ticks w1 - 2)) datetime_2020_01_01 / key_rotation_days self)%Z ->
        exists info w3,
          get_encryption_info self w2 = (Ok (VDict info), w3)
          /\ dict_get (lit "current_key_version") info
             = dict_get (lit "_encryption_version") e
          /\ dict_get (lit "key_rotation_days") info = Some (VInt (key_rotation_days self))
          /\ dict_get (lit "encrypted_fields") info
             = Some (VList (map VStr ENCRYPTED_FIELDS))).
Proof.
  split.
  - intros Hz. unfold get_encryption_info. cbv [bind].
    rewrite get_current_key_version_steps, Hz. reflexivity.
  - intros user_data e w w1 Henc Hsame.
    destruct (@auto_encrypt_returns_inv X self user_data w w1 e Henc)
      as (acc & w0 & _ & Hk & He & Hw1).
    unfold get_encryption_info. cbv [bind ret].
    rewrite get_current_key_version_steps.
    replace (key_rotation_days self =? 0)%Z with false by (symmetry; now apply Z.eqb_neq).
    eexists. eexists. split; [reflexivity|].
    split; [|split; reflexivity].
    rewrite He. rewrite dict_get_setitem_other by discriminate.
    rewrite dict_get_setitem_same.
    change (dict_get (lit "current_key_version") _)
      with (Some (VStr (key_version_at self (clock w2 (ticks w2))))).
    unfold key_version_at. rewrite Hsame, Hw1.
    cbn [after_utcnow ticks clock].
    replace (S (S (ticks w0)) - 2) with (ticks w0) by lia. reflexivity.
Qed.

Lemma info_version_matches_stamp_witness :
  exists e info,
    fst (auto_encrypt_user_data (X := sample_externals) sample_encryptor sample_record
           sample_world) = Ok e
    /\ fst (get_encryption_info sample_encryptor sample_world) = Ok (VDict info)
    /\ dict_get (lit "current_key_version") info = dict_get (lit "_encryption_version") e
    /\ dict_get (lit "current_key_version") info = Some (VStr (lit "v27")).
Proof.
  destruct (auto_encrypt_user_data (X := sample_externals) sample_encryptor sample_record
              sample_world) as [[e|x] w1] eqn:E.
  2:{ exfalso. apply (f_equal fst) in E. vm_compute in E. discriminate. }
  assert (Hw1 : w1 = snd (auto_encrypt_user_data (X := sample_externals) sample_encryptor
                            sample_record sample_world)) by now rewrite E.
  destruct (proj2 (@info_version_matches_stamp sample_externals sample_encryptor sample_world)
              sample_record e sample_world w1 E) as (info & w3 & Hinfo & Hv & _).
  { rewrite Hw1. vm_compute. reflexivity. }
  exists e, info. split; [reflexivity|]. rewrite Hinfo. split; [reflexivity|].
  split; [exact Hv|].
  injection Hinfo as <- _. reflexivity.
Defined.

(** ** [encrypt_file] *)

Lemma encrypt_file_steps (A : AeadExternals)
  (self : PersonalDataEncryptor) (file_path output_path : str) (c : DataCategory)
  (files : dict bytes) (file_data : bytes) (w : world) :
  dict_get file_path files = Some file_data ->
  let iv := map (entropy w) (seq (drawn w) 12) in
  let now1 := clock w (ticks w) in
  let now2 := clock w (S (ticks w)) in
  let w1 := after_urandom 12 w in
  let w3 := after_utcnow (after_utcnow w1) in
  let w4 := add_event (EvAesGcmEncrypt iv) w3 in
  encrypt_file self file_path output_path c files w =
  match Cipher_AES_GCM (encryption_key self) iv None with
  | Raise _ => (Raise EncryptionError, files, w1)
  | Ok _ =>
      if (key_rotation_days self =? 0)%Z then (Raise EncryptionError, files, w3)
      else
        match utf8_encode (json_dumps_ascii (metadata_at self c now1 now2)) with
        | Raise _ => (Raise EncryptionError, files, w3)
        | Ok metadata_json =>
            let ct := aes_gcm_encrypt_aad (encryption_key self) iv metadata_json file_data in
            if (N.of_nat (length metadata_json) <? 256 ^ 4)%N then
              (Ok tt,
               dict_setitem output_path (file_container iv metadata_json (fst ct) (snd ct))
                 files, w4)
            else (Raise EncryptionError, dict_setitem output_path iv files, w4)
        end
  end.
Proof.
  intros Hfile iv now1 now2 w1 w3 w4.
  unfold encrypt_file. rewrite Hfile.
  cbv [bind lift os_urandom log ret raise].
  fold iv. fold (after_urandom 12 w). fold w1.
  unfold Cipher_AES_GCM.
  destruct (negb (valid_aes_key (encryption_key self))); [reflexivity|].
  destruct (negb (valid_gcm_iv iv)); [reflexivity|].
  cbv [_create_metadata _get_current_key_version utcnow bind ret raise
       log cipher_iv cipher_key].
  cbn [clock ticks entropy drawn trace w1 after_urandom].
  fold now1 now2.
  destruct (key_rotation_days self =? 0)%Z; [reflexivity|].
  fold (key_version_at self now2).
  fold (metadata_of (category_value c) (isoformat now1) (key_version_at self now2)).
  fold (metadata_at self c now1 now2).
  destruct (utf8_encode _) as [metadata_json|e]; [|reflexivity].
  unfold to_bytes_big. change (N.of_nat 4) with 4%N.
  destruct (N.of_nat (length metadata_json) <? 256 ^ 4)%N; reflexivity.
Qed.

Lemma json_escape_plain (c : N) :
  is_plain_char c = true -> json_escape_char_ascii c = json_escape_char c.
Proof.
  intros Hc. unfold is_plain_char in Hc. apply N.ltb_lt in Hc.
  assert (Hall : forallb (fun n => str_eqb (json_escape_char_ascii n) (json_escape_char n))
                   (map N.of_nat (seq 0 127)) = true) by (vm_compute; reflexivity).
  rewrite forallb_forall in Hall. apply str_eqb_eq. apply Hall.
  apply in_map_iff. exists (N.to_nat c). split; [apply N2Nat.id|]. apply in_seq. lia.
Qed.

Lemma json_quote_plain (s : str) :
  forallb is_plain_char s = true -> json_quote_ascii s = json_quote s.
Proof.
  intros Hs. unfold json_quote_ascii, json_quote. do 2 f_equal.
  induction s as [|c s IH]; [reflexivity|].
  cbn [forallb] in Hs. apply andb_prop in Hs. destruct Hs as [Hc Hs].
  cbn [flat_map]. now rewrite (json_escape_plain c Hc), (IH Hs).
Qed.

Lemma uint_text_plain (d : Decimal.uint) :
  forallb is_plain_char (lit (NilEmpty.string_of_uint d)) = true.
Proof. induction d; cbn; auto. Qed.

Lemma str_of_Z_plain (z : Z) : forallb is_plain_char (str_of_Z z) = true.
Proof.
  unfold str_of_Z, NilZero.string_of_int.
  destruct (Z.to_int z) as [d|d]; unfold NilZero.string_of_uint.
  - destruct d; try apply uint_text_plain. reflexivity.
  - change (lit (String "-" ?s)) with (45%N :: lit s).
    cbn [forallb]. destruct d; try apply uint_text_plain. reflexivity.
Qed.

Lemma zero_pad_plain (n : nat) (z : Z) : forallb is_plain_char (zero_pad n z) = true.
Proof.
  unfold zero_pad. rewrite forallb_app, str_of_Z_plain, andb_true_r.
  induction (n - length (str_of_Z z)); [reflexivity|]. cbn [repeat forallb]. exact IHn0.
Qed.

Lemma isoformat_plain (d : datetime) : forallb is_plain_char (isoformat d) = true.
Proof.
  unfold isoformat. rewrite !forallb_app, !zero_pad_plain.
  destruct (microsecond d =? 0)%Z; [reflexivity|].
  now rewrite forallb_app, zero_pad_plain.
Qed.

Lemma category_value_plain (c : DataCategory) :
  forallb is_plain_char (category_value c) = true.
Proof. destruct c; reflexivity. Qed.

Lemma key_version_plain (self : PersonalDataEncryptor) (now : datetime) :
  forallb is_plain_char (key_version_at self now) = true.
Proof. unfold key_version_at. now rewrite forallb_app, str_of_Z_plain. Qed.

Lemma metadata_dumps_ascii (self : PersonalDataEncryptor) (c : DataCategory)
  (now1 now2 : datetime) :
  json_dumps_ascii (metadata_at self c now1 now2) = json_dumps (metadata_at self c now1 now2).
Proof.
  unfold metadata_at, metadata_of. cbn [json_dumps_ascii json_dumps map].
  rewrite (json_quote_plain _ (category_value_plain c)).
  rewrite (json_quote_plain _ (isoformat_plain now1)).
  rewrite (json_quote_plain _ (key_version_plain self now2)).
  reflexivity.
Qed.

Lemma metadata_loads (category encrypted_at key_version : str) :
  json_loads (json_dumps (metadata_of category encrypted_at key_version))
  = Ok (metadata_of category encrypted_at key_version).
Proof.
  destruct (parses_metadata category encrypted_at key_version) as [Hws Hscan].
  unfold json_loads.
  specialize (Hws []).
  specialize (Hscan (S (length (json_dumps (metadata_of category encrypted_at key_version))))
                    []).
  rewrite app_nil_r in Hws, Hscan. rewrite Hws, Hscan; [reflexivity|].
  unfold metadata_of. rewrite json_dumps_dict. cbn [map join member_text].
  rewrite !length_app.
  change (length (lit "{")) with 1.
  change (length (json_quote (lit "category"))) with 10. lia.
Qed.

Lemma metadata_bytes (self : PersonalDataEncryptor) (c : DataCategory)
  (now1 now2 : datetime) :
  exists metadata_json,
    utf8_encode (json_dumps_ascii (metadata_at self c now1 now2)) = Ok metadata_json
    /\ utf8_decode metadata_json = Ok (json_dumps (metadata_at self c now1 now2)).
Proof.
  rewrite metadata_dumps_ascii.
  assert (Henc : encodable (json_dumps (metadata_at self c now1 now2)) = true).
  { unfold metadata_at, metadata_of.
    rewrite json_dumps_dict. cbn [map join member_text json_dumps].
    rewrite !encodable_app.
    rewrite (json_quote_encodable _ (ascii_encodable _ (category_value_ascii c))).
    rewrite (json_quote_encodable _ (ascii_encodable _ (isoformat_ascii now1))).
    rewrite (json_quote_encodable _ (ascii_encodable _ (key_version_ascii self now2))).
    reflexivity. }
  destruct (utf8_encode_encodable _ Henc) as [b Hb].
  exists b. split; [exact Hb|]. now apply utf8_roundtrip.
Qed.

Lemma be_digits_length (len : nat) (n : N) : length (be_digits len n) = len.
Proof.
  revert n. induction len as [|k IH]; intros n; [reflexivity|].
  cbn [be_digits]. rewrite length_app, IH. cbn [length]. lia.
Qed.






Lemma encrypt_file_returns_inv (A : AeadExternals)
  (self : PersonalDataEncryptor) (file_path output_path : str) (c : DataCategory)
  (files files' : dict bytes) (w w' : world) :
  encrypt_file self file_path output_path c files w = (Ok tt, files', w') ->
  let iv := map (entropy w) (seq (drawn w) 12) in
  exists file_data metadata_json,
    dict_get file_path files = Some file_data
    /\ utf8_encode (json_dumps_ascii (metadata_at self c (clock w (ticks w))
                                                  (clock w (S (ticks w))))) = Ok metadata_json
    /\ (N.of_nat (length metadata_json) < 256 ^ 4)%N
    /\ files' = dict_setitem output_path
                  (file_container iv metadata_json
                     (fst (aes_gcm_encrypt_aad (encryption_key self) iv metadata_json file_data))
                     (snd (aes_gcm_encrypt_aad (encryption_key self) iv metadata_json file_data)))
                  files.
Proof.
  intros Hrun iv.
  destruct (dict_get file_path files) as [file_data|] eqn:Hfile.
  2:{ unfold encrypt_file in Hrun. rewrite Hfile in Hrun. discriminate. }
  rewrite (@encrypt_file_steps A self file_path output_path c files file_data w Hfile)
    in Hrun.
  cbv zeta in Hrun. fold iv in Hrun.
  destruct (Cipher_AES_GCM _ _ _); [|discriminate].
  destruct (key_rotation_days self =? 0)%Z; [discriminate|].
  destruct (utf8_encode _) as [metadata_json|]; [|discriminate].
  destruct (N.of_nat (length metadata_json) <? 256 ^ 4)%N eqn:Hlen; [|discriminate].
  apply N.ltb_lt in Hlen. injection Hrun as <- _.
  exists file_data, metadata_json. repeat split. exact Hlen.
Qed.



Lemma slice_middle {T} (x y z : list T) :
  slice (Some (Z.of_nat (length x))) (Some (Z.of_nat (length x + length y))) (x ++ y ++ z) = y.
Proof.
  unfold slice, norm_index. rewrite !length_app.
  replace (Z.of_nat (length x) <? 0)%Z with false by (symmetry; apply Z.ltb_ge; lia).
  replace (Z.of_nat (length x + length y) <? 0)%Z with false
    by (symmetry; apply Z.ltb_ge; lia).
  rewrite !Z.min_r by lia.
  replace (Z.to_nat (Z.of_nat (length x + length y) - Z.of_nat (length x)))
    with (length y) by lia.
  rewrite Nat2Z.id, (skipn_exact x (y ++ z) eq_refl).
  now apply firstn_exact.
Qed.

Lemma be_digits_value (len : nat) :
  forall n acc,
    (n < 256 ^ N.of_nat len)%N ->
    fold_left (fun a b => a * 256 + byte_val b)%N (be_digits len n) acc
    = (acc * 256 ^ N.of_nat len + n)%N.
Proof.
  induction len as [|k IH]; intros n acc Hn.
  - cbn [be_digits fold_left]. change (256 ^ N.of_nat 0)%N with 1%N in *. lia.
  - cbn [be_digits]. rewrite fold_left_app. cbn [fold_left].
    assert (Hpow : (256 ^ N.of_nat (S k) = 256 * 256 ^ N.of_nat k)%N).
    { rewrite Nat2N.inj_succ, N.pow_succ_r'. reflexivity. }
    rewrite Hpow in Hn |- *.
    rewrite IH.
    2:{ apply N.Div0.div_lt_upper_bound. exact Hn. }
    rewrite byte_val_of_N.
    pose proof (N.div_mod n 256 ltac:(discriminate)) as Hdm.
    rewrite (N.mul_comm 256 (256 ^ N.of_nat k)), N.mul_assoc, N.Div0.mod_mod. lia.
Qed.

(** X18. The metadata of a file [encrypt_file] wrote is not encrypted:
    bytes 12 to 15 of the output are the big-endian length of the
    metadata, the bytes that follow decode as UTF-8 to a JSON text, and
    [json.loads] of that text is the metadata dictionary with the
    category, the time of encryption and the key version. *)
Theorem encrypted_file_metadata_readable (A : AeadExternals)
  (self : PersonalDataEncryptor) (file_path output_path : str) (c : DataCategory)
  (files files' : dict bytes) (w w' : world) :
  encrypt_file self file_path output_path c files w = (Ok tt, files', w') ->
  exists content metadata_json,
    dict_get output_path files' = Some content
    /\ fold_left (fun a b => a * 256 + byte_val b)%N
                 (slice (Some 12%Z) (Some 16%Z) content) 0%N
       = N.of_nat (length metadata_json)
    /\ slice (Some 16%Z) (Some (16 + Z.of_nat (length metadata_json))%Z) content
       = metadata_json
    /\ rbind (utf8_decode metadata_json) json_loads
       = Ok (VDict [(lit "category", VStr (category_value c));
                    (lit "encrypted_at", VStr (isoformat (clock w (ticks w))));
                    (lit "key_version",
                     VStr (key_version_at self (clock w (S (ticks w)))));
                    (lit "compliance", VStr (lit "152-FZ"))]).
Proof.
  intros Hrun.
  destruct (@encrypt_file_returns_inv A self file_path output_path c files files' w w' Hrun)
    as (file_data & metadata_json & _ & Henc & Hlen & Hfiles).
  set (iv := map (entropy w) (seq (drawn w) 12)) in *.
  set (ct := aes_gcm_encrypt_aad (encryption_key self) iv metadata_json file_data) in *.
  assert (Hiv : length iv = 12) by (unfold iv; now rewrite length_map, length_seq).
  set (len4 := be_digits 4 (N.of_nat (length metadata_json))).
  assert (Hlen4 : length len4 = 4) by apply be_digits_length.
  exists (file_container iv metadata_json (fst ct) (snd ct)), metadata_json.
  split; [rewrite Hfiles; apply dict_get_setitem_same|].
  unfold file_container. fold len4. split; [|split].
  - pose proof (slice_middle iv len4 (metadata_json ++ fst ct ++ snd ct)) as Hs.
    rewrite Hiv, Hlen4 in Hs. cbn [Nat.add Z.of_nat Pos.of_succ_nat Pos.succ] in Hs.
    rewrite Hs. unfold len4. rewrite be_digits_value by exact Hlen. lia.
  - pose proof (slice_middle (iv ++ len4) metadata_json (fst ct ++ snd ct)) as Hs.
    rewrite length_app, Hiv, Hlen4 in Hs. rewrite <- !app_assoc in Hs.
    replace (Z.of_nat (12 + 4)) with 16%Z in Hs by reflexivity.
    replace (Z.of_nat (12 + 4 + length metadata_json))
      with (16 + Z.of_nat (length metadata_json))%Z in Hs by lia.
    exact Hs.
  - destruct (metadata_bytes self c (clock w (ticks w)) (clock w (S (ticks w))))
      as (b & Hb & Hdec).
    assert (E : b = metadata_json) by congruence. subst b.
    rewrite Hdec. cbn [rbind]. apply metadata_loads.
Qed.

Lemma encrypted_file_metadata_readable_witness :
  exists files' w' content metadata_json,
    encrypt_file (A := sample_aead) sample_encryptor (lit "scan.jpg") (lit "scan.enc")
      DOCUMENT_PHOTO sample_files sample_world = (Ok tt, files', w')
    /\ dict_get (lit "scan.enc") files' = Some content
    /\ slice (Some 16%Z) (Some (16 + Z.of_nat (length metadata_json))%Z) content
       = metadata_json
    /\ rbind (utf8_decode metadata_json) json_loads
       = Ok (VDict [(lit "category", VStr (lit "document_photo"));
                    (lit "encrypted_at", VStr (lit "2026-11-03T09:05:00"));
                    (lit "key_version", VStr (lit "v27"));
                    (lit "compliance", VStr (lit "152-FZ"))]).
Proof.
  destruct (encrypt_file (A := sample_aead) sample_encryptor (lit "scan.jpg") (lit "scan.enc")
              DOCUMENT_PHOTO sample_files sample_world) as [[r files'] w'] eqn:E.
  assert (Hr : r = Ok tt).
  { apply (f_equal (fun t => fst (fst t))) in E. vm_compute in E. congruence. }
  subst r.
  destruct (@encrypted_file_metadata_readable sample_aead sample_encryptor (lit "scan.jpg")
              (lit "scan.enc") DOCUMENT_PHOTO sample_files files' sample_world w' E)
    as (content & metadata_json & Hout & _ & Hslice & Hload).
  exists files', w', content, metadata_json.
  split; [reflexivity|]. split; [exact Hout|]. split; [exact Hslice|].
  rewrite Hload. reflexivity.
Defined.

(** X19. A call of [encrypt_file] that fails raises [EncryptionError]
    and nothing else, and no call changes a path other than the output
    path.  When the input file does not exist, nothing is written, no
    random byte is drawn and the clock is not read; when the rotation
    period is zero days, nothing is written either. *)
Theorem encrypt_file_failure (A : AeadExternals)
  (self : PersonalDataEncryptor) (file_path output_path : str) (c : DataCategory)
  (files files' : dict bytes) (w w' : world) (r : result unit) :
  encrypt_file self file_path output_path c files w = (r, files', w') ->
  (forall e, r = Raise e -> e = EncryptionError)
  /\ (forall p, p <> output_path -> dict_get p files' = dict_get p files)
  /\ (dict_get file_path files = None ->
      r = Raise EncryptionError /\ files' = files /\ w' = w)
  /\ (key_rotation_days self = 0%Z -> r = Raise EncryptionError /\ files' = files).
Proof.
  intros Hrun.
  destruct (dict_get file_path files) as [file_data|] eqn:Hfile.
  - rewrite (@encrypt_file_steps A self file_path output_path c files file_data w Hfile)
      in Hrun. cbv zeta in Hrun.
    assert (Hframe : forall x p, p <> output_path ->
              dict_get p (dict_setitem output_path x files) = dict_get p files).
    { intros x p Hp. apply dict_get_setitem_other. congruence. }
    destruct (Cipher_AES_GCM _ _ _).
    + destruct (key_rotation_days self =? 0)%Z eqn:Hz.
      * injection Hrun as <- <- _.
        repeat split; try congruence; intros e [= <-]; reflexivity.
      * apply Z.eqb_neq in Hz.
        destruct (utf8_encode _) as [metadata_json|].
        -- destruct (N.of_nat (length metadata_json) <? 256 ^ 4)%N;
             injection Hrun as <- <- _;
             (split; [|split; [|split]]);
             try discriminate; try (intros; apply Hframe; assumption);
             try (intros e [= <-]; reflexivity); try (intros Hk; now elim Hz).
        -- injection Hrun as <- <- _.
           repeat split; try congruence; intros e [= <-]; reflexivity.
    + injection Hrun as <- <- _.
      repeat split; try congruence; intros e [= <-]; reflexivity.
  - unfold encrypt_file in Hrun. rewrite Hfile in Hrun. injection Hrun as <- <- <-.
    repeat split; try congruence; intros e [= <-]; reflexivity.
Qed.

Lemma encrypt_file_failure_witness :
  encrypt_file (A := sample_aead) sample_encryptor (lit "missing.jpg") (lit "scan.enc")
    DOCUMENT_PHOTO sample_files sample_world
  = (Raise EncryptionError, sample_files, sample_world).
Proof.
  destruct (encrypt_file (A := sample_aead) sample_encryptor (lit "missing.jpg")
              (lit "scan.enc") DOCUMENT_PHOTO sample_files sample_world)
    as [[r files'] w'] eqn:E.
  destruct (@encrypt_file_failure sample_aead sample_encryptor (lit "missing.jpg")
              (lit "scan.enc") DOCUMENT_PHOTO sample_files files' sample_world w' r E)
    as (_ & _ & H & _).
  destruct (H eq_refl) as (-> & -> & ->). reflexivity.
Defined.

(** ** JSON with [ensure_ascii=True]: what is written is read back *)

Lemma hex_digit_ok (d : N) : (d < 16)%N -> hex_value (hex_digit d) = Some d.
Proof.
  intros Hd.
  assert (Hall : forallb hex_digit_checked (map N.of_nat (seq 0 16)) = true)
    by (vm_compute; reflexivity).
  rewrite forallb_forall in Hall.
  assert (Hin : In d (map N.of_nat (seq 0 16))).
  { apply in_map_iff. exists (N.to_nat d). split; [apply N2Nat.id|]. apply in_seq. lia. }
  specialize (Hall d Hin). unfold hex_digit_checked in Hall.
  destruct (hex_value (hex_digit d)); [|discriminate].
  apply N.eqb_eq in Hall. now subst.
Qed.

Lemma hex4_decode (c : N) :
  (c < 65536)%N ->
  decode_uXXXX (hex_digit (c / 4096 mod 16)) (hex_digit (c / 256 mod 16))
               (hex_digit (c / 16 mod 16)) (hex_digit (c mod 16)) = Some c.
Proof.
  intros Hc. unfold decode_uXXXX.
  rewrite !hex_digit_ok by (apply N.mod_lt; discriminate).
  f_equal. zify. euclid.
Qed.

Lemma surrogate_bits (y : N) :
  (y < 1024)%N -> N.lor 0xD800 y = (0xD800 + y)%N /\ N.lor 0xDC00 y = (0xDC00 + y)%N.
Proof.
  intros Hy.
  assert (Hall : forallb surrogate_bits_checked (map N.of_nat (seq 0 1024)) = true)
    by (vm_compute; reflexivity).
  rewrite forallb_forall in Hall.
  assert (Hin : In y (map N.of_nat (seq 0 1024))).
  { apply in_map_iff. exists (N.to_nat y). split; [apply N2Nat.id|]. apply in_seq. lia. }
  specialize (Hall y Hin). unfold surrogate_bits_checked in Hall.
  apply andb_prop in Hall. destruct Hall as [H1 H2].
  apply N.eqb_eq in H1, H2. now split.
Qed.

Lemma surrogate_pair_of (v : N) :
  (v < 1048576)%N ->
  N.lor 0xD800 (N.land (N.shiftr v 10) 0x3FF) = (0xD800 + v / 1024)%N
  /\ N.lor 0xDC00 (N.land v 0x3FF) = (0xDC00 + v mod 1024)%N.
Proof.
  intros Hv.
  change 0x3FF%N with (N.ones 10). rewrite !N.land_ones, N.shiftr_div_pow2.
  change (2 ^ 10)%N with 1024%N.
  assert (H1 : (v / 1024 < 1024)%N) by (zify; euclid).
  rewrite (N.mod_small _ _ H1).
  split.
  - apply (surrogate_bits H1).
  - apply surrogate_bits. apply N.mod_lt. discriminate.
Qed.

Lemma scanstring_u_escape (c : N) (rest : str) :
  (c < 65536)%N -> is_high_surrogate c = false ->
  scanstring ((0x5C :: 0x75 :: hex4 c)%N ++ rest) = push_char c (scanstring rest).
Proof.
  intros Hc Hs. unfold hex4. cbn [app]. rewrite scanstring_eq. cbn [scanstring_step].
  change (92 =? 34)%N with false. change (92 =? 92)%N with true.
  change (117 =? 117)%N with true. cbv iota.
  rewrite (hex4_decode Hc), Hs. cbn [andb].
  destruct rest as [|? [|? [|? [|? [|? [|? ?]]]]]]; reflexivity.
Qed.

Lemma scanstring_pair_escape (hi lo : N) (rest : str) :
  (hi < 65536)%N -> (lo < 65536)%N ->
  is_high_surrogate hi = true -> is_low_surrogate lo = true ->
  scanstring (((0x5C :: 0x75 :: hex4 hi) ++ (0x5C :: 0x75 :: hex4 lo))%N ++ rest)
  = push_char (join_surrogates hi lo) (scanstring rest).
Proof.
  intros Hhi Hlo Hh Hl. unfold hex4. cbn [app]. rewrite scanstring_eq.
  cbn [scanstring_step].
  change (92 =? 34)%N with false. change (92 =? 92)%N with true.
  change (117 =? 117)%N with true. cbv iota.
  rewrite (hex4_decode Hhi), Hh. cbn [andb]. cbv iota.
  rewrite (hex4_decode Hlo), Hl. reflexivity.
Qed.

Lemma scanstring_escape_ascii (c : N) (rest : str) :
  is_scalar c = true ->
  scanstring (json_escape_char_ascii c ++ rest) = push_char c (scanstring rest).
Proof.
  intros Hc.
  destruct (is_plain_char c) eqn:Hp.
  { rewrite (json_escape_plain c Hp). apply scanstring_escape. }
  unfold is_plain_char in Hp. apply N.ltb_ge in Hp.
  unfold is_scalar, is_surrogate in Hc. apply andb_prop in Hc. destruct Hc as [Hmax Hsur].
  apply N.ltb_lt in Hmax. apply negb_true_iff in Hsur.
  unfold json_escape_char_ascii.
  replace (c =? 92)%N with false by (symmetry; apply N.eqb_neq; lia).
  replace (c =? 34)%N with false by (symmetry; apply N.eqb_neq; lia).
  replace (c =? 8)%N with false by (symmetry; apply N.eqb_neq; lia).
  replace (c =? 12)%N with false by (symmetry; apply N.eqb_neq; lia).
  replace (c =? 10)%N with false by (symmetry; apply N.eqb_neq; lia).
  replace (c =? 13)%N with false by (symmetry; apply N.eqb_neq; lia).
  replace (c =? 9)%N with false by (symmetry; apply N.eqb_neq; lia).
  replace (c <=? 126)%N with false by (symmetry; apply N.leb_gt; lia).
  rewrite andb_false_r.
  destruct (c <? 65536)%N eqn:Hbmp.
  - apply N.ltb_lt in Hbmp. apply scanstring_u_escape; [exact Hbmp|].
    unfold is_high_surrogate.
    apply andb_false_iff in Hsur. destruct Hsur as [H1|H2].
    + now rewrite H1.
    + apply N.leb_gt in H2. apply andb_false_iff. right. apply N.leb_gt. lia.
  - apply N.ltb_ge in Hbmp. cbv zeta.
    assert (Hv : (c - 65536 < 1048576)%N) by lia.
    destruct (surrogate_pair_of Hv) as [-> ->].
    assert (Hq : ((c - 65536) / 1024 < 1024)%N) by (zify; euclid).
    assert (Hr : ((c - 65536) mod 1024 < 1024)%N) by (apply N.mod_lt; discriminate).
    rewrite scanstring_pair_escape.
    + f_equal. unfold join_surrogates. zify. euclid.
    + clear - Hq. zify. euclid.
    + clear - Hr. zify. euclid.
    + unfold is_high_surrogate. apply andb_true_intro.
      split; apply N.leb_le; clear - Hq; zify; euclid.
    + unfold is_low_surrogate. apply andb_true_intro.
      split; apply N.leb_le; clear - Hr; zify; euclid.
Qed.

Lemma scanstring_quoted_ascii (s rest : str) :
  encodable s = true ->
  scanstring (flat_map json_escape_char_ascii s ++ 34%N :: rest) = Ok (s, rest).
Proof.
  induction s as [|c s IH]; intros Hs; [reflexivity|].
  cbn [encodable forallb] in Hs. apply andb_prop in Hs. destruct Hs as [Hc Hs].
  cbn [flat_map]. rewrite <- app_assoc, (@scanstring_escape_ascii c _ Hc), (IH Hs).
  reflexivity.
Qed.

Lemma parses_ascii_mono (n m : nat) (x : value) :
  n <= m -> parses_ascii n x -> parses_ascii m x.
Proof. intros Hnm [H1 H2]. split; [exact H1|]. intros. apply H2. lia. Qed.

Lemma parses_ascii_storable (v : value) : storable v = true -> parses_ascii 1 v.
Proof.
  destruct v as [|b|z|s|l|d]; cbn [storable]; try discriminate; intros Hv.
  - split; [reflexivity|]. intros [|fuel] rest Hf; [lia|reflexivity].
  - destruct b; (split; [reflexivity|]; intros [|fuel] rest Hf; [lia|reflexivity]).
  - split; [reflexivity|].
    intros [|fuel] rest Hf; [lia|].
    cbn [json_dumps_ascii]. unfold json_quote_ascii. cbn [app scan_once].
    change (34 =? 34)%N with true. cbv iota.
    rewrite <- app_assoc. cbn [app]. rewrite (@scanstring_quoted_ascii s _ Hv). reflexivity.
Qed.

Lemma json_dumps_ascii_dict (d : dict value) :
  json_dumps_ascii (VDict d)
  = lit "{" ++ join (lit ", ") (map member_text_ascii d) ++ lit "}".
Proof. reflexivity. Qed.

Lemma scan_members_ok_ascii (n : nat) (d : dict value) :
  Forall (fun kv => encodable (fst kv) = true /\ parses_ascii n (snd kv)) d ->
  d <> [] ->
  forall fuel acc rest,
    n + length d <= fuel ->
    scan_members fuel (join (lit ", ") (map member_text_ascii d) ++ 125%N :: rest) acc
    = Ok (rev acc ++ d, rest).
Proof.
  induction 1 as [|[k x] d [Hk [Hws Hx]] Hd IH]; [congruence|].
  intros _ [|fuel] acc rest Hf; [cbn [length] in Hf; lia|].
  cbn [length] in Hf. cbn [fst snd] in Hk, Hws, Hx.
  assert (Hhead : forall tail,
    scan_members (S fuel) (member_text_ascii (k, x) ++ tail) acc =
    match skip_ws tail with
    | c :: r3 =>
        if (c =? 125)%N then Ok (rev ((k, x) :: acc), r3)
        else if (c =? 44)%N then scan_members fuel (skip_ws r3) ((k, x) :: acc)
        else Raise JSONDecodeError
    | [] => Raise JSONDecodeError
    end).
  { intros tail. cbn [member_text_ascii]. unfold json_quote_ascii.
    cbn [app scan_members]. change (34 =? 34)%N with true. cbv iota.
    rewrite <- !app_assoc. cbn [app]. rewrite (@scanstring_quoted_ascii k _ Hk).
    change (lit ": ") with [58; 32]%N. cbn [app skip_ws].
    change (is_ws 58) with false. cbv iota.
    change (58 =? 58)%N with true. cbv iota.
    cbn [skip_ws]. change (is_ws 32) with true. cbv iota.
    rewrite Hws. rewrite Hx by lia. reflexivity. }
  destruct d as [|kv' d'].
  - cbn [map join]. rewrite Hhead. cbn [skip_ws].
    change (is_ws 125) with false. cbv iota.
    change (125 =? 125)%N with true. cbv iota.
    reflexivity.
  - change (join (lit ", ") (map member_text_ascii ((k, x) :: kv' :: d')))
      with (member_text_ascii (k, x) ++ lit ", "
            ++ join (lit ", ") (map member_text_ascii (kv' :: d'))).
    rewrite <- !app_assoc. rewrite Hhead.
    change (lit ", ") with [44; 32]%N. cbn [app skip_ws].
    change (is_ws 44) with false. cbv iota.
    change (44 =? 125)%N with false. change (44 =? 44)%N with true. cbv iota.
    cbn [skip_ws]. change (is_ws 32) with true. cbv iota.
    assert (Hq : forall tail,
      skip_ws (join [44; 32]%N (map member_text_ascii (kv' :: d')) ++ tail)
      = join [44; 32]%N (map member_text_ascii (kv' :: d')) ++ tail).
    { intros tail. destruct kv' as [k' x']. destruct d'; reflexivity. }
    rewrite Hq. change [44; 32]%N with (lit ", ").
    rewrite IH by (cbn [length] in *; first [congruence | lia]).
    cbn [rev]. now rewrite <- app_assoc.
Qed.

Lemma dict_setitem_fresh {V} (k : str) (v : V) (d : dict V) :
  ~ In k (keys d) -> dict_setitem k v d = d ++ [(k, v)].
Proof.
  induction d as [|[k' v'] d IH]; intros Hk; [reflexivity|].
  cbn [dict_setitem]. destruct (str_eqb k' k) eqn:E.
  - apply str_eqb_eq in E. subst k'. elim Hk. now left.
  - cbn [app]. f_equal. apply IH. intros Hin. apply Hk. now right.
Qed.

Lemma dict_of_pairs_NoDup {V} (d : dict V) : NoDup (keys d) -> dict_of_pairs d = d.
Proof.
  unfold dict_of_pairs.
  assert (Hgen : forall acc : dict V,
            NoDup (keys acc ++ keys d) ->
            fold_left (fun a kv => dict_setitem (fst kv) (snd kv) a) d acc = acc ++ d).
  { induction d as [|[k v] d IH]; intros acc Hnd; [now rewrite app_nil_r|].
    cbn [fold_left fst snd]. cbn [keys map fst] in Hnd.
    rewrite dict_setitem_fresh.
    2:{ apply NoDup_remove_2 in Hnd. intros Hin. apply Hnd. apply in_or_app. now left. }
    rewrite IH.
    - now rewrite <- app_assoc.
    - unfold keys. rewrite map_app. cbn [map fst]. rewrite <- app_assoc. exact Hnd. }
  intros Hnd. apply (Hgen []). exact Hnd.
Qed.

Lemma join_length_ge (sep : str) (parts : list str) :
  Forall (fun p => 1 <= length p) parts -> length parts <= length (join sep parts).
Proof.
  induction 1 as [|p parts Hp Hall IH]; [cbn; lia|].
  destruct parts as [|q parts']; [cbn [join length]; lia|].
  change (join sep (p :: q :: parts')) with (p ++ sep ++ join sep (q :: parts')).
  rewrite !length_app. cbn [length] in *. lia.
Qed.

Lemma parses_ascii_dict (n : nat) (d : dict value) :
  Forall (fun kv => encodable (fst kv) = true /\ parses_ascii n (snd kv)) d ->
  d <> [] ->
  dict_of_pairs d = d ->
  parses_ascii (S (n + length d)) (VDict d).
Proof.
  intros Hall Hne Hpairs. split; [reflexivity|].
  intros [|fuel] rest Hf; [lia|].
  rewrite json_dumps_ascii_dict. change (lit "{") with [123%N]. change (lit "}") with [125%N].
  rewrite <- !app_assoc. cbn [app scan_once].
  change (123 =? 34)%N with false. change (123 =? 123)%N with true. cbv iota.
  assert (Hq : exists t,
             join (lit ", ") (map member_text_ascii d) ++ 125%N :: rest = 34%N :: t).
  { destruct d as [|[k x] d']; [congruence|].
    destruct d'; eexists; reflexivity. }
  destruct Hq as [t Ht].
  pose proof (@scan_members_ok_ascii n d Hall Hne fuel [] rest) as Hm.
  rewrite Ht in *. cbn [skip_ws]. change (is_ws 34) with false. cbv iota.
  change (34 =? 125)%N with false. cbv iota.
  rewrite Hm by lia. cbn [rmap fst snd rev app]. now rewrite Hpairs.
Qed.

Lemma stored_record_loads (d : dict value) :
  storable_record d = true ->
  NoDup (keys d) ->
  json_loads (json_dumps_ascii (VDict d)) = Ok (VDict d).
Proof.
  intros Hst Hnd.
  destruct d as [|kv0 d0] eqn:Ed; [reflexivity|]. rewrite <- Ed in *.
  assert (Hne : d <> []) by (rewrite Ed; discriminate).
  assert (Hall : Forall (fun kv => encodable (fst kv) = true /\ parses_ascii 1 (snd kv)) d).
  { unfold storable_record in Hst. rewrite forallb_forall in Hst.
    apply Forall_forall. intros kv Hin. specialize (Hst kv Hin).
    apply andb_prop in Hst. destruct Hst as [Hk Hv].
    split; [exact Hk|now apply parses_ascii_storable]. }
  destruct (@parses_ascii_dict 1 d Hall Hne (dict_of_pairs_NoDup d Hnd)) as [Hws Hscan].
  unfold json_loads.
  specialize (Hws []).
  specialize (Hscan (S (length (json_dumps_ascii (VDict d)))) []).
  rewrite app_nil_r in Hws, Hscan. rewrite Hws, Hscan; [reflexivity|].
  rewrite json_dumps_ascii_dict, !length_app.
  change (length (lit "{")) with 1. change (length (lit "}")) with 1.
  assert (Hj : length (map member_text_ascii d)
               <= length (join (lit ", ") (map member_text_ascii d))).
  { apply join_length_ge. apply Forall_forall. intros p Hin.
    apply in_map_iff in Hin. destruct Hin as ([k x] & <- & _).
    cbn [member_text_ascii]. unfold json_quote_ascii. cbn [length app]. lia. }
  rewrite length_map in Hj. lia.
Qed.

(** ** When encryption returns, and what it returns can be stored *)

Lemma urlsafe_char_scalar (c : N) : is_urlsafe_char c = true -> is_scalar c = true.
Proof.
  intros Hc. apply is_ascii_scalar. unfold is_ascii. apply N.ltb_lt.
  unfold is_urlsafe_char in Hc.
  repeat match goal with
         | H : (_ || _) = true |- _ => apply orb_prop in H; destruct H as [H|H]
         | H : (_ && _) = true |- _ => apply andb_prop in H; destruct H as [? H]
         end;
    repeat match goal with
           | H : (_ <=? _)%N = true |- _ => apply N.leb_le in H
           | H : (_ =? _)%N = true |- _ => apply N.eqb_eq in H
           end; lia.
Qed.

Lemma encrypt_field_returns (X : Externals) (self : PersonalDataEncryptor) (s : str)
  (c : DataCategory) (w : world) :
  valid_aes_key (encryption_key self) = true ->
  key_rotation_days self <> 0%Z ->
  encodable s = true ->
  exists env w', encrypt_field self s c w = (Ok env, w') /\ encodable env = true.
Proof.
  intros Hkey Hd Henc.
  destruct s as [|c0 t0]; [exists [], w; split; reflexivity|].
  assert (Hs : c0 :: t0 <> []) by discriminate.
  set (iv := map (entropy w) (seq (drawn w) 12)).
  assert (Hiv : length iv = 12) by (unfold iv; now rewrite length_map, length_seq).
  rewrite (@encrypt_field_steps X self (c0 :: t0) c w Hs). fold iv.
  unfold Cipher_AES_GCM. rewrite Hkey. cbn [negb].
  unfold valid_gcm_iv. rewrite Hiv. cbn [Nat.leb andb negb].
  apply Z.eqb_neq in Hd. rewrite Hd.
  destruct (@utf8_encode_encodable _
              (@package_encodable self (c0 :: t0) c (clock w (ticks w))
                 (clock w (S (ticks w))) Henc)) as [plain Hplain].
  rewrite Hplain.
  rewrite (utf8_decode_ascii (urlsafe_b64encode_ascii (envelope_bytes self iv plain))).
  eexists _, _. split; [reflexivity|].
  unfold encodable. rewrite forallb_forall. intros x Hx.
  apply urlsafe_char_scalar.
  pose proof (urlsafe_b64encode_alphabet (envelope_bytes self iv plain)) as Ha.
  rewrite forallb_forall in Ha. now apply Ha.
Qed.

Lemma storable_setitem (k : str) (v : value) (d : dict value) :
  storable_record d = true -> encodable k = true -> storable v = true ->
  storable_record (dict_setitem k v d) = true.
Proof.
  intros Hd Hk Hv. induction d as [|[k' v'] d IH].
  - cbn [dict_setitem storable_record forallb fst snd]. now rewrite Hk, Hv.
  - cbn [storable_record forallb fst snd] in Hd. apply andb_prop in Hd.
    destruct Hd as [Hhead Htail]. apply andb_prop in Hhead. destruct Hhead as [Hk' Hv'].
    cbn [dict_setitem]. destruct (str_eqb k' k).
    + cbn [storable_record forallb fst snd]. rewrite Hk', Hv. exact Htail.
    + cbn [storable_record forallb fst snd]. rewrite Hk', Hv'. apply IH. exact Htail.
Qed.

Lemma auto_encrypt_loop_returns (X : Externals) (self : PersonalDataEncryptor)
  (items : list (str * value)) :
  valid_aes_key (encryption_key self) = true ->
  key_rotation_days self <> 0%Z ->
  (forall field v, In (field, v) items ->
     encodable field = true
     /\ if is_encrypted_field field && truthy v then encodable (py_str py_repr v) = true
        else storable v = true) ->
  forall acc w,
    storable_record acc = true ->
    exists acc' w',
      auto_encrypt_loop self items acc w = (Ok acc', w') /\ storable_record acc' = true.
Proof.
  intros Hkey Hd. induction items as [|[field v] items IH]; intros Hall acc w Hacc.
  - exists acc, w. split; [reflexivity|exact Hacc].
  - cbn [auto_encrypt_loop].
    destruct (Hall field v (or_introl eq_refl)) as [Hfield Hv].
    assert (Hrest : forall f x, In (f, x) items ->
              encodable f = true
              /\ if is_encrypted_field f && truthy x then encodable (py_str py_repr x) = true
                 else storable x = true).
    { intros f x Hin. apply Hall. now right. }
    destruct (is_encrypted_field field && truthy v).
    + cbv [bind].
      destruct (@encrypt_field_returns X self (py_str py_repr v)
                  (_map_field_to_category field) w Hkey Hd Hv) as (env & w1 & -> & Henv).
      apply (IH Hrest). now apply storable_setitem.
    + apply (IH Hrest). now apply storable_setitem.
Qed.

Lemma auto_encrypt_returns (X : Externals) (self : PersonalDataEncryptor)
  (user_data : dict value) (w : world) :
  valid_aes_key (encryption_key self) = true ->
  key_rotation_days self <> 0%Z ->
  (forall field v, In (field, v) user_data ->
     encodable field = true
     /\ if is_encrypted_field field && truthy v then encodable (py_str py_repr v) = true
        else storable v = true) ->
  exists e w',
    auto_encrypt_user_data self user_data w = (Ok e, w')
    /\ storable_record e = true /\ NoDup (keys e).
Proof.
  intros Hkey Hd Hall.
  destruct (@auto_encrypt_loop_returns X self user_data Hkey Hd Hall [] w eq_refl)
    as (acc & w0 & Hloop & Hst).
  unfold auto_encrypt_user_data. cbv [bind]. rewrite Hloop.
  rewrite get_current_key_version_steps.
  replace (key_rotation_days self =? 0)%Z with false by (symmetry; now apply Z.eqb_neq).
  cbv [utcnow ret]. eexists _, _. split; [reflexivity|]. split.
  - repeat apply storable_setitem; try reflexivity; try exact Hst;
      apply ascii_encodable; first [apply isoformat_ascii | apply key_version_ascii].
  - repeat apply keys_setitem_NoDup.
    apply (@auto_encrypt_loop_NoDup X self user_data [] w acc w0); [constructor|exact Hloop].
Qed.

(** ** Sorting the items of a dictionary *)

Lemma str_ltb_irrefl (a : str) : str_ltb a a = false.
Proof.
  induction a as [|x a IH]; [reflexivity|].
  cbn [str_ltb]. rewrite N.ltb_irrefl. exact IH.
Qed.

Lemma str_ltb_trans (a b c : str) :
  str_ltb a b = true -> str_ltb b c = true -> str_ltb a c = true.
Proof.
  revert b c. induction a as [|x a IH]; intros [|y b] [|z c]; cbn [str_ltb];
    try discriminate; try reflexivity.
  destruct (N.ltb_spec x y) as [Hxy|Hxy].
  - intros _. destruct (N.ltb_spec y z) as [Hyz|Hyz].
    + intros _. destruct (N.ltb_spec x z); [reflexivity|lia].
    + destruct (N.ltb_spec z y) as [Hzy|Hzy]; [discriminate|].
      intros _. destruct (N.ltb_spec x z); [reflexivity|lia].
  - destruct (N.ltb_spec y x) as [Hyx|Hyx]; [discriminate|].
    assert (x = y) by lia. subst y. intros Hab.
    destruct (N.ltb_spec x z) as [Hxz|Hxz]; [reflexivity|].
    destruct (N.ltb_spec z x) as [Hzx|Hzx]; [discriminate|].
    intros Hbc. now apply (IH b c).
Qed.

Lemma str_ltb_total (a b : str) :
  a <> b -> str_ltb a b = true \/ str_ltb b a = true.
Proof.
  revert b. induction a as [|x a IH]; intros [|y b] Hne; cbn [str_ltb].
  - congruence.
  - now left.
  - now right.
  - destruct (N.ltb_spec x y) as [Hxy|Hxy]; [now left|].
    destruct (N.ltb_spec y x) as [Hyx|Hyx]; [now right|].
    assert (x = y) by lia. subst y.
    apply IH. congruence.
Qed.

Lemma str_ltb_asym (a b : str) : str_ltb a b = true -> str_ltb b a = false.
Proof.
  intros Hab. destruct (str_ltb b a) eqn:Hba; [|reflexivity].
  pose proof (str_ltb_trans _ _ _ Hab Hba) as H. now rewrite str_ltb_irrefl in H.
Qed.

Lemma insert_item_comm_lt {V} (a b : str * V) (l : list (str * V)) :
  str_ltb (fst a) (fst b) = true ->
  insert_item a (insert_item b l) = insert_item b (insert_item a l).
Proof.
  intros Hab. pose proof (str_ltb_asym _ _ Hab) as Hba.
  induction l as [|h t IH].
  - cbn [insert_item]. now rewrite Hab, Hba.
  - cbn [insert_item].
    destruct (str_ltb (fst h) (fst a)) eqn:Hha.
    + rewrite (str_ltb_trans _ _ _ Hha Hab). cbn [insert_item].
      rewrite Hha, (str_ltb_trans _ _ _ Hha Hab). now rewrite IH.
    + destruct (str_ltb (fst h) (fst b)) eqn:Hhb; cbn [insert_item].
      * now rewrite Hha, Hab, Hhb.
      * now rewrite Hba, Hab, Hhb.
Qed.

Lemma insert_item_comm {V} (a b : str * V) (l : list (str * V)) :
  fst a <> fst b ->
  insert_item a (insert_item b l) = insert_item b (insert_item a l).
Proof.
  intros Hne. destruct (str_ltb_total Hne) as [H|H].
  - now apply insert_item_comm_lt.
  - symmetry. now apply insert_item_comm_lt.
Qed.

Lemma insert_item_perm {V} (a : str * V) (l : list (str * V)) :
  Permutation (insert_item a l) (a :: l).
Proof.
  induction l as [|h t IH]; [reflexivity|].
  cbn [insert_item]. destruct (str_ltb (fst h) (fst a)); [|reflexivity].
  rewrite IH. apply perm_swap.
Qed.

Lemma sorted_items_perm {V} (d : dict V) : Permutation (sorted_items d) d.
Proof.
  induction d as [|a d IH]; [reflexivity|].
  unfold sorted_items in *. cbn [fold_right]. rewrite insert_item_perm. now constructor.
Qed.

Lemma sorted_items_permutation {V} (d1 d2 : dict V) :
  Permutation d1 d2 -> NoDup (keys d1) -> sorted_items d1 = sorted_items d2.
Proof.
  unfold sorted_items.
  induction 1 as [|a l1 l2 Hp IH|a b l|l1 l2 l3 Hp1 IH1 Hp2 IH2]; intros Hnd.
  - reflexivity.
  - cbn [fold_right]. rewrite IH; [reflexivity|].
    cbn [keys map] in Hnd. now apply NoDup_cons_iff in Hnd.
  - cbn [fold_right]. apply insert_item_comm.
    cbn [keys map] in Hnd. apply NoDup_cons_iff in Hnd. destruct Hnd as [Hnotin _].
    intros E. apply Hnotin. left. now symmetry.
  - rewrite IH1 by exact Hnd. apply IH2.
    unfold keys in *. apply (Permutation_NoDup (Permutation_map fst Hp1) Hnd).
Qed.

(** ** The data hash *)

Lemma keys_map_values {V W} (f : V -> W) (d : dict V) :
  keys (map (fun kv : str * V => let (k, x) := kv in (k, f x)) d) = keys d.
Proof.
  unfold keys. rewrite map_map. apply map_ext. now intros [k x].
Qed.

(** X20. [_create_data_hash] does not depend on the order of the keys
    of the record: two records with the same items in different orders
    get the same hash (or make it raise alike). *)
Theorem data_hash_ignores_key_order (H : HashExternals) (d1 d2 : dict value) :
  Permutation d1 d2 ->
  NoDup (keys d1) ->
  UserService._create_data_hash d1 = UserService._create_data_hash d2.
Proof.
  intros Hp Hnd. unfold UserService._create_data_hash, json_dumps_sorted.
  cbn [sort_keys].
  rewrite (@sorted_items_permutation _ _ _
             (Permutation_map (fun kv : str * value => let (k, x) := kv in (k, sort_keys x)) Hp)).
  - reflexivity.
  - now rewrite keys_map_values.
Qed.

Lemma data_hash_ignores_key_order_witness :
  UserService._create_data_hash (H := sample_hasher)
    [(lit "fio", VStr (lit "Ivanov")); (lit "city", VStr (lit "Kazan"))]
  = UserService._create_data_hash (H := sample_hasher)
      [(lit "city", VStr (lit "Kazan")); (lit "fio", VStr (lit "Ivanov"))].
Proof.
  apply data_hash_ignores_key_order.
  - apply perm_swap.
  - repeat constructor; cbn; intuition discriminate.
Defined.

Lemma storable_sort_keys (v : value) : storable v = true -> sort_keys v = v.
Proof. destruct v; cbn [storable]; try discriminate; reflexivity. Qed.

Lemma sort_keys_flat (d : dict value) :
  storable_record d = true ->
  map (fun kv : str * value => let (k, x) := kv in (k, sort_keys x)) d = d.
Proof.
  induction d as [|[k x] d IH]; [reflexivity|].
  cbn [storable_record forallb fst snd]. intros Hd.
  apply andb_prop in Hd. destruct Hd as [Hkx Hd]. apply andb_prop in Hkx.
  destruct Hkx as [_ Hx].
  cbn [map]. rewrite (storable_sort_keys _ Hx). f_equal. now apply IH.
Qed.

Lemma storable_record_perm (d d' : dict value) :
  Permutation d d' -> storable_record d = true -> storable_record d' = true.
Proof.
  unfold storable_record. rewrite !forallb_forall. intros Hp Hd kv Hin.
  apply Hd. apply (Permutation_in kv (Permutation_sym Hp) Hin).
Qed.

Lemma storable_value_encodable (v : value) :
  storable v = true -> encodable (json_dumps v) = true.
Proof.
  destruct v as [|b|z|s|l|d]; cbn [storable]; try discriminate; intros Hv.
  - reflexivity.
  - destruct b; reflexivity.
  - cbn [json_dumps]. now apply json_quote_encodable.
Qed.

Lemma record_text_encodable (d : dict value) :
  storable_record d = true -> encodable (json_dumps (VDict d)) = true.
Proof.
  intros Hd. rewrite json_dumps_dict, !encodable_app.
  change (encodable (lit "{")) with true. change (encodable (lit "}")) with true.
  rewrite andb_true_r. cbn [andb].
  induction d as [|[k x] d IH]; [reflexivity|].
  cbn [storable_record forallb fst snd] in Hd.
  apply andb_prop in Hd. destruct Hd as [Hkx Hd]. apply andb_prop in Hkx.
  destruct Hkx as [Hk Hx].
  assert (Hm : encodable (member_text (k, x)) = true).
  { cbn [member_text]. rewrite !encodable_app, (json_quote_encodable _ Hk),
      (storable_value_encodable _ Hx). reflexivity. }
  destruct d as [|kv' d'].
  - cbn [map join]. exact Hm.
  - change (join (lit ", ") (map member_text ((k, x) :: kv' :: d')))
      with (member_text (k, x) ++ lit ", " ++ join (lit ", ") (map member_text (kv' :: d'))).
    rewrite !encodable_app, Hm, (IH Hd). reflexivity.
Qed.

Lemma create_data_hash_returns (H : HashExternals) (d : dict value) :
  storable_record d = true -> exists h, UserService._create_data_hash d = Ok h.
Proof.
  intros Hd. unfold UserService._create_data_hash, json_dumps_sorted.
  cbn [sort_keys]. rewrite (sort_keys_flat d Hd).
  assert (Hs : storable_record (sorted_items d) = true).
  { apply (storable_record_perm (Permutation_sym (sorted_items_perm d)) Hd). }
  destruct (utf8_encode_encodable _ (record_text_encodable _ Hs)) as [b Hb].
  rewrite Hb. eexists. reflexivity.
Qed.

(** ** Saving and reading a user's record *)

Lemma session_get_commit (u : User) (table : list User) :
  session_get (session_commit u table) (user_id u) = Some u.
Proof.
  unfold session_get. induction table as [|u' t IH]; cbn [session_commit find].
  - now rewrite Z.eqb_refl.
  - destruct (user_id u' =? user_id u)%Z eqn:E; cbn [find].
    + now rewrite Z.eqb_refl.
    + rewrite E. exact IH.
Qed.

Lemma storable_py_str (X : Externals) (v : value) :
  storable v = true -> encodable (py_str py_repr v) = true.
Proof.
  destruct v as [|b|z|s|l|d]; cbn [storable py_str]; try discriminate; intros Hv.
  - reflexivity.
  - destruct b; reflexivity.
  - exact Hv.
Qed.

Lemma storable_record_fields (X : Externals) (d : dict value) :
  storable_record d = true ->
  forall field v, In (field, v) d ->
    encodable field = true
    /\ if is_encrypted_field field && truthy v then encodable (py_str py_repr v) = true
       else storable v = true.
Proof.
  intros Hd field v Hin. unfold storable_record in Hd. rewrite forallb_forall in Hd.
  specialize (Hd (field, v) Hin). cbn [fst snd] in Hd.
  apply andb_prop in Hd. destruct Hd as [Hk Hv]. split; [exact Hk|].
  destruct (is_encrypted_field field && truthy v); [now apply storable_py_str|exact Hv].
Qed.

Lemma decrypt_stored_record (X : Externals) (encryptor : PersonalDataEncryptor)
  (u : User) (e : dict value) (w : world) :
  encrypted_data u = Some (json_dumps_ascii (VDict e)) ->
  storable_record e = true ->
  NoDup (keys e) ->
  UserService._decrypt_user_data encryptor u w = auto_decrypt_user_data encryptor e w.
Proof.
  intros Htext Hst Hnd. unfold UserService._decrypt_user_data. rewrite Htext.
  assert (Hne : exists c t, json_dumps_ascii (VDict e) = c :: t).
  { rewrite json_dumps_ascii_dict. eexists _, _. reflexivity. }
  destruct Hne as (c & t & Hct). rewrite Hct, <- Hct.
  cbv [try_except bind lift]. rewrite (stored_record_loads e Hst Hnd). cbn [py_items].
  destruct (@auto_decrypt_loop_spec X encryptor w e [] w) as [w' Hloop].
  unfold auto_decrypt_user_data. rewrite Hloop. reflexivity.
Qed.

Lemma create_new_user_returns (X : Externals) (H : HashExternals)
  (encryptor : PersonalDataEncryptor) (id : Z) (user_data : dict value) (w : world) :
  valid_aes_key (encryption_key encryptor) = true ->
  key_rotation_days encryptor <> 0%Z ->
  storable_record user_data = true ->
  exists e w1 u w',
    auto_encrypt_user_data encryptor user_data w = (Ok e, w1)
    /\ storable_record e = true /\ NoDup (keys e)
    /\ UserService._create_new_user encryptor id user_data w = (Ok u, w')
    /\ user_id u = id
    /\ encrypted_data u = Some (json_dumps_ascii (VDict e))
    /\ is_active u = true.
Proof.
  intros Hkey Hd Hst.
  destruct (@auto_encrypt_returns X encryptor user_data w Hkey Hd
              (@storable_record_fields X user_data Hst)) as (e & w1 & Henc & Hse & Hnd).
  destruct (@create_data_hash_returns H user_data Hst) as [h Hh].
  exists e, w1. unfold UserService._create_new_user. cbv [bind lift].
  rewrite Henc, Hh. cbv [utcnow ret].
  eexists _, _. repeat split; try reflexivity; assumption.
Qed.

Lemma save_then_get (X : Externals) (HX : ExternalsLaws X) (H : HashExternals)
  (encryptor : PersonalDataEncryptor) (table : list User) (id : Z)
  (user_data : dict value) (w : world) :
  valid_aes_key (encryption_key encryptor) = true ->
  key_rotation_days encryptor <> 0%Z ->
  session_get table id = None ->
  NoDup (keys user_data) ->
  storable_record user_data = true ->
  exists table' w',
    UserService.save_user_data encryptor table id user_data w = (Ok (true, table'), w')
    /\ forall w2, exists d w3,
         UserService.get_user_data encryptor table' id w2 = (Ok d, w3)
         /\ dict_get (lit "_encrypted") d = Some (VBool true)
         /\ forall k v,
              dict_get k user_data = Some v ->
              ~ In k STAMP_KEYS ->
              dict_get k d
              = Some (if is_encrypted_field k && truthy v
                      then VStr (py_str py_repr v) else v).
Proof.
  intros Hkey Hd Hnew Hnd Hst.
  destruct (@create_new_user_returns X H encryptor id user_data w Hkey Hd Hst)
    as (e & w1 & u & w' & Henc & Hse & Hnde & Hcreate & Hid & Htext & Hactive).
  exists (session_commit u table), w'. split.
  - unfold UserService.save_user_data. cbv [try_except bind ret].
    rewrite Hnew, Hcreate. reflexivity.
  - intros w2.
    destruct (@decrypt_encrypted_record X HX encryptor user_data e w w1 w2 Hnd Henc)
      as (d & w3 & Hdec & Hget).
    exists d, w3. split; [|split; [|exact Hget]].
    + unfold UserService.get_user_data. cbv [try_except].
      rewrite <- Hid, session_get_commit, Hactive. cbn [negb].
      rewrite (@decrypt_stored_record X encryptor u e w2 Htext Hse Hnde), Hdec.
      reflexivity.
    + destruct (@auto_decrypt_loop_spec X encryptor w2 e [] w2) as [w5 Hloop].
      unfold auto_decrypt_user_data in Hdec. rewrite Hloop in Hdec.
      injection Hdec as <- _.
      rewrite (@store_views_get _ e [] (lit "_encrypted") Hnde).
      destruct (@auto_encrypt_returns_inv X encryptor user_data w w1 e Henc)
        as (acc & w0 & _ & _ & He & _).
      rewrite He. rewrite !dict_get_setitem_other by discriminate.
      rewrite dict_get_setitem_same. reflexivity.
Qed.

(** X21. A record of strings without surrogates, booleans and [None]
    saved for a new user id is read back: [save_user_data] returns
    [True], and [get_user_data] then returns a record that holds, under
    every key of the saved record other than the stamp keys, the saved
    value (its text [str(value)] when the field is sensitive and the
    value truthy).  The encryptor needs a valid AES key and a rotation
    period other than zero. *)
Theorem saved_record_read_back (X : Externals) (HX : ExternalsLaws X) (H : HashExternals)
  (encryptor : PersonalDataEncryptor) (table : list User) (id : Z)
  (user_data : dict value) (w : world) :
  valid_aes_key (encryption_key encryptor) = true ->
  key_rotation_days encryptor <> 0%Z ->
  session_get table id = None ->
  NoDup (keys user_data) ->
  storable_record user_data = true ->
  exists table' w',
    UserService.save_user_data encryptor table id user_data w = (Ok (true, table'), w')
    /\ forall w2, exists d w3,
         UserService.get_user_data encryptor table' id w2 = (Ok d, w3)
         /\ forall k v,
              dict_get k user_data = Some v ->
              ~ In k STAMP_KEYS ->
              dict_get k d
              = Some (if is_encrypted_field k && truthy v
                      then VStr (py_str py_repr v) else v).
Proof.
  intros Hkey Hd Hnew Hnd Hst.
  destruct (@save_then_get X HX H encryptor table id user_data w Hkey Hd Hnew Hnd Hst)
    as (table' & w' & Hsave & Hget).
  exists table', w'. split; [exact Hsave|].
  intros w2. destruct (Hget w2) as (d & w3 & Hrun & _ & Hd').
  now exists d, w3.
Qed.

Lemma saved_record_read_back_witness :
  exists table' w' d,
    UserService.save_user_data (X := sample_externals) (H := sample_hasher)
      sample_encryptor [] 7 sample_user_data sample_world = (Ok (true, table'), w')
    /\ fst (UserService.get_user_data (X := sample_externals) sample_encryptor table' 7
              sample_world) = Ok d
    /\ dict_get (lit "fio") d = Some (VStr (lit "Ivanov"))
    /\ dict_get (lit "city") d = Some (VStr (lit "Kazan")).
Proof.
  assert (Hnd : NoDup (keys sample_user_data)).
  { repeat constructor; cbn; intuition discriminate. }
  destruct (@saved_record_read_back sample_externals sample_externals_laws sample_hasher
              sample_encryptor [] 7%Z sample_user_data sample_world eq_refl
              ltac:(discriminate) eq_refl Hnd eq_refl) as (table' & w' & Hsave & Hget).
  destruct (Hget sample_world) as (d & w3 & Hrun & Hd).
  exists table', w', d. split; [exact Hsave|]. rewrite Hrun. split; [reflexivity|].
  split.
  - rewrite (Hd (lit "fio") (VStr (lit "Ivanov")) eq_refl).
    + reflexivity.
    + vm_compute. intuition discriminate.
  - rewrite (Hd (lit "city") (VStr (lit "Kazan")) eq_refl).
    + reflexivity.
    + vm_compute. intuition discriminate.
Defined.

(** ** Updating a stored record *)

Lemma dict_update_get_other {V} (other d : dict V) (k : str) :
  dict_get k other = None -> dict_get k (dict_update d other) = dict_get k d.
Proof.
  unfold dict_update. revert d. induction other as [|[k' v'] other IH]; intros d Hk.
  - reflexivity.
  - cbn [dict_get] in Hk. cbn [fold_left fst snd].
    destruct (str_eqb k' k) eqn:E; [discriminate|].
    apply str_eqb_neq in E.
    rewrite (IH _ Hk). now apply dict_get_setitem_other.
Qed.

Lemma dict_update_NoDup {V} (other d : dict V) :
  NoDup (keys d) -> NoDup (keys (dict_update d other)).
Proof.
  unfold dict_update. revert d. induction other as [|[k' v'] other IH]; intros d Hd.
  - exact Hd.
  - cbn [fold_left fst snd]. apply IH. now apply keys_setitem_NoDup.
Qed.

Lemma decrypt_user_data_parsed (X : Externals) (encryptor : PersonalDataEncryptor)
  (u : User) (text : str) (e : dict value) (w0 w : world) :
  encrypted_data u = Some text -> text <> [] ->
  json_loads text = Ok (VDict e) ->
  exists w',
    UserService._decrypt_user_data encryptor u w
    = (Ok (store_views (decrypted_view encryptor w0) e []), w').
Proof.
  intros Htext Hne Hload. unfold UserService._decrypt_user_data. rewrite Htext.
  destruct text as [|c t]; [now elim Hne|].
  cbv [try_except bind lift]. rewrite Hload. cbn [py_items].
  destruct (@auto_decrypt_loop_spec X encryptor w0 e [] w) as [w' Hloop].
  unfold auto_decrypt_user_data. rewrite Hloop. now exists w'.
Qed.

(** X22. An update destroys what could not be decrypted: when a stored
    record holds a sensitive field whose envelope [decrypt_field]
    rejects, and [_update_user_data] is called with new data that do not
    mention this field, the record written back holds for it a fresh
    envelope of the text [[DECRYPTION_ERROR]]; the rejected envelope is
    gone. *)
Theorem update_overwrites_undecryptable_field (X : Externals) (HX : ExternalsLaws X)
  (H : HashExternals) (encryptor : PersonalDataEncryptor) (user user' : User)
  (text : str) (e_old user_data : dict value) (k s : str) (err : exn) (w w' : world) :
  encrypted_data user = Some text -> text <> [] ->
  json_loads text = Ok (VDict e_old) ->
  NoDup (keys e_old) ->
  dict_get k e_old = Some (VStr s) ->
  is_encrypted_field k = true ->
  s <> [] ->
  fst (decrypt_field encryptor s w) = Raise err ->
  dict_get k user_data = None ->
  UserService._update_user_data encryptor user user_data w = (Ok user', w') ->
  exists e' env,
    encrypted_data user' = Some (json_dumps_ascii (VDict e'))
    /\ dict_get k e' = Some (VStr env)
    /\ env <> s
    /\ forall w2, fst (decrypt_field encryptor env w2)
                  = Ok (VStr DECRYPTION_ERROR, _map_field_to_category k).
Proof.
  intros Htext Hne Hload Hnd Hk Hsens Hs Herr Hnew Hrun.
  destruct (@decrypt_user_data_parsed X encryptor user text e_old w w Htext Hne Hload)
    as [w1 Hdec].
  unfold UserService._update_user_data in Hrun. cbv [bind] in Hrun.
  rewrite Hdec in Hrun.
  set (current := dict_update (store_views (decrypted_view encryptor w) e_old []) user_data)
    in *.
  destruct (auto_encrypt_user_data encryptor current w1) as [[e'|x] w2] eqn:Henc;
    [|discriminate].
  cbv [lift] in Hrun.
  destruct (UserService._create_data_hash current) as [h|x]; [|discriminate].
  cbv [utcnow ret] in Hrun. injection Hrun as <- _.
  assert (Hcur : dict_get k current = Some (VStr DECRYPTION_ERROR)).
  { unfold current. rewrite (dict_update_get_other _ _ _ Hnew).
    rewrite (@store_views_get _ e_old [] k Hnd), Hk.
    unfold decrypted_view. rewrite Hsens. cbn [truthy andb].
    destruct s as [|c0 t0]; [now elim Hs|]. cbv iota.
    now rewrite Herr. }
  assert (Hndc : NoDup (keys current)).
  { unfold current. apply dict_update_NoDup. apply store_views_NoDup. constructor. }
  destruct (@auto_encrypt_returns_inv X encryptor current w1 w2 e' Henc)
    as (acc & w0 & Hloop & _ & He & _).
  pose proof (@auto_encrypt_loop_get X encryptor current [] w1 acc w0 Hndc Hloop k) as Hget.
  rewrite Hcur, Hsens in Hget. cbn [truthy DECRYPTION_ERROR andb] in Hget.
  change (truthy (VStr (lit "[DECRYPTION_ERROR]"))) with true in Hget.
  cbn [andb py_str] in Hget.
  destruct Hget as (env & wa & wb & Hfield & Hacc).
  assert (Hmark : DECRYPTION_ERROR <> []) by discriminate.
  destruct (@decrypt_encrypted X HX encryptor DECRYPTION_ERROR _ wa wb env Hmark Hfield)
    as [_ Hback].
  exists e', env. split; [reflexivity|]. split; [|split; [|exact Hback]].
  - rewrite He. rewrite dict_get_stamped; [exact Hacc|].
    intros Hin. rewrite (@stamp_not_sensitive k Hin) in Hsens. discriminate.
  - intros E. rewrite E in Hback. rewrite (Hback w) in Herr. discriminate.
Qed.

Lemma update_overwrites_undecryptable_field_witness :
  exists user' w' e' env,
    UserService._update_user_data (X := sample_externals) (H := sample_hasher)
      sample_encryptor sample_corrupted_user [(lit "city", VStr (lit "Kazan"))] sample_world
    = (Ok user', w')
    /\ encrypted_data user' = Some (json_dumps_ascii (VDict e'))
    /\ dict_get (lit "fio") e' = Some (VStr env)
    /\ fst (decrypt_field (X := sample_externals) sample_encryptor env sample_world)
       = Ok (VStr DECRYPTION_ERROR, FIO).
Proof.
  destruct (UserService._update_user_data (X := sample_externals) (H := sample_hasher)
              sample_encryptor sample_corrupted_user [(lit "city", VStr (lit "Kazan"))]
              sample_world) as [[user'|x] w'] eqn:E.
  2:{ exfalso. apply (f_equal fst) in E. vm_compute in E. discriminate. }
  assert (Hnd : NoDup (keys sample_corrupted_record)).
  { repeat constructor; cbn; intuition discriminate. }
  destruct (@update_overwrites_undecryptable_field sample_externals sample_externals_laws
              sample_hasher sample_encryptor sample_corrupted_user user'
              (json_dumps_ascii (VDict sample_corrupted_record)) sample_corrupted_record
              [(lit "city", VStr (lit "Kazan"))] (lit "fio") (lit "QUJD") SecurityError
              sample_world w' eq_refl ltac:(discriminate) ltac:(vm_compute; reflexivity)
              Hnd eq_refl eq_refl ltac:(discriminate) ltac:(vm_compute; reflexivity)
              eq_refl E) as (e' & env & Htext & Hget & _ & Hback).
  exists user', w', e', env.
  split; [reflexivity|]. split; [exact Htext|]. split; [exact Hget|].
  exact (Hback sample_world).
Defined.

Lemma session_get_id (table : list User) (id : Z) (u : User) :
  session_get table id = Some u -> user_id u = id.
Proof.
  unfold session_get. intros Hf. apply find_some in Hf. destruct Hf as [_ Hid].
  now apply Z.eqb_eq in Hid.
Qed.

Lemma update_user_data_keeps (X : Externals) (H : HashExternals)
  (encryptor : PersonalDataEncryptor) (user user' : User) (user_data : dict value)
  (w w' : world) :
  UserService._update_user_data encryptor user user_data w = (Ok user', w') ->
  user_id user' = user_id user
  /\ is_active user' = is_active user
  /\ created_at user' = created_at user
  /\ deleted_at user' = deleted_at user.
Proof.
  unfold UserService._update_user_data. cbv [bind lift utcnow ret].
  destruct (UserService._decrypt_user_data encryptor user w) as [[cur|x] w1]; [|discriminate].
  destruct (auto_encrypt_user_data encryptor _ w1) as [[e|x] w2]; [|discriminate].
  destruct (UserService._create_data_hash _) as [h|x]; [|discriminate].
  intros [= <- _]. repeat split.
Qed.

(** X23. Saving does not bring a deleted user back: when the row of
    the user id is not active, [save_user_data] updates the stored
    record and returns [True] like for any other user, but leaves the
    row inactive, so that [get_user_data] still returns the empty
    record afterwards. *)
Theorem save_does_not_reactivate (X : Externals) (H : HashExternals)
  (encryptor : PersonalDataEncryptor) (table table' : list User) (id : Z) (user : User)
  (user_data : dict value) (saved : bool) (w w' : world) :
  session_get table id = Some user ->
  is_active user = false ->
  UserService.save_user_data encryptor table id user_data w = (Ok (saved, table'), w') ->
  forall w2, UserService.get_user_data encryptor table' id w2 = (Ok [], w2).
Proof.
  intros Hget Hinactive Hsave w2.
  unfold UserService.save_user_data in Hsave. cbv [try_except bind ret] in Hsave.
  rewrite Hget in Hsave.
  unfold UserService.get_user_data. cbv [try_except ret].
  destruct (UserService._update_user_data encryptor user user_data w) as [[user'|x] w1] eqn:Hup.
  - injection Hsave as _ <- _.
    destruct (@update_user_data_keeps X H encryptor user user' user_data w w1 Hup)
      as (Hid & Hact & _).
    rewrite <- (session_get_id _ _ Hget), <- Hid, session_get_commit.
    rewrite Hact, Hinactive. reflexivity.
  - injection Hsave as _ <- _. rewrite Hget, Hinactive. reflexivity.
Qed.

Lemma save_does_not_reactivate_witness :
  exists table' w',
    UserService.save_user_data (X := sample_externals) (H := sample_hasher)
      sample_encryptor sample_deleted_table 7 sample_user_data sample_world
    = (Ok (true, table'), w')
    /\ UserService.get_user_data (X := sample_externals) sample_encryptor table' 7 sample_world
       = (Ok [], sample_world).
Proof.
  destruct (UserService.save_user_data (X := sample_externals) (H := sample_hasher)
              sample_encryptor sample_deleted_table 7 sample_user_data sample_world)
    as [[[saved table']|x] w'] eqn:E.
  2:{ exfalso. apply (f_equal fst) in E. vm_compute in E. discriminate. }
  assert (Hsaved : saved = true).
  { apply (f_equal (fun r => match fst r with Ok (b, _) => b | Raise _ => false end)) in E.
    vm_compute in E. congruence. }
  subst saved. exists table', w'. split; [reflexivity|].
  apply (@save_does_not_reactivate sample_externals sample_hasher sample_encryptor
           sample_deleted_table table' 7%Z
           (mkUser 7 (Some (lit "{}")) None (mkDatetime 2026 1 1 0 0 0 0)
                   (mkDatetime 2026 1 1 0 0 0 0) (Some (mkDatetime 2026 2 1 0 0 0 0)) false)
           sample_user_data true sample_world w' eq_refl eq_refl E).
Defined.

(** ** Reading a row *)

(** X24. [_decrypt_user_data] never raises.  A row without stored
    text, with an empty text, with a text that is not JSON or with JSON
    that is not an object reads as the empty record, with no trace of
    the failure in the result. *)
Theorem unreadable_record_reads_empty (X : Externals) (encryptor : PersonalDataEncryptor)
  (user : User) (w : world) :
  (exists d w', UserService._decrypt_user_data encryptor user w = (Ok d, w'))
  /\ (match encrypted_data user with
      | None => True
      | Some text => text = [] \/ forall e, json_loads text <> Ok (VDict e)
      end ->
      UserService._decrypt_user_data encryptor user w = (Ok [], w)).
Proof.
  unfold UserService._decrypt_user_data.
  destruct (encrypted_data user) as [[|c t]|].
  - split; [now exists [], w|reflexivity].
  - cbv [try_except bind lift].
    destruct (json_loads (c :: t)) as [v|x] eqn:Hload.
    + destruct v as [|b|z|s|l|e]; cbn [py_items];
        try (split; [now exists [], w|reflexivity]).
      destruct (@auto_decrypt_loop_spec X encryptor w e [] w) as [w' Hloop].
      unfold auto_decrypt_user_data. rewrite Hloop.
      split; [now eexists _, _|].
      intros [Hempty|Hnot]; [discriminate|]. now elim (Hnot e).
    + split; [now exists [], w|reflexivity].
  - split; [now exists [], w|reflexivity].
Qed.

Lemma unreadable_record_reads_empty_witness :
  UserService._decrypt_user_data (X := sample_externals) sample_encryptor
    (mkUser 7 (Some (lit "[1, 2]")) None (mkDatetime 2026 1 1 0 0 0 0)
            (mkDatetime 2026 1 1 0 0 0 0) None true) sample_world
  = (Ok [], sample_world).
Proof.
  apply (proj2 (@unreadable_record_reads_empty sample_externals sample_encryptor
                  (mkUser 7 (Some (lit "[1, 2]")) None (mkDatetime 2026 1 1 0 0 0 0)
                          (mkDatetime 2026 1 1 0 0 0 0) None true) sample_world)).
  right. intros e. vm_compute. discriminate.
Defined.

(** ** The service's report on a stored record *)

Lemma existsb_str_in (k : str) (l : list str) :
  existsb (str_eqb k) l = true <-> In k l.
Proof.
  rewrite existsb_exists. split.
  - intros (x & Hin & Hx). apply str_eqb_eq in Hx. now subst.
  - intros Hin. exists k. split; [exact Hin|apply str_eqb_refl].
Qed.

(** X25. For a stored record that [auto_encrypt_user_data] made from a
    plain record without stamp keys, the service's [get_encryption_info]
    reports [is_encrypted] true and, as [fields_encrypted], the number
    of keys of the plain record that do not start with an underscore:
    fields that are not sensitive and were stored as they are count as
    well. *)
Theorem fields_encrypted_counts_every_field (X : Externals)
  (encryptor : PersonalDataEncryptor) (table : list User) (id : Z) (user : User)
  (text : str) (user_data e : dict value) (w w1 w2 : world) :
  NoDup (keys user_data) ->
  (forall k, In k STAMP_KEYS -> ~ In k (keys user_data)) ->
  auto_encrypt_user_data encryptor user_data w = (Ok e, w1) ->
  session_get table id = Some user ->
  encrypted_data user = Some text -> text <> [] ->
  json_loads text = Ok (VDict e) ->
  exists info,
    UserService.get_encryption_info table id w2 = (Ok info, w2)
    /\ dict_get (lit "is_encrypted") info = Some (VBool true)
    /\ dict_get (lit "fields_encrypted") info
       = Some (VInt (Z.of_nat (length (filter (fun k => negb (startswith_underscore k))
                                              (keys user_data))))).
Proof.
  intros Hnd Hfree Henc Hget Htext Hne Hload.
  destruct (@auto_encrypt_returns_inv X encryptor user_data w w1 e Henc)
    as (acc & w0 & Hloop & _ & He & _).
  assert (Hacc : keys acc = keys user_data).
  { apply (@auto_encrypt_loop_keys X encryptor user_data [] w acc w0); [exact Hnd|exact Hloop]. }
  assert (Hkeys : keys e = keys user_data ++ STAMP_KEYS).
  { rewrite He.
    rewrite keys_setitem_fresh.
    2:{ rewrite keys_setitem_in, keys_setitem_in, Hacc.
        intros [E|[E|Hin]]; [discriminate E|discriminate E|].
        revert Hin. apply Hfree. cbn. auto. }
    rewrite keys_setitem_fresh.
    2:{ rewrite keys_setitem_in, Hacc.
        intros [E|Hin]; [discriminate E|].
        revert Hin. apply Hfree. cbn. auto. }
    rewrite keys_setitem_fresh by (rewrite Hacc; apply Hfree; cbn; auto).
    rewrite Hacc, <- !app_assoc. reflexivity. }
  unfold UserService.get_encryption_info. cbv [try_except bind lift ret].
  rewrite Hget, Htext. destruct text as [|c t]; [now elim Hne|].
  rewrite Hload. cbn [py_items].
  eexists. split; [reflexivity|]. split.
  - cbn [dict_get]. change (str_eqb (lit "user_id") (lit "is_encrypted")) with false.
    change (str_eqb (lit "is_encrypted") (lit "is_encrypted")) with true. cbv iota.
    do 2 f_equal. apply existsb_str_in. rewrite Hkeys. apply in_or_app. right. now left.
  - cbn [dict_get].
    change (str_eqb (lit "user_id") (lit "fields_encrypted")) with false.
    change (str_eqb (lit "is_encrypted") (lit "fields_encrypted")) with false.
    change (str_eqb (lit "encryption_version") (lit "fields_encrypted")) with false.
    change (str_eqb (lit "encrypted_at") (lit "fields_encrypted")) with false.
    change (str_eqb (lit "fields_encrypted") (lit "fields_encrypted")) with true.
    cbv iota. do 3 f_equal.
    rewrite Hkeys, filter_app, length_app.
    change (length (filter (fun k => negb (startswith_underscore k)) STAMP_KEYS)) with 0.
    lia.
Qed.

Lemma fields_encrypted_counts_every_field_witness :
  exists info,
    UserService.get_encryption_info sample_plain_table 7 sample_world
    = (Ok info, sample_world)
    /\ dict_get (lit "is_encrypted") info = Some (VBool true)
    /\ dict_get (lit "fields_encrypted") info = Some (VInt 1).
Proof.
  assert (Hnd : NoDup (keys sample_plain_record)).
  { repeat constructor; cbn; intuition discriminate. }
  assert (Hfree : forall k, In k STAMP_KEYS -> ~ In k (keys sample_plain_record)).
  { intros k Hin Hk. vm_compute in Hin, Hk. intuition congruence. }
  set (r := auto_encrypt_user_data (X := sample_externals) sample_encryptor
              sample_plain_record sample_world).
  assert (Hr : r = (Ok sample_stored_plain, snd r)) by (vm_compute; reflexivity).
  destruct (@fields_encrypted_counts_every_field sample_externals sample_encryptor
              sample_plain_table 7%Z
              (mkUser 7 (Some (json_dumps_ascii (VDict sample_stored_plain))) None
                      (mkDatetime 2026 1 1 0 0 0 0) (mkDatetime 2026 1 1 0 0 0 0) None true)
              (json_dumps_ascii (VDict sample_stored_plain)) sample_plain_record
              sample_stored_plain sample_world (snd r) sample_world
              Hnd Hfree Hr eq_refl eq_refl ltac:(vm_compute; discriminate)
              ltac:(vm_compute; reflexivity))
    as (info & Hrun & Henc & Hcount).
  exists info. split; [exact Hrun|]. split; [exact Henc|exact Hcount].
Defined.

(** ** Export *)




(** ** Deleting, and updating one field *)

(** X27. [delete_user_data] is a soft delete: for a known user id it
    returns [True], reads the clock once and marks the row inactive, so
    that [get_user_data] returns the empty record, while the stored
    text and the data hash stay in the table; for an unknown id it
    returns [False] and changes nothing. *)
Theorem delete_keeps_stored_text (X : Externals) (encryptor : PersonalDataEncryptor)
  (table : list User) (id : Z) (w : world) :
  (session_get table id = None ->
   UserService.delete_user_data table id w = (Ok (false, table), w))
  /\ (forall user,
        session_get table id = Some user ->
        exists table' user',
          UserService.delete_user_data table id w = (Ok (true, table'), after_utcnow w)
          /\ (forall w2, UserService.get_user_data encryptor table' id w2 = (Ok [], w2))
          /\ session_get table' id = Some user'
          /\ encrypted_data user' = encrypted_data user
          /\ data_hash user' = data_hash user).
Proof.
  split.
  - intros Hget. unfold UserService.delete_user_data. cbv [try_except ret].
    now rewrite Hget.
  - intros user Hget.
    pose proof (session_get_id _ _ Hget) as Hid.
    set (user' := mkUser (user_id user) (encrypted_data user) (data_hash user)
                         (created_at user) (updated_at user) (Some (clock w (ticks w)))
                         false).
    exists (session_commit user' table), user'.
    assert (Hnew : session_get (session_commit user' table) id = Some user').
    { rewrite <- Hid. apply (session_get_commit user' table). }
    split; [|split; [|split; [exact Hnew|split; reflexivity]]].
    + unfold UserService.delete_user_data. cbv [try_except bind utcnow ret].
      rewrite Hget. reflexivity.
    + intros w2. unfold UserService.get_user_data. cbv [try_except ret].
      rewrite Hnew. reflexivity.
Qed.

Lemma delete_keeps_stored_text_witness :
  exists table' user',
    UserService.delete_user_data sample_plain_table 7 sample_world
    = (Ok (true, table'), after_utcnow sample_world)
    /\ UserService.get_user_data (X := sample_externals) sample_encryptor table' 7 sample_world
       = (Ok [], sample_world)
    /\ session_get table' 7 = Some user'
    /\ encrypted_data user' = Some (json_dumps_ascii (VDict sample_stored_plain)).
Proof.
  destruct (proj2 (@delete_keeps_stored_text sample_externals sample_encryptor
                     sample_plain_table 7%Z sample_world)
              (mkUser 7 (Some (json_dumps_ascii (VDict sample_stored_plain))) None
                      (mkDatetime 2026 1 1 0 0 0 0) (mkDatetime 2026 1 1 0 0 0 0) None true)
              eq_refl) as (table' & user' & Hdel & Hget & Hrow & Htext & _).
  exists table', user'. split; [exact Hdel|]. split; [apply Hget|].
  split; [exact Hrow|exact Htext].
Defined.

Lemma decrypt_user_data_unreadable (X : Externals) (encryptor : PersonalDataEncryptor)
  (user : User) (w : world) :
  match encrypted_data user with
  | None => True
  | Some text => text = [] \/ forall e, json_loads text <> Ok (VDict e)
  end ->
  UserService._decrypt_user_data encryptor user w = (Ok [], w).
Proof.
  unfold UserService._decrypt_user_data.
  destruct (encrypted_data user) as [[|c t]|]; try reflexivity.
  intros [Hempty|Hnot]; [discriminate|].
  cbv [try_except bind lift].
  destruct (json_loads (c :: t)) as [v|x] eqn:Hload; [|reflexivity].
  destruct v as [|b|z|s|l|e]; cbn [py_items]; try reflexivity.
  now elim (Hnot e).
Qed.

(** X28. [update_user_field] on a row whose stored text cannot be read
    as a record does not fail: when it returns [True], the row holds a
    new record with the updated field and the three stamps and nothing
    else, and the text that could not be read is gone. *)
Theorem update_field_replaces_unreadable_record (X : Externals) (H : HashExternals)
  (encryptor : PersonalDataEncryptor) (table table' : list User) (id : Z) (user : User)
  (field : str) (v : value) (w w' : world) :
  session_get table id = Some user ->
  match encrypted_data user with
  | None => True
  | Some text => text = [] \/ forall e, json_loads text <> Ok (VDict e)
  end ->
  ~ In field STAMP_KEYS ->
  UserService.update_user_field encryptor table id field v w = (Ok (true, table'), w') ->
  exists user' e',
    session_get table' id = Some user'
    /\ encrypted_data user' = Some (json_dumps_ascii (VDict e'))
    /\ keys e' = field :: STAMP_KEYS.
Proof.
  intros Hget Hbad Hfield Hrun.
  pose proof (session_get_id _ _ Hget) as Hid.
  unfold UserService.update_user_field in Hrun. cbv [try_except bind] in Hrun.
  rewrite Hget, (@decrypt_user_data_unreadable X encryptor user w Hbad) in Hrun.
  cbn [dict_setitem] in Hrun.
  destruct (auto_encrypt_user_data encryptor [(field, v)] w) as [[e'|x] w1] eqn:Henc.
  2:{ cbv [ret] in Hrun. discriminate. }
  cbv [lift] in Hrun.
  destruct (UserService._create_data_hash [(field, v)]) as [h|x].
  2:{ cbv [ret] in Hrun. discriminate. }
  cbv [utcnow ret] in Hrun. injection Hrun as <- _.
  match goal with
  | |- context [session_commit ?u table] =>
      exists u, e'; split; [rewrite <- Hid; exact (session_get_commit u table)|]
  end.
  split; [reflexivity|].
  destruct (@auto_encrypt_returns_inv X encryptor [(field, v)] w w1 e' Henc)
    as (acc & w0 & Hloop & _ & He & _).
  assert (Hnd : NoDup (keys [(field, v)])) by (repeat constructor; intros []).
  assert (Hacc : keys acc = [field]).
  { apply (@auto_encrypt_loop_keys X encryptor [(field, v)] [] w acc w0); [exact Hnd|exact Hloop]. }
  assert (Hfree : forall k, In k STAMP_KEYS -> ~ In k (keys acc)).
  { intros k Hk. rewrite Hacc. intros [<-|[]]. now apply Hfield. }
  rewrite He.
  rewrite keys_setitem_fresh.
  2:{ rewrite keys_setitem_in, keys_setitem_in.
      intros [E|[E|Hin]]; [discriminate E|discriminate E|].
      revert Hin. apply Hfree. cbn. auto. }
  rewrite keys_setitem_fresh.
  2:{ rewrite keys_setitem_in.
      intros [E|Hin]; [discriminate E|].
      revert Hin. apply Hfree. cbn. auto. }
  rewrite keys_setitem_fresh by (apply Hfree; cbn; auto).
  rewrite Hacc. reflexivity.
Qed.

Lemma update_field_replaces_unreadable_record_witness :
  exists table' w' user' e',
    UserService.update_user_field (X := sample_externals) (H := sample_hasher)
      sample_encryptor sample_unreadable_table 7 (lit "city") (VStr (lit "Kazan"))
      sample_world = (Ok (true, table'), w')
    /\ session_get table' 7 = Some user'
    /\ encrypted_data user' = Some (json_dumps_ascii (VDict e'))
    /\ keys e' = [lit "city"; lit "_encrypted"; lit "_encryption_version";
                  lit "_encrypted_at"].
Proof.
  destruct (UserService.update_user_field (X := sample_externals) (H := sample_hasher)
              sample_encryptor sample_unreadable_table 7 (lit "city") (VStr (lit "Kazan"))
              sample_world) as [[[updated table']|x] w'] eqn:E.
  2:{ exfalso. apply (f_equal fst) in E. vm_compute in E. discriminate. }
  assert (Hupdated : updated = true).
  { apply (f_equal (fun r => match fst r with Ok (b, _) => b | Raise _ => false end)) in E.
    vm_compute in E. congruence. }
  subst updated.
  assert (Hbad : match encrypted_data sample_unreadable_user with
                 | None => True
                 | Some text => text = [] \/ forall e, json_loads text <> Ok (VDict e)
                 end).
  { right. intros e. vm_compute. discriminate. }
  assert (Hfield : ~ In (lit "city") STAMP_KEYS).
  { vm_compute. intuition discriminate. }
  destruct (@update_field_replaces_unreadable_record sample_externals sample_hasher
              sample_encryptor sample_unreadable_table table' 7%Z sample_unreadable_user
              (lit "city") (VStr (lit "Kazan")) sample_world w' eq_refl Hbad Hfield E)
    as (user' & e' & Hrow & Htext & Hkeys).
  exists table', w', user', e'. split; [reflexivity|].
  split; [exact Hrow|]. split; [exact Htext|exact Hkeys].
Defined.

(** ** Encrypting an encrypted record *)

(** X29. [auto_encrypt_user_data] does not look at the [_encrypted]
    stamp: applied to a record that is already encrypted it encrypts
    the envelopes again, and one [auto_decrypt_user_data] then gives
    back the envelopes of the first encryption, not the plain values. *)
Theorem double_encryption_needs_double_decryption (X : Externals) (HX : ExternalsLaws X)
  (self : PersonalDataEncryptor) (user_data e e2 : dict value) (w w1 w2 w3 w4 : world) :
  NoDup (keys user_data) ->
  auto_encrypt_user_data self user_data w = (Ok e, w1) ->
  auto_encrypt_user_data self e w2 = (Ok e2, w3) ->
  exists d w5,
    auto_decrypt_user_data self e2 w4 = (Ok d, w5)
    /\ forall k,
         In k (keys user_data) -> ~ In k STAMP_KEYS ->
         dict_get k d = dict_get k e.
Proof.
  intros Hnd Henc1 Henc2.
  destruct (@auto_encrypt_returns_inv X self user_data w w1 e Henc1)
    as (acc & w0 & Hloop & _ & He & _).
  assert (Hnde : NoDup (keys e)).
  { rewrite He. repeat apply keys_setitem_NoDup.
    apply (@auto_encrypt_loop_NoDup X self user_data [] w acc w0); [constructor|exact Hloop]. }
  destruct (@decrypt_encrypted_record X HX self e e2 w2 w3 w4 Hnde Henc2)
    as (d & w5 & Hdec & Hget).
  exists d, w5. split; [exact Hdec|].
  intros k Hin Hstamp.
  assert (Hek : dict_get k e = dict_get k acc) by (rewrite He; now apply dict_get_stamped).
  pose proof (@auto_encrypt_loop_get X self user_data [] w acc w0 Hnd Hloop k) as Hacc.
  destruct (dict_get k user_data) as [v|] eqn:Hk.
  2:{ exfalso. apply dict_get_in_keys in Hin. now apply Hin. }
  destruct (is_encrypted_field k && truthy v) eqn:Hcond.
  - destruct Hacc as (env & wa & wb & _ & Hacc).
    rewrite Hek, Hacc.
    rewrite (Hget k (VStr env) (eq_trans Hek Hacc) Hstamp).
    cbn [py_str]. now destruct (is_encrypted_field k && truthy (VStr env)).
  - rewrite Hek, Hacc.
    rewrite (Hget k v (eq_trans Hek Hacc) Hstamp).
    now rewrite Hcond.
Qed.

Lemma double_encryption_needs_double_decryption_witness :
  exists e e2 d,
    fst (auto_encrypt_user_data (X := sample_externals) sample_encryptor sample_record
           sample_world) = Ok e
    /\ fst (auto_encrypt_user_data (X := sample_externals) sample_encryptor e sample_world)
       = Ok e2
    /\ fst (auto_decrypt_user_data (X := sample_externals) sample_encryptor e2 sample_world)
       = Ok d
    /\ dict_get (lit "fio") d = dict_get (lit "fio") e
    /\ dict_get (lit "fio") d = Some (VStr sample_envelope).
Proof.
  destruct (auto_encrypt_user_data (X := sample_externals) sample_encryptor sample_record
              sample_world) as [[e|x] w1] eqn:E1.
  2:{ exfalso. apply (f_equal fst) in E1. vm_compute in E1. discriminate. }
  assert (He : e = match fst (auto_encrypt_user_data (X := sample_externals) sample_encryptor
                                sample_record sample_world) with
                   | Ok r => r
                   | Raise _ => []
                   end) by now rewrite E1.
  destruct (auto_encrypt_user_data (X := sample_externals) sample_encryptor e sample_world)
    as [[e2|x] w3] eqn:E2.
  2:{ exfalso. apply (f_equal fst) in E2. rewrite He in E2. vm_compute in E2. discriminate. }
  assert (Hnd : NoDup (keys sample_record)).
  { repeat constructor; cbn; intuition discriminate. }
  destruct (@double_encryption_needs_double_decryption sample_externals sample_externals_laws
              sample_encryptor sample_record e e2 sample_world w1 sample_world w3
              sample_world Hnd E1 E2) as (d & w5 & Hdec & Hsame).
  exists e, e2, d. split; [reflexivity|]. split; [now rewrite E2|]. rewrite Hdec.
  split; [reflexivity|].
  assert (Hfio : dict_get (lit "fio") d = dict_get (lit "fio") e).
  { apply Hsame; [cbn; auto|]. vm_compute. intuition discriminate. }
  split; [exact Hfio|]. rewrite Hfio, He. vm_compute. reflexivity.
Defined.

(** ** What an update keeps and what it replaces *)

Lemma dict_update_get {V} (other d : dict V) (k : str) :
  NoDup (keys other) ->
  dict_get k (dict_update d other)
  = match dict_get k other with
    | Some v => Some v
    | None => dict_get k d
    end.
Proof.
  unfold dict_update. revert d. induction other as [|[k' v'] other IH]; intros d Hnd.
  - reflexivity.
  - cbn [keys map fst] in Hnd. apply NoDup_cons_iff in Hnd. destruct Hnd as [Hnotin Hnd].
    cbn [fold_left fst snd dict_get]. rewrite (IH _ Hnd).
    destruct (str_eqb k' k) eqn:E.
    + apply str_eqb_eq in E. subst k'.
      rewrite (@dict_get_not_in V k other Hnotin). apply dict_get_setitem_same.
    + apply str_eqb_neq in E.
      destruct (dict_get k other); [reflexivity|]. now apply dict_get_setitem_other.
Qed.

(** X30. [_update_user_data] merges: when it returns, the record it
    wrote decrypts, under every key of the new data, to the new value
    and, under every other key of the stored record, to the value that
    key decrypted to before the update (stamp keys apart; sensitive
    truthy values as their text). *)
Theorem update_merges_new_into_stored (X : Externals) (HX : ExternalsLaws X)
  (H : HashExternals) (encryptor : PersonalDataEncryptor) (user user' : User)
  (text : str) (e_old user_data : dict value) (w w' w2 : world) :
  encrypted_data user = Some text -> text <> [] ->
  json_loads text = Ok (VDict e_old) ->
  NoDup (keys e_old) ->
  NoDup (keys user_data) ->
  UserService._update_user_data encryptor user user_data w = (Ok user', w') ->
  exists e' d w3,
    encrypted_data user' = Some (json_dumps_ascii (VDict e'))
    /\ auto_decrypt_user_data encryptor e' w2 = (Ok d, w3)
    /\ (forall k v,
          dict_get k user_data = Some v -> ~ In k STAMP_KEYS ->
          dict_get k d
          = Some (if is_encrypted_field k && truthy v
                  then VStr (py_str py_repr v) else v))
    /\ (forall k v,
          dict_get k user_data = None -> dict_get k e_old = Some v ->
          ~ In k STAMP_KEYS ->
          let before := decrypted_view encryptor w k v in
          dict_get k d
          = Some (if is_encrypted_field k && truthy before
                  then VStr (py_str py_repr before) else before)).
Proof.
  intros Htext Hne Hload Hnd Hndnew Hrun.
  destruct (@decrypt_user_data_parsed X encryptor user text e_old w w Htext Hne Hload)
    as [w1 Hdec].
  unfold UserService._update_user_data in Hrun. cbv [bind] in Hrun.
  rewrite Hdec in Hrun.
  set (current := dict_update (store_views (decrypted_view encryptor w) e_old []) user_data)
    in *.
  destruct (auto_encrypt_user_data encryptor current w1) as [[e'|x] wa] eqn:Henc;
    [|discriminate].
  cbv [lift] in Hrun.
  destruct (UserService._create_data_hash current) as [h|x]; [|discriminate].
  cbv [utcnow ret] in Hrun. injection Hrun as <- _.
  assert (Hndc : NoDup (keys current)).
  { unfold current. apply dict_update_NoDup. apply store_views_NoDup. constructor. }
  destruct (@decrypt_encrypted_record X HX encryptor current e' w1 wa w2 Hndc Henc)
    as (d & w3 & Hdecr & Hget).
  exists e', d, w3. split; [reflexivity|]. split; [exact Hdecr|]. split.
  - intros k v Hk Hstamp. apply Hget; [|exact Hstamp].
    unfold current. now rewrite (@dict_update_get value user_data _ k Hndnew), Hk.
  - intros k v Hk Hold Hstamp before. apply Hget; [|exact Hstamp].
    unfold current. rewrite (@dict_update_get value user_data _ k Hndnew), Hk.
    now rewrite (@store_views_get _ e_old [] k Hnd), Hold.
Qed.

Lemma update_merges_new_into_stored_witness :
  exists user' w' e' d,
    UserService._update_user_data (X := sample_externals) (H := sample_hasher)
      sample_encryptor sample_corrupted_user [(lit "city", VStr (lit "Kazan"))] sample_world
    = (Ok user', w')
    /\ encrypted_data user' = Some (json_dumps_ascii (VDict e'))
    /\ fst (auto_decrypt_user_data (X := sample_externals) sample_encryptor e' sample_world)
       = Ok d
    /\ dict_get (lit "city") d = Some (VStr (lit "Kazan"))
    /\ dict_get (lit "inn") d = Some (VStr (lit "Ivanov"))
    /\ dict_get (lit "age") d = Some (VInt 42).
Proof.
  destruct (UserService._update_user_data (X := sample_externals) (H := sample_hasher)
              sample_encryptor sample_corrupted_user [(lit "city", VStr (lit "Kazan"))]
              sample_world) as [[user'|x] w'] eqn:E.
  2:{ exfalso. apply (f_equal fst) in E. vm_compute in E. discriminate. }
  assert (Hnd : NoDup (keys sample_corrupted_record)).
  { repeat constructor; cbn; intuition discriminate. }
  assert (Hndnew : NoDup (keys [(lit "city", VStr (lit "Kazan"))])).
  { repeat constructor; cbn; intuition discriminate. }
  destruct (@update_merges_new_into_stored sample_externals sample_externals_laws
              sample_hasher sample_encryptor sample_corrupted_user user'
              (json_dumps_ascii (VDict sample_corrupted_record)) sample_corrupted_record
              [(lit "city", VStr (lit "Kazan"))] sample_world w' sample_world
              eq_refl ltac:(discriminate) ltac:(vm_compute; reflexivity) Hnd Hndnew E)
    as (e' & d & w3 & Htext & Hdec & Hnew & Hold).
  exists user', w', e', d.
  split; [reflexivity|]. split; [exact Htext|]. rewrite Hdec. split; [reflexivity|].
  assert (Hstamp : forall k, startswith_underscore k = false -> ~ In k STAMP_KEYS).
  { intros k Hk [<-|[<-|[<-|[]]]]; discriminate. }
  split; [|split].
  - rewrite (Hnew (lit "city") (VStr (lit "Kazan")) eq_refl (Hstamp (lit "city") eq_refl)).
    reflexivity.
  - rewrite (Hold (lit "inn") (VStr sample_envelope) eq_refl eq_refl
               (Hstamp (lit "inn") eq_refl)).
    vm_compute. reflexivity.
  - rewrite (Hold (lit "age") (VInt 42) eq_refl eq_refl (Hstamp (lit "age") eq_refl)).
    reflexivity.
Defined.
